(** * Target offline scraper: extraction engine and dedup layer

    A shallow embedding of [scrapper.py].  Python [str] values are modelled
    as [string] (sequences of code points below 256), the parsed document
    as a tree of tags and strings, [set] as [gset], the CSV file as the
    text it holds, and the library calls the script relies on ([re],
    [float], [urllib.parse], the [select]/[find]/[get_text] queries of
    BeautifulSoup, the reader and the writer of [csv]) by executable
    definitions that follow the library behaviour on this domain. *)

From Stdlib Require Import ZArith Ascii String List Bool Lia.
From stdpp Require Import base tactics option list gmap strings.

Local Open Scope Z_scope.

#[local] Arguments String.append _ _ : simpl nomatch.
#[local] Set Warnings "-clear-no-such-hyp".

(** ** Characters and strings *)

Module pystr.

Definition code (c : ascii) : Z := Z.of_N (N_of_ascii c).

(** [c in '0123456789'], which is also [\d] on code points below 256. *)
Definition is_digit (c : ascii) : bool := (48 <=? code c) && (code c <=? 57).

(** [str.isspace] (and [\s]) on code points below 256. *)
Definition is_space (c : ascii) : bool :=
  ((9 <=? code c) && (code c <=? 13)) || ((28 <=? code c) && (code c <=? 32))
  || (code c =? 133) || (code c =? 160).

Definition is_upper (c : ascii) : bool := (65 <=? code c) && (code c <=? 90).
Definition is_lower (c : ascii) : bool := (97 <=? code c) && (code c <=? 122).

(** [c.isascii() and c.isalpha()] *)
Definition is_ascii_alpha (c : ascii) : bool := is_upper c || is_lower c.

(** Lower-casing of the ASCII letters. *)
Definition lower_char (c : ascii) : ascii :=
  if is_upper c then ascii_of_N (N_of_ascii c + 32) else c.

Fixpoint map_chars (f : ascii -> ascii) (s : string) : string :=
  match s with
  | EmptyString => EmptyString
  | String c s' => String (f c) (map_chars f s')
  end.

Definition lower (s : string) : string := map_chars lower_char s.

Fixpoint all_chars (p : ascii -> bool) (s : string) : bool :=
  match s with
  | EmptyString => true
  | String c s' => p c && all_chars p s'
  end.

Definition char_in (set : string) (c : ascii) : bool :=
  negb (all_chars (fun d => negb (Ascii.eqb d c)) set).

(** [c in s] for a one-character string [c]. *)
Definition has_char (c : ascii) (s : string) : bool := char_in s c.

Definition nonempty (s : string) : bool :=
  match s with EmptyString => false | _ => true end.

(** [s.startswith(w)], returning the rest of [s] after [w]. *)
Fixpoint strip_prefix (w s : string) : option string :=
  match w, s with
  | EmptyString, _ => Some s
  | String a w', String b s' => if Ascii.eqb a b then strip_prefix w' s' else None
  | String _ _, EmptyString => None
  end.

Definition startswith (w s : string) : bool :=
  match strip_prefix w s with Some _ => true | None => false end.

(** [w in s]: some suffix of [s] starts with [w]. *)
Fixpoint contains (w s : string) : bool :=
  startswith w s ||
  match s with
  | EmptyString => false
  | String _ s' => contains w s'
  end.

(** The longest prefix of [s] free of characters satisfying [p], and what
    follows it: the two halves of [s] around the first such character. *)
Fixpoint break (p : ascii -> bool) (s : string) : string * string :=
  match s with
  | EmptyString => (EmptyString, EmptyString)
  | String c s' =>
      if p c then (EmptyString, s)
      else let '(a, b) := break p s' in (String c a, b)
  end.

(** [s.lstrip(chars)] for the character class [p]. *)
Fixpoint lstrip (p : ascii -> bool) (s : string) : string :=
  match s with
  | EmptyString => EmptyString
  | String c s' => if p c then lstrip p s' else s
  end.

(** [s.rstrip(chars)] for the character class [p]. *)
Fixpoint rstrip (p : ascii -> bool) (s : string) : string :=
  match s with
  | EmptyString => EmptyString
  | String c s' =>
      match rstrip p s' with
      | EmptyString => if p c then EmptyString else String c EmptyString
      | r => String c r
      end
  end.

(** [s.strip()] *)
Definition strip (s : string) : string := rstrip is_space (lstrip is_space s).

(** [s.replace(c, "")] for the characters satisfying [p]. *)
Fixpoint remove_chars (p : ascii -> bool) (s : string) : string :=
  match s with
  | EmptyString => EmptyString
  | String c s' => if p c then remove_chars p s' else String c (remove_chars p s')
  end.

(** [s.split(c)] *)
Fixpoint split (c : ascii) (s : string) : list string :=
  match s with
  | EmptyString => [EmptyString]
  | String d s' =>
      match split c s' with
      | [] => [EmptyString]
      | x :: xs => if Ascii.eqb d c then EmptyString :: x :: xs
                   else String d x :: xs
      end
  end.

(** [sep.join(xs)] *)
Fixpoint join (sep : string) (xs : list string) : string :=
  match xs with
  | [] => EmptyString
  | [x] => x
  | x :: xs' => x +:+ sep +:+ join sep xs'
  end.

(** [s[:n]] *)
Fixpoint take (n : nat) (s : string) : string :=
  match n, s with
  | S n', String c s' => String c (take n' s')
  | _, _ => EmptyString
  end.

End pystr.

(** ** Regular expressions ([re])

    The patterns of the script use literals, the classes [\d] and [\s],
    greedy repetition of a class, alternation, an optional group and at
    most one capturing group.  [match_k] is the backtracking matcher of
    [re] on that fragment: alternatives are tried left to right,
    repetitions take as much as they can and give back one character at a
    time, and the first complete match wins. *)

Module re.
Import pystr.

Inductive regex : Type :=
| Lit (w : string)               (* literal text *)
| Cls (p : ascii -> bool)        (* one character of a class *)
| Star (p : ascii -> bool)       (* greedy [c*] over a class *)
| Seq (r1 r2 : regex)
| Alt (r1 r2 : regex)            (* [r1|r2] *)
| Opt (r : regex)                (* greedy [(?:r)?] *)
| Group (r : regex).             (* capturing group 1 *)

(** [c+] over a class. *)
Definition Plus (p : ascii -> bool) : regex := Seq (Cls p) (Star p).

(** The part of [s] consumed when [rest] is what remains of it. *)
Definition consumed (s rest : string) : string :=
  take (String.length s - String.length rest)%nat s.

Section Matcher.
(** [re.IGNORECASE] *)
Variable ignorecase : bool.
Context {A : Type}.

Definition fold_case (s : string) : string :=
  if ignorecase then lower s else s.

Fixpoint lit_k (w s : string) : option string :=
  match w, s with
  | EmptyString, _ => Some s
  | String a w', String b s' =>
      if Ascii.eqb (if ignorecase then lower_char a else a)
                   (if ignorecase then lower_char b else b)
      then lit_k w' s' else None
  | String _ _, EmptyString => None
  end.

Fixpoint star_k (p : ascii -> bool) (s : string) (k : string -> option A)
  : option A :=
  match s with
  | EmptyString => k s
  | String c s' =>
      if p c then
        match star_k p s' k with
        | Some a => Some a
        | None => k s
        end
      else k s
  end.

Fixpoint match_k (r : regex) (s : string) (g : option string)
         (k : string -> option string -> option A) : option A :=
  match r with
  | Lit w => match lit_k w s with Some s' => k s' g | None => None end
  | Cls p =>
      match s with
      | String c s' => if p c then k s' g else None
      | EmptyString => None
      end
  | Star p => star_k p s (fun s' => k s' g)
  | Seq r1 r2 => match_k r1 s g (fun s' g' => match_k r2 s' g' k)
  | Alt r1 r2 =>
      match match_k r1 s g k with
      | Some a => Some a
      | None => match_k r2 s g k
      end
  | Opt r1 =>
      match match_k r1 s g k with
      | Some a => Some a
      | None => k s g
      end
  | Group r1 => match_k r1 s g (fun s' _ => k s' (Some (consumed s s')))
  end.
End Matcher.

(** A match object: the text of group 0 and of group 1 when it took part. *)
Record Match := { group0 : string; group1 : option string }.

(** [re.match]: a match anchored at the start of [s]. *)
Definition match_here (ic : bool) (r : regex) (s : string) : option Match :=
  match_k ic r s None (fun s' g => Some {| group0 := consumed s s'; group1 := g |}).

(** [re.search]: the leftmost position with a match. *)
Fixpoint search (ic : bool) (r : regex) (s : string) : option Match :=
  match match_here ic r s with
  | Some m => Some m
  | None =>
      match s with
      | EmptyString => None
      | String _ s' => search ic r s'
      end
  end.

(** [m.group(1)] of a pattern whose group 1 takes part in every match. *)
Definition group_1 (m : Match) : string :=
  match group1 m with Some g => g | None => EmptyString end.

(** The declarative reading of a pattern: the words it matches. *)
Inductive matches (ic : bool) : regex -> string -> Prop :=
| M_Lit w s : fold_case ic s = fold_case ic w -> matches ic (Lit w) s
| M_Cls p c : p c = true -> matches ic (Cls p) (String c EmptyString)
| M_Star p s : all_chars p s = true -> matches ic (Star p) s
| M_Seq r1 r2 s1 s2 :
    matches ic r1 s1 -> matches ic r2 s2 -> matches ic (Seq r1 r2) (s1 +:+ s2)
| M_AltL r1 r2 s : matches ic r1 s -> matches ic (Alt r1 r2) s
| M_AltR r1 r2 s : matches ic r2 s -> matches ic (Alt r1 r2) s
| M_OptNone r : matches ic (Opt r) EmptyString
| M_OptSome r s : matches ic r s -> matches ic (Opt r) s
| M_Group r s : matches ic r s -> matches ic (Group r) s.

End re.

(** ** Floating point ([float], [repr])

    A binary64 value that [float] can return on a digit string is either a
    non-negative finite number [m * 2^e] or infinity.  Conversions are done
    on exact rationals and rounded once, to nearest with ties to even, as
    IEEE 754 prescribes; [repr] prints the shortest decimal that reads back
    as the same value. *)

Module pyfloat.
Import pystr.

Inductive float : Type :=
| Finite (m e : Z)     (* m * 2^e, 0 <= m < 2^53, -1074 <= e *)
| Inf.

Definition round_half_even (num den : Z) : Z :=
  let q := num / den in
  let r := num mod den in
  if 2 * r <? den then q
  else if 2 * r =? den then (if Z.even q then q else q + 1)
  else q + 1.

(** The binary64 nearest to [num / den], for [0 <= num] and [0 < den]. *)
Definition of_ratio (num den : Z) : float :=
  if num =? 0 then Finite 0 (-1074)
  else
    let e0 := Z.log2 num - Z.log2 den - 52 in
    let below := num * 2 ^ Z.max 0 (- e0) <? 2 ^ 52 * den * 2 ^ Z.max 0 e0 in
    let e1 := if below then e0 - 1 else e0 in
    let e := Z.max e1 (-1074) in
    let m := round_half_even (num * 2 ^ Z.max 0 (- e)) (den * 2 ^ Z.max 0 e) in
    let e' := if m =? 2 ^ 53 then e + 1 else e in
    let m' := if m =? 2 ^ 53 then 2 ^ 52 else m in
    if 971 <? e' then Inf else Finite m' e'.

Definition eqb (x y : float) : bool :=
  match x, y with
  | Finite m1 e1, Finite m2 e2 => (m1 =? m2) && ((m1 =? 0) || (e1 =? e2))
  | Inf, Inf => true
  | _, _ => false
  end.

(** [float(n)] for a non-negative [int]. *)
Definition of_Z (n : Z) : float := of_ratio n 1.

(** [x + y] *)
Definition add (x y : float) : float :=
  match x, y with
  | Finite m1 e1, Finite m2 e2 =>
      let e := Z.min e1 e2 in
      let sum := m1 * 2 ^ (e1 - e) + m2 * 2 ^ (e2 - e) in
      of_ratio (sum * 2 ^ Z.max 0 e) (2 ^ Z.max 0 (- e))
  | _, _ => Inf
  end.

Definition digit_value (c : ascii) : Z := code c - 48.

Fixpoint digits_value (acc : Z) (s : string) : Z :=
  match s with
  | EmptyString => acc
  | String c s' => digits_value (acc * 10 + digit_value c) s'
  end.

(** [float(s)] for [s] of the shape [\d+(?:\.\d+)?]. *)
Definition of_string (s : string) : float :=
  let '(ip, rest) := break (Ascii.eqb ".") s in
  let fp := match rest with String _ f => f | EmptyString => EmptyString end in
  of_ratio (digits_value 0 (ip +:+ fp)) (10 ^ Z.of_nat (String.length fp)).

(** Decimal digits of a non-negative integer, most significant first. *)
Fixpoint digits_fuel (fuel : nat) (n : Z) (acc : string) : string :=
  match fuel with
  | O => acc
  | S f =>
      let acc' := String (ascii_of_N (Z.to_N (48 + n mod 10))) acc in
      if n <? 10 then acc' else digits_fuel f (n / 10) acc'
  end.

Definition digits_of_Z (n : Z) : string :=
  digits_fuel (S (Z.to_nat (Z.log2 n))) n EmptyString.

Fixpoint zeros (n : nat) : string :=
  match n with O => EmptyString | S n' => String "0" (zeros n') end.

(** The first [k] from [k0] upwards with [num / den < 10^k]. *)
Fixpoint decimal_exponent (fuel : nat) (num den k : Z) : Z :=
  match fuel with
  | O => k
  | S f =>
      if num * 10 ^ Z.max 0 (- k) <? den * 10 ^ Z.max 0 k then k
      else decimal_exponent f num den (k + 1)
  end.

(** The [n]-digit decimal nearest to [num / den] among those that read back
    as [x], as an integer in units of [10^(k-n)]. *)
Definition candidate (x : float) (num den k n : Z) : option Z :=
  let N := num * 10 ^ Z.max 0 (n - k) in
  let D := den * 10 ^ Z.max 0 (k - n) in
  let lo := N / D in
  let r := N mod D in
  let back c :=
    eqb (of_ratio (c * 10 ^ Z.max 0 (k - n)) (10 ^ Z.max 0 (n - k))) x in
  match back lo, back (lo + 1) with
  | true, true =>
      if 2 * r <? D then Some lo
      else if 2 * r =? D then Some (if Z.even lo then lo else lo + 1)
      else Some (lo + 1)
  | true, false => Some lo
  | false, true => Some (lo + 1)
  | false, false => None
  end.

Fixpoint shortest (fuel : nat) (x : float) (num den k n : Z) : Z * Z :=
  match fuel with
  | O => (0, n)
  | S f =>
      match candidate x num den k n with
      | Some c => (c, n)
      | None => shortest f x num den k (n + 1)
      end
  end.

(** [repr(x)], which is also [str(x)] and [format(x, '')]. *)
Definition repr (x : float) : string :=
  match x with
  | Inf => "inf"
  | Finite m e =>
      if m =? 0 then "0.0"
      else
        let num := m * 2 ^ Z.max 0 e in
        let den := 2 ^ Z.max 0 (- e) in
        let k0 := (Z.log2 num - Z.log2 den) * 1233 / 4096 - 2 in
        let k := decimal_exponent 8 num den k0 in
        let '(c, n) := shortest 17 x num den k 1 in
        let ds := rstrip (Ascii.eqb "0") (digits_of_Z c) in
        let nd := Z.of_nat (String.length ds) in
        let decpt := k - n + Z.of_nat (String.length (digits_of_Z c)) in
        if (decpt <=? -4) || (16 <? decpt) then
          let ex := decpt - 1 in
          let mant :=
            match ds with
            | String d EmptyString => ds
            | String d tl => String d (String "." tl)
            | EmptyString => ds
            end in
          let ed := digits_of_Z (Z.abs ex) in
          mant +:+ (if ex <? 0 then "e-" else "e+")
               +:+ (if Z.abs ex <? 10 then "0" else "") +:+ ed
        else if decpt <=? 0 then
          "0." +:+ zeros (Z.to_nat (- decpt)) +:+ ds
        else if nd <=? decpt then
          ds +:+ zeros (Z.to_nat (decpt - nd)) +:+ ".0"
        else
          take (Z.to_nat decpt) ds +:+ "." +:+
          substring (Z.to_nat decpt) (Z.to_nat (nd - decpt)) ds
  end.

End pyfloat.

(** ** Errors *)

(** The outcome of a call that may raise [ValueError]. *)
Inductive result (A : Type) : Type :=
| Ok (a : A)
| ValueError.
Arguments Ok {A} a.
Arguments ValueError {A}.

#[global] Instance result_ret : MRet result := fun A a => Ok a.
#[global] Instance result_bind : MBind result := fun A B f r =>
  match r with
  | Ok a => f a
  | ValueError => ValueError
  end.

(** The exceptions that reading the store can raise: [csv.Error] and
    [KeyError]. *)
Inductive exn : Type :=
| csv_Error
| KeyError.

(** The outcome of a call that may raise one of them. *)
Inductive outcome (A : Type) : Type :=
| Returns (a : A)
| Raises (e : exn).
Arguments Returns {A} a.
Arguments Raises {A} e.

#[global] Instance outcome_ret : MRet outcome := fun A a => Returns a.
#[global] Instance outcome_bind : MBind outcome := fun A B f r =>
  match r with
  | Returns a => f a
  | Raises e => Raises e
  end.

(** ** Bracketed hosts ([ipaddress]) *)

Module ipaddress.
Import pystr.

Definition is_hex (c : ascii) : bool :=
  is_digit c || ((65 <=? code c) && (code c <=? 70))
  || ((97 <=? code c) && (code c <=? 102)).

(** [_parse_octet] succeeds. *)
Definition octet_ok (o : string) : bool :=
  nonempty o && all_chars is_digit o && (String.length o <=? 3)%nat
  && (String.eqb o "0" || negb (startswith "0" o))
  && (pyfloat.digits_value 0 o <=? 255).

(** [IPv4Address(s)] succeeds. *)
Definition ipv4_ok (s : string) : bool :=
  negb (has_char "/" s) && nonempty s
  && (let octets := split "." s in
      (length octets =? 4)%nat && forallb octet_ok octets).

(** [_parse_hextet] succeeds. *)
Definition hextet_ok (h : string) : bool :=
  nonempty h && all_chars is_hex h && (String.length h <=? 4)%nat.

(** The parts before the first empty one. *)
Fixpoint before_empty (parts : list string) : list string :=
  match parts with
  | [] => []
  | p :: parts' => if nonempty p then p :: before_empty parts' else []
  end.

(** The parts strictly between the first and the last one. *)
Definition inner (parts : list string) : list string :=
  removelast (tail parts).

(** [IPv6Address._ip_int_from_string] succeeds on [parts], the address
    split at its colons (an IPv4 suffix already replaced by two hextets). *)
Definition hextets_ok (parts : list string) : bool :=
  let n := length parts in
  let first_empty := negb (nonempty (hd EmptyString parts)) in
  let last_empty := negb (nonempty (List.last parts EmptyString)) in
  match length (filter (fun p => negb (nonempty p)) (inner parts)) with
  | O =>
      (n =? 8)%nat && negb first_empty && negb last_empty
      && forallb hextet_ok parts
  | 1%nat =>
      let skip_index := S (length (before_empty (inner parts))) in
      let parts_hi := if first_empty then (skip_index - 1)%nat else skip_index in
      let lo0 := (n - skip_index - 1)%nat in
      let parts_lo := if last_empty then (lo0 - 1)%nat else lo0 in
      (negb first_empty || (parts_hi =? 0)%nat)
      && (negb last_empty || (parts_lo =? 0)%nat)
      && (parts_hi + parts_lo <? 8)%nat
      && forallb hextet_ok (firstn parts_hi parts)
      && forallb hextet_ok (skipn (n - parts_lo) parts)
  | _ => false
  end.

(** [IPv6Address(s)] succeeds. *)
Definition ipv6_ok (s : string) : bool :=
  negb (has_char "/" s)
  && (let '(addr, scope) := break (Ascii.eqb "%") s in
      (match scope with
       | EmptyString => true
       | String _ scope_id => nonempty scope_id && negb (has_char "%" scope_id)
       end)
      && nonempty addr
      && (let parts := split ":" addr in
          (3 <=? length parts)%nat
          && (let last_part := List.last parts EmptyString in
              if has_char "." last_part then
                ipv4_ok last_part
                && (let parts' := (removelast parts ++ ["0"; "0"])%list in
                    (length parts' <=? 9)%nat && hextets_ok parts')
              else (length parts <=? 9)%nat && hextets_ok parts))).

(** [ip_address(s)] returns an [IPv6Address]: it neither raises nor
    returns an [IPv4Address]. *)
Definition is_ipv6 (s : string) : bool := negb (ipv4_ok s) && ipv6_ok s.

End ipaddress.

(** ** URLs ([urllib.parse]) *)

Module urllib_parse.
Import pystr.

Definition uses_relative : list string :=
  [""; "ftp"; "http"; "gopher"; "nntp"; "imap"; "wais"; "file"; "https";
   "shttp"; "mms"; "prospero"; "rtsp"; "rtspu"; "sftp"; "svn"; "svn+ssh";
   "ws"; "wss"].

Definition uses_netloc : list string :=
  [""; "ftp"; "http"; "gopher"; "nntp"; "telnet"; "imap"; "wais"; "file";
   "mms"; "https"; "shttp"; "snews"; "prospero"; "rtsp"; "rtspu"; "rsync";
   "svn"; "svn+ssh"; "sftp"; "nfs"; "git"; "git+ssh"; "ws"; "wss"].

Definition uses_params : list string :=
  [""; "ftp"; "hdl"; "prospero"; "http"; "imap"; "https"; "shttp"; "rtsp";
   "rtspu"; "sip"; "sips"; "mms"; "sftp"; "tel"].

Definition scheme_chars : string :=
  "abcdefghijklmnopqrstuvwxyzABCDEFGHIJKLMNOPQRSTUVWXYZ0123456789+-.".

(** [x in xs] for a list of strings. *)
Definition mem (x : string) (xs : list string) : bool :=
  existsb (String.eqb x) xs.

(** [_WHATWG_C0_CONTROL_OR_SPACE] *)
Definition c0_control_or_space (c : ascii) : bool := code c <=? 32.

(** [_UNSAFE_URL_BYTES_TO_REMOVE] *)
Definition unsafe_url_byte (c : ascii) : bool :=
  (code c =? 9) || (code c =? 13) || (code c =? 10).

Record SplitResult : Type := {
  s_scheme : string;
  s_netloc : string;
  s_path : string;
  s_query : string;
  s_fragment : string
}.

Record ParseResult : Type := {
  scheme : string;
  netloc : string;
  path : string;
  params : string;
  query : string;
  fragment : string
}.

(** The part of [s] after its last ['@'], all of [s] when it has none:
    [s.rpartition('@')[2]]. *)
Fixpoint after_last_at (s : string) : string :=
  match s with
  | EmptyString => EmptyString
  | String c s' =>
      if has_char "@" s' then after_last_at s' else
      if Ascii.eqb c "@" then s' else s
  end.

(** [re.match(r"\Av[a-fA-F0-9]+\..+\Z", hostname)] *)
Definition ipvfuture_ok (hostname : string) : bool :=
  match hostname with
  | String "v" rest =>
      let '(hex, tl) := break (fun c => negb (ipaddress.is_hex c)) rest in
      nonempty hex &&
      match tl with
      | String "." more =>
          nonempty more && all_chars (fun c => negb (code c =? 10)) more
      | _ => false
      end
  | _ => false
  end.

(** [_check_bracketed_host] returns without raising. *)
Definition check_bracketed_host (hostname : string) : bool :=
  if startswith "v" hostname then ipvfuture_ok hostname
  else ipaddress.is_ipv6 hostname.

(** [_check_bracketed_netloc] returns without raising. *)
Definition check_bracketed_netloc (netloc : string) : bool :=
  let hostname_and_port := after_last_at netloc in
  let '(before_bracket, bracketed) := break (Ascii.eqb "[") hostname_and_port in
  match bracketed with
  | String _ bracketed' =>
      if nonempty before_bracket then false
      else
        let '(hostname, port) := break (Ascii.eqb "]") bracketed' in
        let port' := match port with String _ p => p | EmptyString => EmptyString end in
        if nonempty port' && negb (startswith ":" port') then false
        else check_bracketed_host hostname
  | EmptyString =>
      let '(hostname, _) := break (Ascii.eqb ":") hostname_and_port in
      check_bracketed_host hostname
  end.

(** The checks of [urlsplit] on a netloc; [_checknetloc] never raises on
    code points below 256, whose NFKC forms contain none of [/?#@:]. *)
Definition netloc_ok (netloc : string) : bool :=
  let lb := has_char "[" netloc in
  let rb := has_char "]" netloc in
  if (lb && negb rb) || (rb && negb lb) then false
  else if lb && rb then check_bracketed_netloc netloc
  else true.

(** The scheme at the head of [url] and what follows its colon. *)
Definition split_scheme (url : string) : option (string * string) :=
  let '(pre, rest) := break (Ascii.eqb ":") url in
  match pre, rest with
  | String c _, String _ rest' =>
      if is_ascii_alpha c && all_chars (char_in scheme_chars) pre
      then Some (lower pre, rest')
      else None
  | _, _ => None
  end.

(** [url.split(c, 1)] as a pair, the second half empty when [c] is absent. *)
Definition split_once (c : ascii) (url : string) : string * string :=
  let '(a, b) := break (Ascii.eqb c) url in
  (a, match b with String _ b' => b' | EmptyString => EmptyString end).

(** The netloc after a leading [//] and what follows it: the test
    [url[:2] == '//'] and [_splitnetloc(url, 2)]. *)
Definition split_netloc (url : string) : string * string :=
  match strip_prefix "//" url with
  | Some rest => break (char_in "/?#") rest
  | None => (EmptyString, url)
  end.

Definition urlsplit (url scheme : string) : result SplitResult :=
  let url := lstrip c0_control_or_space url in
  let scheme := rstrip c0_control_or_space (lstrip c0_control_or_space scheme) in
  let url := remove_chars unsafe_url_byte url in
  let scheme := remove_chars unsafe_url_byte scheme in
  let '(scheme, url) :=
    match split_scheme url with
    | Some (sc, rest) => (sc, rest)
    | None => (scheme, url)
    end in
  let '(netloc, url) := split_netloc url in
  if negb (netloc_ok netloc) then ValueError
  else
    let '(url, fragment) := split_once "#" url in
    let '(url, query) := split_once "?" url in
    Ok {| s_scheme := scheme; s_netloc := netloc; s_path := url;
          s_query := query; s_fragment := fragment |}.

(** The two halves of [s] around its last ['/'], the second one starting
    with that slash; [None] when [s] has no slash. *)
Fixpoint rbreak_slash (s : string) : option (string * string) :=
  match s with
  | EmptyString => None
  | String c s' =>
      match rbreak_slash s' with
      | Some (a, b) => Some (String c a, b)
      | None => if Ascii.eqb c "/" then Some (EmptyString, s) else None
      end
  end.

Definition _splitparams (url : string) : string * string :=
  match rbreak_slash url with
  | Some (dir, last) =>
      let '(a, b) := break (Ascii.eqb ";") last in
      match b with
      | String _ b' => (dir +:+ a, b')
      | EmptyString => (url, EmptyString)
      end
  | None => split_once ";" url
  end.

Definition urlparse (url scheme : string) : result ParseResult :=
  r ← urlsplit url scheme;
  let '(url', params) :=
    if mem (s_scheme r) uses_params && has_char ";" (s_path r)
    then _splitparams (s_path r)
    else (s_path r, EmptyString) in
  mret {| scheme := s_scheme r; netloc := s_netloc r; path := url';
          params := params; query := s_query r; fragment := s_fragment r |}.

Definition urlunsplit (r : SplitResult) : string :=
  let url := s_path r in
  let url :=
    if nonempty (s_netloc r)
       || (nonempty (s_scheme r) && mem (s_scheme r) uses_netloc
           && negb (startswith "//" url))
    then "//" +:+ s_netloc r +:+
         (if nonempty url && negb (startswith "/" url) then "/" +:+ url else url)
    else url in
  let url := if nonempty (s_scheme r) then s_scheme r +:+ ":" +:+ url else url in
  let url := if nonempty (s_query r) then url +:+ "?" +:+ s_query r else url in
  if nonempty (s_fragment r) then url +:+ "#" +:+ s_fragment r else url.

Definition urlunparse (r : ParseResult) : string :=
  let url := if nonempty (params r) then path r +:+ ";" +:+ params r else path r in
  urlunsplit {| s_scheme := scheme r; s_netloc := netloc r; s_path := url;
                s_query := query r; s_fragment := fragment r |}.

(** [segments[1:-1] = filter(None, segments[1:-1])] *)
Definition filter_inner (segments : list string) : list string :=
  match segments with
  | [] => []
  | first :: rest =>
      first :: List.filter nonempty (removelast rest)
            ++ match last rest with Some l => [l] | None => [] end
  end.

(** The loop over [segments] that builds [resolved_path]. *)
Definition resolve_segment (resolved_path : list string) (seg : string)
  : list string :=
  if String.eqb seg ".." then removelast resolved_path
  else if String.eqb seg "." then resolved_path
  else resolved_path ++ [seg].

Definition resolve (segments : list string) : list string :=
  let resolved_path := fold_left resolve_segment segments [] in
  match last segments with
  | Some seg =>
      if String.eqb seg "." || String.eqb seg ".."
      then resolved_path ++ [EmptyString] else resolved_path
  | None => resolved_path
  end.

Definition urljoin (base url : string) : result string :=
  if negb (nonempty base) then mret url
  else if negb (nonempty url) then mret base
  else
    b ← urlparse base EmptyString;
    u ← urlparse url (scheme b);
    if negb (String.eqb (scheme u) (scheme b)) || negb (mem (scheme u) uses_relative)
    then mret url
    else if mem (scheme u) uses_netloc && nonempty (netloc u)
    then mret (urlunparse u)
    else
      let netloc' := if mem (scheme u) uses_netloc then netloc b else netloc u in
      if negb (nonempty (path u)) && negb (nonempty (params u)) then
        mret (urlunparse
                {| scheme := scheme u; netloc := netloc'; path := path b;
                   params := params b;
                   query := if nonempty (query u) then query u else query b;
                   fragment := fragment u |})
      else
        let base_parts := split "/" (path b) in
        let base_parts :=
          match last base_parts with
          | Some EmptyString | None => base_parts
          | Some _ => removelast base_parts
          end in
        let segments :=
          if startswith "/" (path u) then split "/" (path u)
          else filter_inner (base_parts ++ split "/" (path u)) in
        let joined := join "/" (resolve segments) in
        mret (urlunparse
                {| scheme := scheme u; netloc := netloc';
                   path := if nonempty joined then joined else "/";
                   params := params u; query := query u;
                   fragment := fragment u |}).

End urllib_parse.

(** ** Parsed documents (BeautifulSoup)

    A document is a tree of tags and strings as [html.parser] builds it:
    tag and attribute names are stored in lower case, an attribute occurs
    once, and names are compared as stored.  A string is a
    [NavigableString] or an instance of one of its subclasses: a comment,
    a declaration, the content of a script, and so on.  A [Tag] is what
    [select] returns and what the extractors receive. *)

Module bs4.
Import pystr.

(** The subclasses of [NavigableString]. *)
Inductive string_class : Type :=
| CData
| ProcessingInstruction
| XMLProcessingInstruction
| Comment
| Declaration
| Doctype
| Stylesheet
| Script
| TemplateString
| RubyTextString
| RubyParenthesisString.

#[warnings="-register-all"]
Inductive PageElement : Type :=
| NavigableString (s : string)                   (* [type(e) is NavigableString] *)
| SubclassString (cls : string_class) (s : string)
| TagNode (name : string) (attrs : list (string * string))
          (contents : list PageElement).

Record Tag : Type := {
  name : string;
  attrs : list (string * string);
  contents : list PageElement
}.

Definition as_tag (e : PageElement) : option Tag :=
  match e with
  | TagNode n a c => Some {| name := n; attrs := a; contents := c |}
  | NavigableString _ | SubclassString _ _ => None
  end.

(** [isinstance(e, NavigableString)]: the strings of every class. *)
Definition as_string (e : PageElement) : option string :=
  match e with
  | NavigableString s | SubclassString _ s => Some s
  | TagNode _ _ _ => None
  end.

(** [e.descendants]: everything below [e], in document order. *)
Fixpoint descendants_of (e : PageElement) : list PageElement :=
  match e with
  | NavigableString _ | SubclassString _ _ => []
  | TagNode _ _ cs => flat_map (fun c => c :: descendants_of c) cs
  end.

Definition descendants (t : Tag) : list PageElement :=
  flat_map (fun c => c :: descendants_of c) (contents t).

(** [tag.get(a)], the value of [tag[a]] when [tag.has_attr(a)]. *)
Fixpoint lookup_attr (a : string) (l : list (string * string)) : option string :=
  match l with
  | [] => None
  | (k, v) :: l' => if String.eqb k a then Some v else lookup_attr a l'
  end.

Definition get (t : Tag) (a : string) : option string := lookup_attr a (attrs t).

(** CSS attribute tests: [[a="v"]] and [[a*="v"]]. *)
Inductive attr_test : Type :=
| AttrIs (a v : string)
| AttrHas (a v : string).

(** A compound selector: an optional tag name and attribute tests. *)
Record compound : Type := {
  sel_name : option string;
  sel_attrs : list attr_test
}.

(** A comma-separated selector list. *)
Definition selector : Type := list compound.

(** What [[a="v"]] takes for [v]: the selector is compiled to the pattern
    [^v$] and applied with [match], and [$] matches at the end of the
    value and also before a line feed that ends it. *)
Definition line_feed : string := String "010" EmptyString.

Definition is_value (v x : string) : bool :=
  String.eqb x v || String.eqb x (v +:+ line_feed).

Definition test_attr (t : Tag) (a : attr_test) : bool :=
  match a with
  | AttrIs k v =>
      match get t k with Some x => is_value v x | None => false end
  | AttrHas k v =>
      match get t k with Some x => nonempty v && contains v x | None => false end
  end.

Definition matches_compound (t : Tag) (c : compound) : bool :=
  match sel_name c with
  | Some n => String.eqb (name t) n
  | None => true
  end && forallb (test_attr t) (sel_attrs c).

Definition matches_selector (sel : selector) (t : Tag) : bool :=
  existsb (matches_compound t) sel.

(** [tag.select(sel)]: the matching tags below [tag], in document order. *)
Definition select (sel : selector) (t : Tag) : list Tag :=
  List.filter (matches_selector sel) (omap as_tag (descendants t)).

(** [tag.select_one(sel)] *)
Definition select_one (sel : selector) (t : Tag) : option Tag :=
  head (select sel t).

(** [tag.find(string=re.compile(...))]: the first string below [tag]
    that the pattern is found in.  Strings of every class are looked at,
    comments and the contents of scripts as well. *)
Definition find_string (found : string -> bool) (t : Tag) : option string :=
  head (List.filter found (omap as_string (descendants t))).

(** [builder.string_containers] of the HTML tree builders: the class of
    the strings that stand in a tag of that name. *)
Definition string_containers (name : string) : option string_class :=
  if String.eqb name "rt" then Some RubyTextString
  else if String.eqb name "rp" then Some RubyParenthesisString
  else if String.eqb name "style" then Some Stylesheet
  else if String.eqb name "script" then Some Script
  else if String.eqb name "template" then Some TemplateString
  else None.

Definition string_class_eqb (a b : string_class) : bool :=
  match a, b with
  | CData, CData | ProcessingInstruction, ProcessingInstruction
  | XMLProcessingInstruction, XMLProcessingInstruction | Comment, Comment
  | Declaration, Declaration | Doctype, Doctype | Stylesheet, Stylesheet
  | Script, Script | TemplateString, TemplateString
  | RubyTextString, RubyTextString
  | RubyParenthesisString, RubyParenthesisString => true
  | _, _ => false
  end.

(** The strings [tag._all_strings] yields for [tag.interesting_string_types]:
    those whose class is [NavigableString] itself or [CData], and in a
    tag that is a string container those of its own class only. *)
Definition interesting_string (t : Tag) (e : PageElement) : option string :=
  match e, string_containers (name t) with
  | NavigableString s, None => Some s
  | SubclassString CData s, None => Some s
  | SubclassString cls s, Some own =>
      if string_class_eqb cls own then Some s else None
  | _, _ => None
  end.

(** [tag.get_text(strip=True)]: the interesting strings below [tag],
    stripped, those that are not empty, joined without a separator.
    Comments, declarations and the contents of scripts and styles are left
    out. *)
Definition get_text_strip (t : Tag) : string :=
  join EmptyString
       (List.filter nonempty
                    (map strip (omap (interesting_string t) (descendants t)))).

End bs4.

(** ** Text files ([open], [io])

    A file is the text it holds; the store is written and read in UTF-8,
    which gives back the text that was written. *)

Module io.
Import pystr.

Definition CR : ascii := "013".
Definition LF : ascii := "010".

(** Whether a line ends after the character [c] when [rest] follows it:
    after a line feed, and after a carriage return that no line feed
    follows. *)
Definition ends_line (c : ascii) (rest : string) : bool :=
  Ascii.eqb c LF
  || (Ascii.eqb c CR
      && match rest with
         | String d _ => negb (Ascii.eqb d LF)
         | EmptyString => true
         end).

(** Iterating over a file opened with [newline='']: its lines, each with
    its end (LF, CR or CR LF) as it stands in the file. *)
Fixpoint readlines (s : string) : list string :=
  match s with
  | EmptyString => []
  | String c s' =>
      if ends_line c s' then String c EmptyString :: readlines s'
      else
        match readlines s' with
        | [] => [String c EmptyString]
        | line :: lines => String c line :: lines
        end
  end.

(** Reading a file opened with the default [newline=None]: CR LF and CR
    are read as LF. *)
Fixpoint universal_newlines (s : string) : string :=
  match s with
  | EmptyString => EmptyString
  | String c s' =>
      if Ascii.eqb c CR then
        String LF
               match s' with
               | String d s'' =>
                   if Ascii.eqb d LF then universal_newlines s''
                   else universal_newlines s'
               | EmptyString => EmptyString
               end
      else String c (universal_newlines s')
  end.

End io.

(** ** CSV files ([csv], [_csv])

    The reader and the writer of the [excel] dialect, which is the one the
    script uses: the delimiter is a comma, the quote character is the
    double quote, which is doubled inside quoted fields, the line
    terminator is CR LF, quoting is minimal, there is no escape character,
    and the reader is not strict. *)

Module csv.
Import pystr io.

Definition QUOTE : ascii := "034".
Definition DELIMITER : ascii := ",".

(** [csv.field_size_limit()] *)
Definition field_limit : Z := 131072.

(** The states of the parser that are reached without an escape
    character. *)
Inductive ParserState : Type :=
| START_RECORD
| START_FIELD
| IN_FIELD
| IN_QUOTED_FIELD
| QUOTE_IN_QUOTED_FIELD
| EAT_CRNL.

#[global] Instance ParserState_eq_dec : EqDecision ParserState.
Proof. solve_decision. Defined.

(** The reader object: the state of the parser, the field being read and
    the fields of the record read so far. *)
Record Reader : Type := {
  state : ParserState;
  field : string;
  fields : list string
}.

(** [parse_reset] *)
Definition parse_reset : Reader :=
  {| state := START_RECORD; field := EmptyString; fields := [] |}.

(** [parse_save_field] *)
Definition parse_save_field (r : Reader) (next : ParserState) : Reader :=
  {| state := next; field := EmptyString; fields := fields r ++ [field r] |}.

(** [parse_add_char] *)
Definition parse_add_char (r : Reader) (c : ascii) (next : ParserState)
  : outcome Reader :=
  if field_limit <=? Z.of_nat (String.length (field r)) then Raises csv_Error
  else Returns {| state := next; field := field r +:+ String c EmptyString;
                  fields := fields r |}.

Definition is_newline (c : ascii) : bool := Ascii.eqb c LF || Ascii.eqb c CR.

(** [parse_process_char] on a character of the line. *)
Definition parse_process_char (r : Reader) (c : ascii) : outcome Reader :=
  let goto s := {| state := s; field := field r; fields := fields r |} in
  let start_field :=
    if is_newline c then Returns (parse_save_field r EAT_CRNL)
    else if Ascii.eqb c QUOTE then Returns (goto IN_QUOTED_FIELD)
    else if Ascii.eqb c DELIMITER then Returns (parse_save_field r START_FIELD)
    else parse_add_char r c IN_FIELD in
  match state r with
  | START_RECORD =>
      if is_newline c then Returns (goto EAT_CRNL) else start_field
  | START_FIELD => start_field
  | IN_FIELD =>
      if is_newline c then Returns (parse_save_field r EAT_CRNL)
      else if Ascii.eqb c DELIMITER then Returns (parse_save_field r START_FIELD)
      else parse_add_char r c IN_FIELD
  | IN_QUOTED_FIELD =>
      if Ascii.eqb c QUOTE then Returns (goto QUOTE_IN_QUOTED_FIELD)
      else parse_add_char r c IN_QUOTED_FIELD
  | QUOTE_IN_QUOTED_FIELD =>
      if Ascii.eqb c QUOTE then parse_add_char r c IN_QUOTED_FIELD
      else if Ascii.eqb c DELIMITER then Returns (parse_save_field r START_FIELD)
      else if is_newline c then Returns (parse_save_field r EAT_CRNL)
      else parse_add_char r c IN_FIELD
  | EAT_CRNL =>
      if is_newline c then Returns r else Raises csv_Error
  end.

(** [parse_process_char] at the end of the line ([EOL]). *)
Definition parse_process_eol (r : Reader) : Reader :=
  match state r with
  | START_RECORD | IN_QUOTED_FIELD => r
  | START_FIELD | IN_FIELD | QUOTE_IN_QUOTED_FIELD =>
      parse_save_field r START_RECORD
  | EAT_CRNL => {| state := START_RECORD; field := field r; fields := fields r |}
  end.

(** The characters of a line, one after the other. *)
Fixpoint parse_chars (r : Reader) (line : string) : outcome Reader :=
  match line with
  | EmptyString => Returns r
  | String c line' => r' ← parse_process_char r c; parse_chars r' line'
  end.

(** One turn of the loop of [Reader_iternext]: a line and its end. *)
Definition parse_line (r : Reader) (line : string) : outcome Reader :=
  r' ← parse_chars r line; mret (parse_process_eol r').

(** What a reader yields: the records read before it stops, and the error
    that stops it, if any. *)
Definition rows : Type := list (list string) * option exn.

Definition yield (record : list string) (rest : rows) : rows :=
  (record :: rest.1, rest.2).

(** The records of the lines that remain, [r] being the reader within the
    record it is reading.  A record is complete when the parser is back at
    [START_RECORD] at the end of a line; when the lines run out within a
    record, what was read of it is the last record. *)
Fixpoint records (r : Reader) (lines : list string) : rows :=
  match lines with
  | [] =>
      if nonempty (field r) || bool_decide (state r = IN_QUOTED_FIELD)
      then ([fields (parse_save_field r START_RECORD)], None)
      else ([], None)
  | line :: lines' =>
      match parse_line r line with
      | Raises e => ([], Some e)
      | Returns r' =>
          if bool_decide (state r' = START_RECORD)
          then yield (fields r') (records parse_reset lines')
          else records r' lines'
      end
  end.

(** [csv.reader(f)], iterated to its end. *)
Definition reader (lines : list string) : rows := records parse_reset lines.

(** The characters that make the writer quote a field: the delimiter, the
    quote character and the characters of the line terminator. *)
Definition needs_quotes (c : ascii) : bool :=
  Ascii.eqb c DELIMITER || Ascii.eqb c QUOTE || Ascii.eqb c CR || Ascii.eqb c LF.

(** The text of a field with its quote characters doubled. *)
Fixpoint double_quotes (s : string) : string :=
  match s with
  | EmptyString => EmptyString
  | String c s' =>
      if Ascii.eqb c QUOTE then String QUOTE (String QUOTE (double_quotes s'))
      else String c (double_quotes s')
  end.

(** [join_append] without the delimiter: a field as it is written. *)
Definition join_append (field : string) : string :=
  if negb (all_chars (fun c => negb (needs_quotes c)) field)
  then String QUOTE (double_quotes field) +:+ String QUOTE EmptyString
  else field.

Definition lineterminator : string := String CR (String LF EmptyString).

(** [writer.writerow(fields)]: the text written for a record of strings.
    A record that would be written as nothing, a single empty field, is
    written as an empty quoted field. *)
Definition writerow (fields : list string) : string :=
  let rec := join (String DELIMITER EmptyString) (map join_append fields) in
  (if bool_decide (fields ≠ []) && negb (nonempty rec)
   then String QUOTE (String QUOTE EmptyString)
   else rec) +:+ lineterminator.

(** The dictionary [DictReader] makes of a row, on its string keys: the
    fields by the names of the header, the last one for a name given
    twice, and [None] for the names that the row is too short for.  (The
    fields that the header is too short for are kept under the key [None],
    which is no string.) *)
Definition dict_of_row (fieldnames row : list string)
  : gmap string (option string) :=
  let d := list_to_map (reverse (zip fieldnames (Some <$> row))) in
  foldl (fun d key => <[key := None]> d) d (drop (length row) fieldnames).

(** [csv.DictReader(f)], iterated to its end: the first record gives the
    field names, and the empty records after it are passed over. *)
Definition DictReader (lines : list string)
  : list (gmap string (option string)) * option exn :=
  let '(records, e) := reader lines in
  match records with
  | [] => ([], e)
  | fieldnames :: records' =>
      (dict_of_row fieldnames
         <$> List.filter (fun row => negb (bool_decide (row = []))) records',
       e)
  end.

End csv.

(** ** The scraper ([scrapper.py]) *)

Import pystr re bs4.

(** [\d+(?:\.\d+)?] *)
Definition numeral_pattern : regex :=
  Seq (Plus is_digit) (Opt (Seq (Lit ".") (Plus is_digit))).

(** [\s*out\s*of\s*5] *)
Definition out_of_pattern : regex :=
  Seq (Star is_space)
      (Seq (Lit "out")
           (Seq (Star is_space)
                (Seq (Lit "of") (Seq (Star is_space) (Lit "5"))))).

(** [(\d+(?:\.\d+)?)\s*out\s*of\s*5] *)
Definition rating_pattern : regex :=
  Seq (Group numeral_pattern) out_of_pattern.

(** [out of 5] *)
Definition out_of_5_pattern : regex := Lit "out of 5".

(** [(\d+)] *)
Definition digits_pattern : regex := Group (Plus is_digit).

(** [review|rating] *)
Definition review_pattern : regex := Alt (Lit "review") (Lit "rating").

(** [only \d+ left|\d+ left|only \d+ in stock|low stock] *)
Definition inventory_pattern : regex :=
  Alt (Seq (Lit "only ") (Seq (Plus is_digit) (Lit " left")))
      (Alt (Seq (Plus is_digit) (Lit " left"))
           (Alt (Seq (Lit "only ") (Seq (Plus is_digit) (Lit " in stock")))
                (Lit "low stock"))).

(** [/A-(\d+)] *)
Definition tcin_pattern : regex := Seq (Lit "/A-") (Group (Plus is_digit)).

(** Whether [re.search] finds the pattern. *)
Definition found (ic : bool) (r : regex) (s : string) : bool :=
  match search ic r s with Some _ => true | None => false end.

(** The truth value of a [find] result: a string that is not empty. *)
Definition truthy (o : option string) : option string :=
  match o with
  | Some s => if nonempty s then Some s else None
  | None => None
  end.

(** [f"{x}/5"] *)
Definition out_of_five (x : pyfloat.float) : string := pyfloat.repr x +:+ "/5".

Definition extract_star_rating (container : option Tag) : string :=
  match container with
  | None => "N/A"
  | Some container =>
      let by_label :=
        rating_elem ← select_one
          [{| sel_name := None; sel_attrs := [AttrHas "aria-label" "out of 5 stars"] |}]
          container;
        label ← get rating_elem "aria-label";
        search false rating_pattern label in
      match by_label with
      | Some m => out_of_five (pyfloat.of_string (group_1 m))
      | None =>
          match select_one
                  [{| sel_name := Some "div";
                      sel_attrs := [AttrIs "data-test" "rating-stars"] |}]
                  container with
          | Some stars_container =>
              let filled_stars :=
                length (select [{| sel_name := Some "svg";
                                   sel_attrs := [AttrHas "data-test" "full-star"] |}]
                               stars_container) in
              let half_star :=
                match select [{| sel_name := Some "svg";
                                 sel_attrs := [AttrHas "data-test" "half-star"] |}]
                             stars_container with
                | [] => 0
                | _ :: _ => 1
                end in
              out_of_five (pyfloat.add (pyfloat.of_Z (Z.of_nat filled_stars))
                                       (pyfloat.of_ratio half_star 2))
          | None =>
              match truthy (find_string (found false out_of_5_pattern) container) with
              | Some text_elem =>
                  match search false rating_pattern text_elem with
                  | Some m => out_of_five (pyfloat.of_string (group_1 m))
                  | None => "N/A"
                  end
              | None => "N/A"
              end
          end
      end
  end.

(** [match.group(1) if match else "0"] on [text.replace(",", "")] *)
Definition first_number_or_zero (text : string) : string :=
  match search false digits_pattern (remove_chars (Ascii.eqb ",") text) with
  | Some m => group_1 m
  | None => "0"
  end.

Definition extract_review_count (container : option Tag) : string :=
  match container with
  | None => "0"
  | Some container =>
      match select_one
              [{| sel_name := None; sel_attrs := [AttrIs "data-test" "rating-count"] |}]
              container with
      | Some reviews_elem => first_number_or_zero (get_text_strip reviews_elem)
      | None =>
          match truthy (find_string (found false review_pattern) container) with
          | Some text_elem => first_number_or_zero text_elem
          | None => "0"
          end
      end
  end.

Definition extract_inventory_count (container : option Tag) : string :=
  match container with
  | None => "N/A"
  | Some container =>
      match truthy (find_string (found true inventory_pattern) container) with
      | Some inventory_elem =>
          match search false digits_pattern inventory_elem with
          | Some m => group_1 m
          | None => "Low Stock"
          end
      | None => "N/A"
      end
  end.

Definition is_sold_by_target (container : option Tag) : string :=
  match container with
  | None => "No"
  | Some container =>
      match truthy (find_string (found true (Lit "only at target")) container) with
      | Some _ => "Yes"
      | None =>
          match select_one
                  [{| sel_name := Some "svg";
                      sel_attrs := [AttrIs "aria-label" "Target logo"] |}]
                  container with
          | Some _ => "Yes"
          | None =>
              match truthy (find_string (found true (Lit "sold by target")) container) with
              | Some _ => "Yes"
              | None => "No"
              end
          end
      end
  end.

(** One row of the output: the [product] dictionary. *)
Record product : Type := {
  url : string;
  title : string;
  brand : string;
  price : string;
  rating : string;
  reviews : string;
  inventory : string;
  sold_by_target : string;
  seller_name : string;
  tcin : string
}.

Definition base_url : string := "https://www.target.com".

(** Lines 86 to 88: the identity of a card from its link target. *)
Definition clean_url_of (href : string) : result string :=
  raw_url ← urllib_parse.urljoin base_url href;
  parsed ← urllib_parse.urlparse raw_url "";
  mret (urllib_parse.scheme parsed +:+ "://" +:+ urllib_parse.netloc parsed
        +:+ urllib_parse.path parsed).

Definition product_containers (soup : Tag) : list Tag :=
  select [{| sel_name := Some "div"; sel_attrs := [AttrHas "data-test" "product-card"] |};
          {| sel_name := Some "div"; sel_attrs := [AttrHas "data-test" "@web/ProductCard"] |}]
         soup.

Definition title_link (container : Tag) : option Tag :=
  select_one [{| sel_name := Some "a";
                 sel_attrs := [AttrHas "href" "/p/"; AttrIs "data-test" "product-title"] |}]
             container.

Definition price_elem (container : Tag) : option Tag :=
  select_one [{| sel_name := None; sel_attrs := [AttrIs "data-test" "current-price"] |}]
             container.

Definition brand_elem (container : Tag) : option Tag :=
  select_one [{| sel_name := None; sel_attrs := [AttrHas "data-test" "brand"] |}]
             container.

(** The state of the loop of [extract_product_data]. *)
Record extraction : Type := {
  products : list product;
  seen_urls : gset string
}.

(** Lines 98 to 115: the fields of a card that has a link, an identity,
    a title and a price. *)
Definition assemble (container link : Tag) (clean_url : string)
           (price_elem : Tag) : product :=
  let sold_by := is_sold_by_target (Some container) in
  {| url := clean_url;
     title := get_text_strip link;
     brand := match brand_elem container with
              | Some b => get_text_strip b
              | None => "N/A"
              end;
     price := get_text_strip price_elem;
     rating := extract_star_rating (Some container);
     reviews := extract_review_count (Some container);
     inventory := extract_inventory_count (Some container);
     sold_by_target := sold_by;
     seller_name := if String.eqb sold_by "Yes" then "Target" else "N/A";
     tcin := match search false tcin_pattern clean_url with
             | Some m => group_1 m
             | None => "N/A"
             end |}.

(** One iteration of the loop over [product_containers]; each [continue]
    leaves [products] as it was. *)
Definition process_container (st : extraction) (container : Tag)
  : result extraction :=
  match title_link container with
  | None => mret st
  | Some link =>
      match get link "href" with
      | None => mret st
      | Some href =>
          clean_url ← clean_url_of href;
          if decide (clean_url ∈ seen_urls st) then mret st
          else
            let seen := {[ clean_url ]} ∪ seen_urls st in
            if negb (nonempty (get_text_strip link)) then
              mret {| products := products st; seen_urls := seen |}
            else
              match price_elem container with
              | None => mret {| products := products st; seen_urls := seen |}
              | Some price_elem =>
                  mret {| products :=
                            products st ++ [assemble container link clean_url price_elem];
                          seen_urls := seen |}
              end
      end
  end.

Fixpoint process_containers (st : extraction) (containers : list Tag)
  : result extraction :=
  match containers with
  | [] => mret st
  | container :: rest =>
      st' ← process_container st container;
      process_containers st' rest
  end.

Definition extract_product_data (soup : Tag) : result (list product) :=
  st ← process_containers {| products := []; seen_urls := ∅ |}
                          (product_containers soup);
  mret (products st).

(** What a page file yields: it is missing, it cannot be read, or it
    parses to a document. *)
Inductive page : Type :=
| NotFound
| Unreadable
| Html (soup : Tag).

(** The state of the loop of [scrape_all_pages]. *)
Record scrape : Type := {
  existing_urls : gset string;
  all_products : list product;
  new_products_count : nat
}.

(** One iteration of the loop over the pages; a page that is missing or
    raises is skipped. *)
Definition scrape_page (st : scrape) (pg : page) : scrape :=
  match pg with
  | NotFound | Unreadable => st
  | Html soup =>
      match extract_product_data soup with
      | ValueError => st
      | Ok products =>
          let new_products :=
            List.filter (fun p => bool_decide (url p ∉ existing_urls st)) products in
          {| existing_urls := existing_urls st ∪ list_to_set (map url new_products);
             all_products := all_products st ++ new_products;
             new_products_count := new_products_count st + length new_products |}
      end
  end.

(** The loop of [scrape_all_pages], started from the identities loaded by
    [load_existing_products]. *)
Definition scrape_pages (existing : gset string) (pages : list page) : scrape :=
  fold_left scrape_page pages
            {| existing_urls := existing; all_products := []; new_products_count := 0 |}.

Definition scrape_all_pages (existing : gset string) (pages : list page)
  : list product * nat :=
  let st := scrape_pages existing pages in
  (all_products st, new_products_count st).

(** *** The store ([target_products.csv])

    The store is [None] while the file does not exist ([os.path.exists])
    and the text of the file otherwise.  What the functions print is left
    out, but for the total that [main] prints last. *)

(** [fieldnames] of [save_to_csv] *)
Definition fieldnames : list string :=
  ["url"; "title"; "brand"; "price"; "rating"; "reviews"; "inventory";
   "sold_by_target"; "seller_name"; "tcin"].

(** The values of a product in the order of [fieldnames], as
    [DictWriter] hands them to the writer. *)
Definition row_of (p : product) : list string :=
  [url p; title p; brand p; price p; rating p; reviews p; inventory p;
   sold_by_target p; seller_name p; tcin p].

(** [load_existing_products]: the set of the ['url'] values of the rows.
    An element [None] of the set is Python's [None], which a row too short
    for that column gives. *)
Definition load_existing_products (file : option string)
  : outcome (gset (option string)) :=
  match file with
  | None => Returns ∅
  | Some text =>
      let '(rows, e) := csv.DictReader (io.readlines text) in
      existing_products ←
        foldl (fun acc row =>
                 existing_products ← acc;
                 match row !! "url" with
                 | Some v => Returns ({[ v ]} ∪ existing_products)
                 | None => Raises KeyError
                 end)
              (Returns ∅) rows;
      match e with
      | Some err => Raises err
      | None => Returns existing_products
      end
  end.

(** [save_to_csv]: the store after the call.  Nothing is written for an
    empty list; otherwise the rows are appended to the file, after the
    header when the file is new. *)
Definition save_to_csv (products : list product) (file : option string)
  : option string :=
  match products with
  | [] => file
  | _ :: _ =>
      let written :=
        String.concat EmptyString
                      (map (fun p => csv.writerow (row_of p)) products) in
      match file with
      | Some text => Some (text +:+ written)
      | None => Some (csv.writerow fieldnames +:+ written)
      end
  end.

(** The strings of the set that [load_existing_products] returns: the
    identities it is asked about are strings, and [None] equals none. *)
Definition identities (existing : gset (option string)) : gset string :=
  set_omap id existing.

(** [main], on the store and the pages of the folder: the store after the
    run, and the total that the last line prints ([None] when there is no
    store to count), unless the run raises. *)
Definition main (file : option string) (pages : list page)
  : option string * outcome (option Z) :=
  match load_existing_products file with
  | Raises e => (file, Raises e)
  | Returns existing =>
      let '(products, new_count) :=
        scrape_all_pages (identities existing) pages in
      let file' :=
        if (0 <? new_count)%nat then save_to_csv products file else file in
      (file',
       match file' with
       | None => Returns None
       | Some text =>
           let '(rows, e) :=
             csv.DictReader (io.readlines (io.universal_newlines text)) in
           match e with
           | Some err => Raises err
           | None => Returns (Some (Z.of_nat (length rows) - 1))
           end
       end)
  end.

(** *** Notions used to state the properties *)

(** The identity a card resolves to: [None] when it has no title link,
    otherwise the outcome of lines 86 to 88 on the link target. *)
Definition card_identity (container : Tag) : option (result string) :=
  link ← title_link container;
  href ← get link "href";
  Some (clean_url_of href).

(** The record of a card whose identity is [clean_url]: [None] when the
    card is dropped for an empty title or a missing price. *)
Definition card_record (container : Tag) (clean_url : string) : option product :=
  link ← title_link container;
  if nonempty (get_text_strip link) then
    price_elem ← price_elem container;
    Some (assemble container link clean_url price_elem)
  else None.

(** The record [p] is assembled from the card [container]. *)
Definition emitted_from (container : Tag) (p : product) : Prop :=
  ∃ u, card_identity container = Some (Ok u) ∧ card_record container u = Some p.

(** The records of a list that carry the identity [u]. *)
Definition by_url (u : string) (ps : list product) : list product :=
  List.filter (λ p, String.eqb (url p) u) ps.

(** The tags and the strings below a tag, in document order; the strings
    are those of every class, as [find] sees them. *)
Definition tags_below (t : Tag) : list Tag := omap as_tag (descendants t).
Definition texts_below (t : Tag) : list string := omap as_string (descendants t).

(** [w] occurs in [s]. *)
Definition occurs_in (w s : string) : Prop :=
  ∃ pre post, s = pre +:+ w +:+ post.

(** The attribute [a] of [e] has the value [v] as the selector [[a="v"]]
    takes it: [v] itself, or [v] followed by one line feed. *)
Definition attr_is (e : Tag) (a v : string) : Prop :=
  get e a = Some v ∨ get e a = Some (v +:+ line_feed).

(** Some part of [s] is a word of the pattern [r]. *)
Definition has_match (ic : bool) (r : regex) (s : string) : Prop :=
  ∃ pre w post, s = pre +:+ w +:+ post ∧ matches ic r w.

(** The records a page contributes to a run: those of its document, none
    when the page is skipped. *)
Definition page_records (pg : page) : list product :=
  match pg with
  | Html soup =>
      match extract_product_data soup with
      | Ok ps => ps
      | ValueError => []
      end
  | NotFound | Unreadable => []
  end.

(** The dedup layer as the specification words it: records are taken one
    at a time, a record is kept when its identity is not yet known, and a
    kept identity is known from then on. *)
Fixpoint dedupe (known : gset string) (records : list product)
  : list product * gset string :=
  match records with
  | [] => ([], known)
  | r :: rest =>
      if decide (url r ∈ known) then dedupe known rest
      else
        let '(novel, known') := dedupe ({[ url r ]} ∪ known) rest in
        (r :: novel, known')
  end.

Definition not_digit (c : ascii) : bool := negb (is_digit c).


(** A run of digits [d] that starts [s] and cannot be extended. *)
Definition digit_run (d rest : string) : Prop :=
  d ≠ "" ∧ all_chars is_digit d = true
  ∧ match rest with "" => True | String c _ => is_digit c = false end.


(** A continuation whose success does not depend on the captured group. *)
Definition group_blind {A} (k : string → option string → option A) : Prop :=
  ∀ s g1 g2, is_Some (k s g1) → is_Some (k s g2).


(** A rating-stars container as line 23 selects it: a [div] whose
    [data-test] attribute has the value "rating-stars". *)
Definition rating_stars_container (e : Tag) : Prop :=
  name e = "div" ∧ attr_is e "data-test" "rating-stars".


(** A tag with nothing below it. *)
Definition empty_fragment : Tag :=
  {| name := "div"; attrs := [("data-test", "@web/ProductCard")]; contents := [] |}.


(** A fragment with two accessibility rating labels, "3 out of 5 stars"
    before "4.5 out of 5 stars". *)
Definition two_labels_fragment : Tag :=
  {| name := "div"; attrs := [("data-test", "@web/ProductCard")];
     contents :=
       [TagNode "span" [("aria-label", "3 out of 5 stars")] [];
        TagNode "span" [("aria-label", "4.5 out of 5 stars")] []] |}.

(** A fragment whose rating label is "4.5 out of 5 stars", after a label
    that is no rating. *)
Definition rated_fragment : Tag :=
  {| name := "div"; attrs := [("data-test", "@web/ProductCard")];
     contents :=
       [TagNode "a" [("aria-label", "Hero Figure X")] [NavigableString "Hero"];
        TagNode "span" [("aria-label", "4.5 out of 5 stars")] []] |}.

(** The phrases of the inventory extractor as the specification lists
    them, read without regard to case: "only N left", "N left" and
    "only N in stock" for a number N, and "low stock". *)
Definition inventory_phrase (w : string) : Prop :=
  lower w = "low stock"
  ∨ ∃ n, n ≠ "" ∧ all_chars is_digit n = true
         ∧ (lower w = "only " +:+ n +:+ " left"
            ∨ lower w = n +:+ " left"
            ∨ lower w = "only " +:+ n +:+ " in stock").

(** The text [t] holds one of the inventory phrases. *)
Definition mentions_inventory (t : string) : Prop :=
  ∃ pre w post, t = pre +:+ w +:+ post ∧ inventory_phrase w.

(** Fragments with a stock notice: one with a number, one without. *)
Definition few_left_fragment : Tag :=
  {| name := "div"; attrs := [("data-test", "@web/ProductCard")];
     contents := [NavigableString "Hero Figure X";
                  TagNode "span" [] [NavigableString "Hurry, Only 3 Left!"]] |}.

Definition low_stock_fragment : Tag :=
  {| name := "div"; attrs := [("data-test", "@web/ProductCard")];
     contents := [TagNode "span" [] [NavigableString "Low Stock"]] |}.

(** Stock notices with another number before the phrase: a phrase without
    a number after a pack size, and a phrase whose number comes second. *)
Definition pack_low_stock_fragment : Tag :=
  {| name := "div"; attrs := [("data-test", "@web/ProductCard")];
     contents := [TagNode "span" [] [NavigableString "Pack of 5 - Low Stock"]] |}.

Definition two_pack_fragment : Tag :=
  {| name := "div"; attrs := [("data-test", "@web/ProductCard")];
     contents := [TagNode "span" [] [NavigableString "2 pack: only 3 left"]] |}.

(** A stock notice that is split over two strings. *)
Definition split_notice_fragment : Tag :=
  {| name := "div"; attrs := [("data-test", "@web/ProductCard")];
     contents := [NavigableString "Only ";
                  TagNode "b" [] [NavigableString "3"];
                  NavigableString " left"] |}.




(** A link without a scheme of its own: [urlparse(h).scheme] is empty. *)
Definition no_own_scheme (h : string) : Prop :=
  ∃ p, urllib_parse.urlparse h "" = Ok p ∧ urllib_parse.scheme p = "".

(** What may follow the part of a URL that decides its identity:
    nothing, a query or a fragment. *)
Definition url_tail (s : string) : Prop :=
  match s with
  | EmptyString => True
  | String c _ => char_in "?#" c = true
  end.

(** No ['?'] and no ['#']. *)
Definition no_marks (s : string) : Prop :=
  all_chars (λ c, negb (char_in "?#" c)) s = true.

(** None of the bytes that [urlsplit] removes. *)
Definition no_unsafe (s : string) : Prop :=
  all_chars (λ c, negb (urllib_parse.unsafe_url_byte c)) s = true.

(** None of the characters that end a netloc. *)
Definition no_delims (s : string) : Prop :=
  all_chars (λ c, negb (char_in "/?#" c)) s = true.

(** A scheme as [urlsplit] returns it when it finds one. *)
Definition scheme_like (sc : string) : Prop :=
  match sc with
  | EmptyString => False
  | String c _ =>
      is_ascii_alpha c = true
      ∧ all_chars (char_in urllib_parse.scheme_chars) sc = true
      ∧ lower sc = sc
  end.

(** The part of a path from its last slash on, all of it when it has no
    slash. *)
Definition last_part (pa : string) : string :=
  match urllib_parse.rbreak_slash pa with
  | Some (_, last) => last
  | None => pa
  end.

(** A path that [urlparse] leaves whole: no [';'] after its last slash. *)
Definition no_params (pa : string) : Prop := has_char ";" (last_part pa) = false.

(** What [urlsplit] does once the scheme is settled. *)
Definition split_rest (scheme url : string) : result urllib_parse.SplitResult :=
  let nr := urllib_parse.split_netloc url in
  if negb (urllib_parse.netloc_ok (fst nr)) then ValueError
  else
    let fr := urllib_parse.split_once "#" (snd nr) in
    let qr := urllib_parse.split_once "?" (fst fr) in
    Ok {| urllib_parse.s_scheme := scheme; urllib_parse.s_netloc := fst nr;
          urllib_parse.s_path := fst qr; urllib_parse.s_query := snd qr;
          urllib_parse.s_fragment := snd fr |}.

(** What [urlparse] makes of a split URL: the parameters are cut off the
    path. *)
Definition with_params (r : urllib_parse.SplitResult) : urllib_parse.ParseResult :=
  let '(url', params) :=
    if urllib_parse.mem (urllib_parse.s_scheme r) urllib_parse.uses_params
       && has_char ";" (urllib_parse.s_path r)
    then urllib_parse._splitparams (urllib_parse.s_path r)
    else (urllib_parse.s_path r, EmptyString) in
  {| urllib_parse.scheme := urllib_parse.s_scheme r;
     urllib_parse.netloc := urllib_parse.s_netloc r;
     urllib_parse.path := url';
     urllib_parse.params := params;
     urllib_parse.query := urllib_parse.s_query r;
     urllib_parse.fragment := urllib_parse.s_fragment r |}.

(** What holds of the scheme, netloc, path and parameters of every URL
    that [urlparse] returns. *)
Definition parsed_ok (p : urllib_parse.ParseResult) : Prop :=
  urllib_parse.netloc_ok (urllib_parse.netloc p) = true
  ∧ no_delims (urllib_parse.netloc p)
  ∧ no_unsafe (urllib_parse.netloc p)
  ∧ no_marks (urllib_parse.path p)
  ∧ no_unsafe (urllib_parse.path p)
  ∧ no_marks (urllib_parse.params p)
  ∧ (urllib_parse.netloc p ≠ "" →
     urllib_parse.path p = "" ∨ startswith "/" (urllib_parse.path p) = true)
  ∧ (urllib_parse.mem (urllib_parse.scheme p) urllib_parse.uses_params = true →
     no_params (urllib_parse.path p)).

(** The parts [urljoin] puts together for a link on the scheme of the
    base origin: the link itself when it names a host, otherwise the host
    of the base with the path of the link resolved from the root. *)
Definition joined (u : urllib_parse.ParseResult) : urllib_parse.ParseResult :=
  if nonempty (urllib_parse.netloc u) then u
  else if negb (nonempty (urllib_parse.path u))
          && negb (nonempty (urllib_parse.params u)) then
    {| urllib_parse.scheme := urllib_parse.scheme u;
       urllib_parse.netloc := "www.target.com";
       urllib_parse.path := "";
       urllib_parse.params := "";
       urllib_parse.query :=
         if nonempty (urllib_parse.query u) then urllib_parse.query u else "";
       urllib_parse.fragment := urllib_parse.fragment u |}
  else
    let segments :=
      if startswith "/" (urllib_parse.path u)
      then split "/" (urllib_parse.path u)
      else urllib_parse.filter_inner ([""] ++ split "/" (urllib_parse.path u)) in
    let resolved := join "/" (urllib_parse.resolve segments) in
    {| urllib_parse.scheme := urllib_parse.scheme u;
       urllib_parse.netloc := "www.target.com";
       urllib_parse.path := if nonempty resolved then resolved else "/";
       urllib_parse.params := urllib_parse.params u;
       urllib_parse.query := urllib_parse.query u;
       urllib_parse.fragment := urllib_parse.fragment u |}.

(** A parsed URL without its query and fragment. *)
Definition blank (r : urllib_parse.ParseResult) : urllib_parse.ParseResult :=
  {| urllib_parse.scheme := urllib_parse.scheme r;
     urllib_parse.netloc := urllib_parse.netloc r;
     urllib_parse.path := urllib_parse.path r;
     urllib_parse.params := urllib_parse.params r;
     urllib_parse.query := "";
     urllib_parse.fragment := "" |}.

(** The query and fragment as [urlunsplit] writes them. *)
Definition unparse_tail (q f : string) : string :=
  (if nonempty q then "?" +:+ q else "") +:+ (if nonempty f then "#" +:+ f else "").

(** What starts with a delimiter of the netloc, or is empty. *)
Definition after_netloc (rest : string) : Prop :=
  match rest with
  | "" => True
  | String c _ => char_in "/?#" c = true
  end.

(** The parts of a split or parsed URL that decide the identity. *)
Definition split_core (r : result urllib_parse.SplitResult)
  : result (string * string * string) :=
  match r with
  | Ok r => Ok (urllib_parse.s_scheme r, urllib_parse.s_netloc r,
                urllib_parse.s_path r)
  | ValueError => ValueError
  end.

Definition parse_core (r : result urllib_parse.ParseResult)
  : result (string * string * string * string) :=
  match r with
  | Ok r => Ok (urllib_parse.scheme r, urllib_parse.netloc r,
                urllib_parse.path r, urllib_parse.params r)
  | ValueError => ValueError
  end.

(** The identity written from the parts of a parsed URL (line 88). *)
Definition identity_of (p : urllib_parse.ParseResult) : string :=
  urllib_parse.scheme p +:+ "://" +:+ urllib_parse.netloc p
  +:+ urllib_parse.path p.

(** The text [t] holds the words [w], written in lower case, when case is
    disregarded. *)
Definition says (w t : string) : Prop := occurs_in w (lower t).

(** One of the three marks of a product sold by Target below a card: a
    string that says "only at target", the Target logo (an [svg] whose
    [aria-label] attribute has the value "Target logo"), or a string that
    says "sold by target". *)
Definition target_mark (container : Tag) : Prop :=
  (∃ t, t ∈ texts_below container ∧ says "only at target" t)
  ∨ (∃ e, e ∈ tags_below container ∧ name e = "svg"
          ∧ attr_is e "aria-label" "Target logo")
  ∨ (∃ t, t ∈ texts_below container ∧ says "sold by target" t).

(** A rating-count element as line 38 selects it: a tag whose [data-test]
    attribute has the value "rating-count". *)
Definition is_rating_count (e : Tag) : Prop := attr_is e "data-test" "rating-count".

(** A number as a page writes it: digits and thousands separators, the
    first character a digit. *)
Definition grouped_number (g : string) : Prop :=
  match g with
  | String c _ => is_digit c = true
  | "" => False
  end
  ∧ all_chars (λ c, is_digit c || Ascii.eqb "," c) g = true.

(** What cannot continue a number: the end of the text, or a character
    that is neither a digit nor a separator. *)
Definition ends_number (post : string) : Prop :=
  match post with
  | "" => True
  | String c _ => is_digit c = false ∧ Ascii.eqb "," c = false
  end.

(** The count [n] read from the text [t]: "0" when [t] has no digit,
    otherwise the first number of [t] without its separators. *)
Definition reads_count (t n : string) : Prop :=
  (all_chars not_digit t = true ∧ n = "0")
  ∨ ∃ pre g post, t = pre +:+ g +:+ post ∧ all_chars not_digit pre = true
                  ∧ grouped_number g ∧ ends_number post
                  ∧ n = remove_chars (Ascii.eqb ",") g.

(** The decimal digit for a number from 0 to 9. *)
Definition digit (n : Z) : string := String (ascii_of_N (Z.to_N (48 + n))) "".

(** No character of [s] is a decimal digit. *)
Definition digit_free (s : string) : Prop :=
  all_chars (λ c, negb (is_digit c)) s = true.

(** The number of [svg] icons below a rating-stars container whose
    [data-test] attribute mentions [kind]. *)
Definition star_icons (kind : string) (stars : Tag) : nat :=
  length (List.filter
            (λ e, String.eqb (name e) "svg"
                  && match get e "data-test" with
                     | Some v => contains kind v
                     | None => false
                     end)
            (tags_below stars)).




(** A text without white space at either end. *)
Definition trimmed (s : string) : Prop := strip s = s.

(** A path from the root of the site that the resolution leaves as it is:
    it starts with one slash, has no query, fragment, tab or line break,
    no parameters after its last slash, and no segment [.] or [..]. *)
Definition plain_path (pa : string) : Prop :=
  startswith "/" pa = true ∧ startswith "//" pa = false
  ∧ no_marks pa ∧ no_unsafe pa ∧ no_params pa
  ∧ Forall (λ seg, seg ≠ "." ∧ seg ≠ "..") (split "/" pa).

(** The identities of the cards of a list, in order: those of the cards
    that have a title link whose target can be normalized. *)
Definition card_identities (cs : list Tag) : list string :=
  omap (λ c, match card_identity c with
             | Some (Ok u) => Some u
             | _ => None
             end) cs.

(** A page that adds nothing to a run: it is missing, it cannot be read,
    or its extraction raises. *)
Definition skipped (pg : page) : bool :=
  match pg with
  | NotFound | Unreadable => true
  | Html soup =>
      match extract_product_data soup with
      | ValueError => true
      | Ok _ => false
      end
  end.

(** The first tag below [t], in document order, that has the property
    [P]. *)
Definition first_tag (P : Tag → Prop) (t e : Tag) : Prop :=
  ∃ before after, tags_below t = (before ++ e :: after)%list
                  ∧ P e ∧ ∀ y, y ∈ before → ¬ P y.

(** What the selectors of [extract_product_data] ask of a tag: of a card
    (line 77), of its title link (line 82), of its price element
    (line 101) and of its brand element (line 98).  A mark that a selector
    compares with [=] may be followed by a line feed, one that it compares
    with [*=] may stand anywhere in the value. *)
Definition is_card (e : Tag) : Prop :=
  name e = "div"
  ∧ ∃ v, get e "data-test" = Some v
         ∧ (occurs_in "product-card" v ∨ occurs_in "@web/ProductCard" v).

Definition is_title_link (e : Tag) : Prop :=
  name e = "a"
  ∧ (∃ h, get e "href" = Some h ∧ occurs_in "/p/" h)
  ∧ attr_is e "data-test" "product-title".

Definition is_price (e : Tag) : Prop := attr_is e "data-test" "current-price".

Definition is_brand (e : Tag) : Prop :=
  ∃ v, get e "data-test" = Some v ∧ occurs_in "brand" v.

Section store_notions.
Import io csv.

(** A field that the reader accepts: not longer than the field limit. *)
Definition fits (f : string) : Prop :=
  Z.of_nat (String.length f) ≤ field_limit.

(** A record all of whose fields fit. *)
Definition storable (p : product) : Prop := Forall fits (row_of p).

(** The rows of a list of records as [writerows] writes them. *)
Definition rows_text (ps : list product) : string :=
  String.concat "" (map (λ p, writerow (row_of p)) ps).

(** The text of rows of any shape as the writer writes them. *)
Definition written_rows (rows : list (list string)) : string :=
  String.concat "" (map writerow rows).

(** The store that holds the records [ps]: no file when there is none,
    otherwise the header and the rows. *)
Definition stored (ps : list product) : option string :=
  match ps with
  | [] => None
  | _ :: _ => Some (writerow fieldnames +:+ rows_text ps)
  end.

(** What the last line of [main] gives as the total of a store that holds
    [n] records: one less than [n], and nothing without a store. *)
Definition reported_total (n : nat) : option Z :=
  match n with
  | O => None
  | S _ => Some (Z.of_nat n - 1)
  end.

(** The reader after a line of a record. *)
Definition after_eol (r : Reader) (lines : list string) : rows :=
  if bool_decide (state r = START_RECORD)
  then yield (fields r) (records parse_reset lines)
  else records r lines.

(** The records of a text read character by character: [r] is the reader
    within the current line, and [mid] tells whether that line has
    characters already. *)
Fixpoint scan (r : Reader) (mid : bool) (s : string) : rows :=
  match s with
  | "" => if mid then after_eol (parse_process_eol r) [] else records r []
  | String c s' =>
      match parse_process_char r c with
      | Raises e => ([], Some e)
      | Returns r1 =>
          if ends_line c s' then
            let r2 := parse_process_eol r1 in
            if bool_decide (state r2 = START_RECORD)
            then yield (fields r2) (scan parse_reset false s')
            else scan r2 false s'
          else scan r1 true s'
      end
  end.

(** A line terminator as the reader meets it: the one the writer writes,
    or the line feed it becomes when the file is read with universal
    newlines. *)
Definition terminator (term : string) : Prop :=
  term = lineterminator ∨ term = String LF "".

(** [writerow] with the line terminator [term]. *)
Definition row_text (term : string) (fields : list string) : string :=
  let rec := join (String DELIMITER "") (map join_append fields) in
  (if bool_decide (fields ≠ []) && negb (nonempty rec)
   then String QUOTE (String QUOTE "")
   else rec) +:+ term.

(** A field without any of the characters that call for quotes. *)
Definition plain (f : string) : bool :=
  all_chars (λ c, negb (needs_quotes c)) f.

(** What does not start with a line feed. *)
Definition no_lf_first (s : string) : Prop :=
  match s with
  | String c _ => Ascii.eqb c LF = false
  | "" => True
  end.

End store_notions.

(** *** Example documents *)

(** A product card: a title link and further content. *)
Definition example_card (href title : string) (more : list PageElement)
  : PageElement :=
  TagNode "div" [("data-test", "@web/ProductCard")]
          (TagNode "a" [("href", href); ("data-test", "product-title")]
                   [NavigableString title] :: more).

Definition example_soup (cards : list PageElement) : Tag :=
  {| name := "[document]"; attrs := []; contents := cards |}.

Definition example_price (text : string) : PageElement :=
  TagNode "span" [("data-test", "current-price")] [NavigableString text].

(** The card of the end-to-end example of the specification. *)
Definition hero_card : PageElement :=
  example_card "/p/hero-figure-x/-/A-12345?preselect=1" "Hero Figure X"
    [example_price "$19.99";
     TagNode "span" [("aria-label", "4 out of 5 stars")] [];
     TagNode "span" [] [NavigableString "128 ratings"];
     NavigableString "Sold by Target"].

Definition hero_soup : Tag := example_soup [hero_card].

Definition hero_record : product :=
  {| url := "https://www.target.com/p/hero-figure-x/-/A-12345";
     title := "Hero Figure X";
     brand := "N/A";
     price := "$19.99";
     rating := "4.0/5";
     reviews := "128";
     inventory := "N/A";
     sold_by_target := "Yes";
     seller_name := "Target";
     tcin := "12345" |}.

(** The same identity twice: first on a card whose title is blank, then
    on a complete card. *)
Definition blank_title_card : PageElement :=
  example_card "/p/hero-figure-x/-/A-12345" "   " [example_price "$19.99"].

Definition blank_then_valid_soup : Tag :=
  example_soup [blank_title_card; hero_card].

(** A card with a link and a title and no price marker. *)
Definition no_price_card : PageElement :=
  example_card "/p/hero-figure-x/-/A-12345" "Hero Figure X"
    [TagNode "span" [("data-test", "price-unavailable")] [NavigableString "See price in cart"]].

Definition no_price_soup : Tag := example_soup [no_price_card].



(** The complete card twice. *)
Definition hero_twice_soup : Tag := example_soup [hero_card; hero_card].

(** The tag of a card. *)
Definition tag_of (e : PageElement) : Tag :=
  match e with
  | TagNode n a c => {| name := n; attrs := a; contents := c |}
  | NavigableString _ | SubclassString _ _ => empty_fragment
  end.

(** A card whose review count stands in an element of its own, with a
    thousands separator and after a comment. *)
Definition counted_card : PageElement :=
  example_card "/p/hero-figure-x/-/A-12345" "Hero Figure X"
    [example_price "$19.99";
     TagNode "span" [("data-test", "rating-count")]
             [SubclassString Comment "9 new";
              NavigableString "(1,234 ratings)"]].

(** A card whose review count stands in a text only. *)
Definition reviewed_card : PageElement :=
  example_card "/p/hero-figure-x/-/A-12345" "Hero Figure X"
    [example_price "$19.99";
     TagNode "span" [] [NavigableString "Read all 1,024 reviews"]].

(** A card with a rating-stars container: three full stars and a half
    star. *)
Definition stars_card : PageElement :=
  example_card "/p/hero-figure-x/-/A-12345" "Hero Figure X"
    [example_price "$19.99";
     TagNode "div" [("data-test", "rating-stars")]
             [TagNode "svg" [("data-test", "icon-full-star")] [];
              TagNode "svg" [("data-test", "icon-full-star")] [];
              TagNode "svg" [("data-test", "icon-full-star")] [];
              TagNode "svg" [("data-test", "icon-half-star")] [];
              TagNode "svg" [("data-test", "icon-empty-star")] []]].

(** A card whose rating stands in a text only. *)
Definition text_rated_card : PageElement :=
  example_card "/p/hero-figure-x/-/A-12345" "Hero Figure X"
    [example_price "$19.99";
     TagNode "span" [] [NavigableString "Rated 4.5 out of 5 by buyers"]].

(** A card whose marks are each followed by a line feed, with a comment
    in its price element and the Target logo; and its record. *)
Definition line_feed_card : PageElement :=
  TagNode "div" [("data-test", "@web/ProductCard")]
          [TagNode "a" [("href", "/p/villain/-/A-2");
                        ("data-test", "product-title" +:+ line_feed)]
                   [NavigableString "Villain"];
           TagNode "span" [("data-test", "current-price" +:+ line_feed)]
                   [SubclassString Comment "was $12.99";
                    NavigableString "$9.99"];
           TagNode "svg" [("aria-label", "Target logo" +:+ line_feed)] []].

Definition line_feed_soup : Tag := example_soup [line_feed_card].

Definition line_feed_record : product :=
  {| url := "https://www.target.com/p/villain/-/A-2";
     title := "Villain";
     brand := "N/A";
     price := "$9.99";
     rating := "N/A";
     reviews := "0";
     inventory := "N/A";
     sold_by_target := "Yes";
     seller_name := "Target";
     tcin := "2" |}.

(** A fragment whose only string is a comment. *)
Definition comment_fragment : Tag :=
  {| name := "div"; attrs := [("data-test", "@web/ProductCard")];
     contents := [SubclassString Comment "4 out of 5, 12 reviews, only 3 left"] |}.

(** A card whose link target has an open bracket for its host, which
    [urljoin] refuses; and a page that holds it after the complete card. *)
Definition broken_card : PageElement :=
  example_card "//[/p/villain/-/A-2" "Villain" [example_price "$9.99"].

Definition hero_then_broken_soup : Tag := example_soup [hero_card; broken_card].

(** A record whose title holds a comma, a quoted word and a line break. *)
Definition villain_record : product :=
  {| url := "https://www.target.com/p/villain/-/A-2";
     title := "Villain, the " +:+ String csv.QUOTE "Bad"
              +:+ String csv.QUOTE "" +:+ String io.CR (String io.LF "one");
     brand := "N/A";
     price := "$9.99";
     rating := "N/A";
     reviews := "0";
     inventory := "Low Stock";
     sold_by_target := "No";
     seller_name := "N/A";
     tcin := "2" |}.

(** [c * n] *)
Definition repeat_char (c : ascii) (n : N) : string :=
  N.iter n (String c) "".

(** A title one character longer than the field limit, and a record that
    bears it. *)
Definition oversized_title : string :=
  repeat_char "x" (Z.to_N (csv.field_limit + 1)).

Definition oversized_record : product :=
  {| url := "https://www.target.com/p/giant/-/A-3";
     title := oversized_title;
     brand := "N/A";
     price := "$9.99";
     rating := "N/A";
     reviews := "0";
     inventory := "N/A";
     sold_by_target := "No";
     seller_name := "N/A";
     tcin := "3" |}.

(** * Properties *)

(** ** Strings *)

Section string_facts.
Import pystr.

Lemma str_app_nil_r (s : string) : s +:+ "" = s.
Proof. induction s as [|c s IH]; simpl; [done | by rewrite IH]. Qed.

Lemma str_app_assoc (a b c : string) : (a +:+ b) +:+ c = a +:+ b +:+ c.
Proof. induction a as [|x a IH]; simpl; [done | by rewrite IH]. Qed.

Lemma str_app_length (a b : string) :
  String.length (a +:+ b) = (String.length a + String.length b)%nat.
Proof. induction a as [|x a IH]; simpl; [done | by rewrite IH]. Qed.

Lemma str_app_eq_nil (a b : string) : a +:+ b = "" → a = "" ∧ b = "".
Proof. destruct a; simpl; [done | discriminate]. Qed.

Lemma str_app_inv_head (a b c : string) : a +:+ b = a +:+ c → b = c.
Proof. induction a as [|x a IH]; simpl; [done | intros [=]; auto]. Qed.

Lemma nonempty_true (s : string) : nonempty s = true ↔ s ≠ "".
Proof. destruct s; simpl; split; congruence. Qed.

Lemma nonempty_false (s : string) : nonempty s = false ↔ s = "".
Proof. destruct s; simpl; split; congruence. Qed.

Lemma take_app (a b : string) : take (String.length a) (a +:+ b) = a.
Proof. induction a as [|x a IH]; simpl; [by destruct b | by rewrite IH]. Qed.

Lemma all_chars_app p (a b : string) :
  all_chars p (a +:+ b) = all_chars p a && all_chars p b.
Proof.
  induction a as [|x a IH]; simpl; [done|]. rewrite IH. by destruct (p x).
Qed.

Lemma map_chars_app f (a b : string) :
  map_chars f (a +:+ b) = map_chars f a +:+ map_chars f b.
Proof. induction a as [|x a IH]; simpl; [done | by rewrite IH]. Qed.

Lemma map_chars_length f (a : string) :
  String.length (map_chars f a) = String.length a.
Proof. induction a as [|x a IH]; simpl; [done | by rewrite IH]. Qed.

Lemma strip_prefix_Some (w s r : string) :
  strip_prefix w s = Some r ↔ s = w +:+ r.
Proof.
  revert s. induction w as [|a w IH]; intros s; simpl.
  - split; congruence.
  - destruct s as [|b s]; [split; discriminate|].
    destruct (Ascii.eqb_spec a b) as [->|Hne].
    + rewrite IH. split; congruence.
    + split; [discriminate | intros [=]; done].
Qed.

Lemma startswith_true (w s : string) :
  startswith w s = true ↔ ∃ r, s = w +:+ r.
Proof.
  unfold startswith. destruct (strip_prefix w s) as [r|] eqn:E.
  - apply strip_prefix_Some in E. split; [eauto | done].
  - split; [done|]. intros [r Hr]. apply strip_prefix_Some in Hr. congruence.
Qed.

Lemma contains_true (w s : string) :
  contains w s = true ↔ ∃ pre post, s = pre +:+ w +:+ post.
Proof.
  induction s as [|c s IH]; simpl.
  - rewrite orb_false_r, startswith_true. split.
    + intros [r Hr]. by exists "", r.
    + intros (pre & post & H). symmetry in H.
      apply str_app_eq_nil in H as [-> H]. apply str_app_eq_nil in H as [-> _]. by exists "".
  - rewrite orb_true_iff, startswith_true, IH. split.
    + intros [[r Hr] | (pre & post & H)].
      * by exists "", r.
      * exists (String c pre), post. simpl. by rewrite H.
    + intros (pre & post & H). destruct pre as [|x pre]; simpl in H.
      * left. eauto.
      * right. injection H as _ H. eauto.
Qed.

Lemma break_spec p (s a b : string) :
  break p s = (a, b) →
  s = a +:+ b ∧ all_chars (fun c => negb (p c)) a = true
  ∧ match b with "" => True | String c _ => p c = true end.
Proof.
  revert a b. induction s as [|c s IH]; intros a b; simpl.
  - intros [= <- <-]. done.
  - destruct (p c) eqn:Hc.
    + intros [= <- <-]. simpl. done.
    + destruct (break p s) as [a' b'] eqn:E. intros [= <- <-].
      destruct (IH _ _ eq_refl) as (-> & Ha & Hb). simpl. rewrite Hc. done.
Qed.

Lemma break_unique p (a b : string) :
  all_chars (fun c => negb (p c)) a = true →
  match b with "" => True | String c _ => p c = true end →
  break p (a +:+ b) = (a, b).
Proof.
  intros Ha Hb. induction a as [|c a IH]; simpl in *.
  - destruct b as [|c b]; simpl; [done | by rewrite Hb].
  - apply andb_true_iff in Ha as [Hc Ha]. apply negb_true_iff in Hc.
    rewrite Hc, (IH Ha). done.
Qed.
End string_facts.

(** ** The matcher finds exactly the words of a pattern *)

Section regex_facts.
Import pystr.
Variable ic : bool.

Lemma lit_k_Some (w s r : string) :
  lit_k ic w s = Some r ↔ ∃ w', s = w' +:+ r ∧ fold_case ic w' = fold_case ic w.
Proof.
  unfold fold_case, lower. revert s. induction w as [|a w IH]; intros s; simpl.
  - split.
    + intros [= ->]. exists "". by destruct ic.
    + intros (w' & -> & Hw). destruct w'; [done | by destruct ic].
  - destruct s as [|b s].
    + split; [done|]. intros (w' & Hs & Hw). symmetry in Hs.
      apply str_app_eq_nil in Hs as [-> _]. by destruct ic.
    + destruct (Ascii.eqb_spec (if ic then lower_char a else a)
                               (if ic then lower_char b else b)) as [Hab|Hab].
      * rewrite IH. split.
        -- intros (w' & -> & Hw). exists (String b w'). split; [done|].
           destruct ic; simpl; congruence.
        -- intros (w' & Hs & Hw). destruct w' as [|b' w']; [by destruct ic|].
           simpl in Hs. injection Hs as -> ->. exists w'. split; [done|].
           destruct ic; simpl in Hw; congruence.
      * split; [done|]. intros (w' & Hs & Hw).
        destruct w' as [|b' w']; [by destruct ic|].
        simpl in Hs. injection Hs as -> ->. destruct ic; simpl in Hw; congruence.
Qed.

Lemma star_k_is_Some {A} p (s : string) (k : string → option A) :
  is_Some (star_k p s k)
  ↔ ∃ w r, s = w +:+ r ∧ all_chars p w = true ∧ is_Some (k r).
Proof.
  induction s as [|c s IH]; simpl.
  - split.
    + intros H. by exists "", "".
    + intros (w & r & Hs & _ & Hk). symmetry in Hs.
      apply str_app_eq_nil in Hs as [-> ->]. done.
  - destruct (p c) eqn:Hc.
    + destruct (star_k p s k) as [a|] eqn:E.
      * split; [|by eauto]. intros _.
        destruct (proj1 IH (mk_is_Some _ _ eq_refl)) as (w & r & -> & Hw & Hk).
        exists (String c w), r. simpl. by rewrite Hc.
      * split.
        -- intros H. by exists "", (String c s).
        -- intros (w & r & Hs & Hw & Hk). destruct w as [|c' w].
           ++ simpl in Hs. by subst r.
           ++ simpl in Hs, Hw. injection Hs as <- ->.
              apply andb_true_iff in Hw as [_ Hw].
              assert (is_Some (@None A)) as []; [|done].
              apply IH. eauto.
    + split.
      * intros H. by exists "", (String c s).
      * intros (w & r & Hs & Hw & Hk). destruct w as [|c' w].
        -- simpl in Hs. by subst r.
        -- simpl in Hs, Hw. injection Hs as <- ->. by rewrite Hc in Hw.
Qed.

Lemma is_Some_orelse {A} (x y : option A) :
  is_Some (match x with Some a => Some a | None => y end)
  ↔ is_Some x ∨ is_Some y.
Proof.
  destruct x; split; eauto. intros [H|H]; [by destruct H | done].
Qed.

Lemma match_k_is_Some (r : regex) :
  ∀ {A} (s : string) (g : option string) (k : string → option string → option A),
    group_blind k →
    is_Some (match_k ic r s g k)
    ↔ ∃ w rest, s = w +:+ rest ∧ matches ic r w ∧ is_Some (k rest None).
Proof.
  induction r as [w|p|p|r1 IH1 r2 IH2|r1 IH1 r2 IH2|r1 IH1|r1 IH1];
    intros A s g k Hk; simpl.
  - destruct (lit_k ic w s) as [r|] eqn:E.
    + apply lit_k_Some in E as (w' & -> & Hw). split.
      * intros H. exists w', r. split; [done|]. split; [by constructor | eauto].
      * intros (w2 & r2 & Hs & Hm & Hk2). inversion Hm; subst.
        assert (String.length w' = String.length w2) as Hlen.
        { unfold fold_case, lower in *.
          destruct ic; [|congruence].
          rewrite <- (map_chars_length lower_char w'),
                  <- (map_chars_length lower_char w2). congruence. }
        assert (w' = w2 ∧ r = r2) as [-> ->]; [|eauto].
        clear -Hs Hlen. revert w2 Hs Hlen.
        induction w' as [|c w' IH]; intros [|c2 w2] Hs Hlen; simpl in *;
          try discriminate; [done|].
        injection Hs as -> Hs. injection Hlen as Hlen.
        destruct (IH _ Hs Hlen) as [-> ->]. done.
    + split; [by intros []|]. intros (w2 & r2 & -> & Hm & _). inversion Hm; subst.
      assert (lit_k ic w (w2 +:+ r2) = Some r2) as E'; [|congruence].
      apply lit_k_Some. eauto.
  - destruct s as [|c s]; [|destruct (p c) eqn:Hc].
    + split; [by intros []|]. intros (w & r & Hs & Hm & _). inversion Hm; subst.
      discriminate.
    + split.
      * intros H. exists (String c ""), s. split; [done|].
        split; [by constructor | eauto].
      * intros (w & r & Hs & Hm & H). inversion Hm; subst.
        simpl in Hs. injection Hs as -> ->. eauto.
    + split; [by intros []|]. intros (w & r & Hs & Hm & _). inversion Hm; subst.
      simpl in Hs. injection Hs as -> ->. congruence.
  - rewrite star_k_is_Some. split.
    + intros (w & r & -> & Hw & H). exists w, r.
      split; [done|]. split; [by constructor | eauto].
    + intros (w & r & -> & Hm & H). inversion Hm; subst. exists w, r. eauto.
  - assert (group_blind (λ s' g', match_k ic r2 s' g' k)) as Hk2.
    { intros s' g1 g2 H. apply (IH2 A s' g2 k Hk). by apply (IH2 A s' g1 k Hk). }
    rewrite (IH1 _ s g _ Hk2). split.
    + intros (w1 & r1' & -> & Hm1 & H).
      apply (IH2 A r1' None k Hk) in H as (w2 & r2' & -> & Hm2 & H).
      exists (w1 +:+ w2), r2'. rewrite str_app_assoc.
      split; [done|]. split; [by constructor | done].
    + intros (w & r & -> & Hm & H). inversion Hm; subst.
      exists s1, (s2 +:+ r). rewrite str_app_assoc. split; [done|]. split; [done|].
      apply (IH2 A _ None k Hk). eauto.
  - rewrite is_Some_orelse, (IH1 A s g k Hk), (IH2 A s g k Hk). split.
    + intros [(w & r & -> & Hm & H)|(w & r & -> & Hm & H)];
        exists w, r; (split; [done|]); (split; [|done]).
      * by apply M_AltL.
      * by apply M_AltR.
    + intros (w & r & -> & Hm & H). inversion Hm; subst; [left|right]; eauto.
  - rewrite is_Some_orelse, (IH1 A s g k Hk). split.
    + intros [(w & r & -> & Hm & H)|H].
      * exists w, r. split; [done|]. split; [by apply M_OptSome | done].
      * exists "", s. split; [done|]. split; [apply M_OptNone | eauto].
    + intros (w & r & -> & Hm & H). inversion Hm; subst.
      * right. simpl. eauto.
      * left. eauto.
  - assert (group_blind (λ (s' : string) (_ : option string),
                           k s' (Some (consumed s s')))) as Hk2.
    { by intros s' g1 g2 H. }
    rewrite (IH1 _ s g _ Hk2). split.
    + intros (w & r & -> & Hm & H). exists w, r.
      split; [done|]. split; [by constructor | eauto].
    + intros (w & r & -> & Hm & H). inversion Hm; subst. exists w, r. eauto.
Qed.

Lemma match_here_is_Some (r : regex) (s : string) :
  is_Some (match_here ic r s) ↔ ∃ w rest, s = w +:+ rest ∧ matches ic r w.
Proof.
  unfold match_here. rewrite match_k_is_Some; [|by intros ? ? ? ?].
  split; intros (w & rest & H1 & H2); [destruct H2|]; eauto.
Qed.

Lemma search_is_Some (r : regex) (s : string) :
  is_Some (search ic r s) ↔ has_match ic r s.
Proof.
  unfold has_match. induction s as [|c s IH]; simpl.
  - rewrite is_Some_orelse, match_here_is_Some. split.
    + intros [(w & rest & Hs & Hm)|[]]; [|done]. by exists "", w, rest.
    + intros (pre & w & post & Hs & Hm). left. symmetry in Hs.
      apply str_app_eq_nil in Hs as [-> Hs]. exists w, post. by rewrite Hs.
  - rewrite is_Some_orelse, match_here_is_Some, IH. split.
    + intros [(w & rest & Hs & Hm)|(pre & w & post & Hs & Hm)].
      * by exists "", w, rest.
      * exists (String c pre), w, post. simpl. by rewrite Hs.
    + intros (pre & w & post & Hs & Hm). destruct pre as [|c' pre].
      * left. simpl in Hs. eauto.
      * right. simpl in Hs. injection Hs as _ Hs. eauto.
Qed.

Lemma found_true (r : regex) (s : string) :
  found ic r s = true ↔ has_match ic r s.
Proof.
  rewrite <- search_is_Some. unfold found.
  destruct (search ic r s).
  - split; eauto.
  - split; [done | by intros [? ?]].
Qed.

End regex_facts.

(** ** The first run of digits: [re.search(r'(\d+)', s)] *)

Section digits_facts.
Import pystr.

Lemma star_k_total {A} p (s : string) (k : string → option A) :
  (∀ x, is_Some (k x)) →
  star_k p s k = k (snd (break (λ c, negb (p c)) s)).
Proof.
  intros Hk. induction s as [|c s IH]; simpl; [done|].
  destruct (p c) eqn:Hc; simpl; [|done].
  rewrite IH. destruct (break (λ c0, negb (p c0)) s) as [a b]; simpl.
  by destruct (Hk b) as [x ->].
Qed.

Lemma consumed_app (a b : string) : consumed (a +:+ b) b = a.
Proof.
  unfold consumed. rewrite str_app_length.
  replace (String.length a + String.length b - String.length b)%nat
    with (String.length a) by lia.
  apply take_app.
Qed.

Lemma match_here_digits (s : string) :
  match s with
  | String c _ =>
      if is_digit c then
        ∃ d rest, s = d +:+ rest ∧ digit_run d rest
                  ∧ match_here false digits_pattern s
                    = Some {| group0 := d; group1 := Some d |}
      else match_here false digits_pattern s = None
  | "" => match_here false digits_pattern s = None
  end.
Proof.
  destruct s as [|c s]; [done|]. unfold match_here. simpl.
  destruct (is_digit c) eqn:Hc; [|done].
  rewrite star_k_total by eauto.
  destruct (break (λ c0, negb (is_digit c0)) s) as [a b] eqn:E. simpl.
  apply break_spec in E as (-> & Ha & Hb).
  exists (String c a), b. split; [done|]. split.
  - split; [done|]. split.
    + simpl. rewrite Hc. simpl. clear -Ha.
      induction a as [|x a IH]; simpl in *; [done|].
      apply andb_true_iff in Ha as [Hx Ha]. rewrite negb_involutive in Hx.
      by rewrite Hx, IH.
    + destruct b; [done|]. by apply negb_true_iff.
  - change (String c (a +:+ b)) with (String c a +:+ b).
    by rewrite consumed_app.
Qed.

Lemma search_digits_None (s : string) :
  search false digits_pattern s = None ↔ all_chars not_digit s = true.
Proof.
  induction s as [|c s IH]; [done|].
  pose proof (match_here_digits (String c s)) as H. simpl in *.
  unfold not_digit at 1. destruct (is_digit c); simpl.
  - destruct H as (d & rest & _ & _ & ->). done.
  - by rewrite H.
Qed.

Lemma search_digits_Some (s : string) (m : Match) :
  search false digits_pattern s = Some m →
  ∃ pre d post, s = pre +:+ d +:+ post ∧ all_chars not_digit pre = true
                ∧ digit_run d post ∧ group_1 m = d.
Proof.
  induction s as [|c s IH]; [done|].
  pose proof (match_here_digits (String c s)) as H. simpl in *.
  destruct (is_digit c) eqn:Hc.
  - destruct H as (d & rest & Hs & Hrun & ->). intros [= <-].
    exists "", d, rest. done.
  - rewrite H. intros Hm. destruct (IH Hm) as (pre & d & post & -> & Hpre & Hrun & Hg).
    exists (String c pre), d, post. split; [done|]. split; [|done].
    simpl. unfold not_digit at 1. by rewrite Hc.
Qed.

End digits_facts.

(** ** Queries on the document *)

Section query_facts.
Context {A : Type}.

Lemma head_filter_None (f : A → bool) (l : list A) :
  head (List.filter f l) = None ↔ ∀ x, x ∈ l → f x = false.
Proof.
  induction l as [|y l IH]; simpl.
  - split; [|done]. intros _ x Hx. by apply elem_of_nil in Hx.
  - destruct (f y) eqn:Hy; simpl.
    + split; [done|]. intros H. rewrite (H y) in Hy; [done | by left].
    + rewrite IH. split.
      * intros H x Hx. apply elem_of_cons in Hx as [->|Hx]; auto.
      * intros H x Hx. apply H. by right.
Qed.

Lemma head_filter_Some (f : A → bool) (l : list A) (x : A) :
  head (List.filter f l) = Some x
  ↔ ∃ before after, l = (before ++ x :: after)%list ∧ f x = true
                    ∧ ∀ y, y ∈ before → f y = false.
Proof.
  induction l as [|y l IH]; simpl.
  - split; [done|]. intros (before & after & H & _). by destruct before.
  - destruct (f y) eqn:Hy; simpl.
    + split.
      * intros [= ->]. exists [], l. split; [done|]. split; [done|].
        intros z Hz. by apply elem_of_nil in Hz.
      * intros (before & after & H & Hx & Hb). destruct before as [|z before].
        -- simpl in H. by injection H as ->.
        -- simpl in H. injection H as -> _. rewrite (Hb z) in Hy; [done | by left].
    + rewrite IH. split.
      * intros (before & after & -> & Hx & Hb). exists (y :: before), after.
        split; [done|]. split; [done|].
        intros z Hz. apply elem_of_cons in Hz as [->|Hz]; auto.
      * intros (before & after & H & Hx & Hb). destruct before as [|z before].
        -- simpl in H. injection H as -> _. congruence.
        -- simpl in H. injection H as -> ->. exists before, after.
           split; [done|]. split; [done|]. intros w Hw. apply Hb. by right.
Qed.

End query_facts.

Section select_facts.
Import pystr.

Lemma select_one_None (sel : selector) (t : Tag) :
  select_one sel t = None
  ↔ ∀ e, e ∈ tags_below t → matches_selector sel e = false.
Proof. apply head_filter_None. Qed.

Lemma select_one_Some (sel : selector) (t e : Tag) :
  select_one sel t = Some e
  ↔ ∃ before after, tags_below t = (before ++ e :: after)%list
                    ∧ matches_selector sel e = true
                    ∧ ∀ y, y ∈ before → matches_selector sel y = false.
Proof. apply head_filter_Some. Qed.


Lemma find_string_None (f : string → bool) (t : Tag) :
  find_string f t = None ↔ ∀ x, x ∈ texts_below t → f x = false.
Proof. apply head_filter_None. Qed.

Lemma find_string_Some (f : string → bool) (t : Tag) (x : string) :
  find_string f t = Some x
  ↔ ∃ before after, texts_below t = (before ++ x :: after)%list
                    ∧ f x = true ∧ ∀ y, y ∈ before → f y = false.
Proof. apply head_filter_Some. Qed.

(** [[a*="v"]] alone, for a value [v] that is not empty. *)
Lemma matches_attr_has (n : option string) (a v : string) (e : Tag) :
  v ≠ "" →
  matches_selector [{| sel_name := n; sel_attrs := [AttrHas a v] |}] e = true
  ↔ match n with Some x => name e = x | None => True end
    ∧ ∃ x, get e a = Some x ∧ occurs_in v x.
Proof.
  intros Hv. unfold matches_selector, matches_compound, occurs_in. simpl.
  rewrite orb_false_r, andb_true_r, andb_true_iff.
  apply nonempty_true in Hv.
  assert ((match n with Some x => (name e =? x)%string | None => true end) = true
          ↔ match n with Some x => name e = x | None => True end) as ->.
  { destruct n; [apply String.eqb_eq | done]. }
  destruct (get e a) as [x|].
  - rewrite Hv. simpl. rewrite contains_true. split.
    + intros [Hn Hc]. eauto.
    + intros [Hn (y & [= <-] & Hc)]. done.
  - split; [by intros [_ ?] | by intros [_ (y & ? & _)]].
Qed.

Lemma is_value_true (v x : string) :
  is_value v x = true ↔ x = v ∨ x = v +:+ line_feed.
Proof. unfold is_value. by rewrite orb_true_iff, !String.eqb_eq. Qed.

Lemma test_attr_is (e : Tag) (a v : string) :
  test_attr e (AttrIs a v) = true ↔ attr_is e a v.
Proof.
  unfold attr_is. cbn [test_attr]. destruct (get e a) as [x|].
  - rewrite is_value_true. split; (intros [H|H]; [left | right]); congruence.
  - split; [done | by intros [?|?]].
Qed.

(** [[a="v"]] alone. *)
Lemma matches_attr_is (n : option string) (a v : string) (e : Tag) :
  matches_selector [{| sel_name := n; sel_attrs := [AttrIs a v] |}] e = true
  ↔ match n with Some x => name e = x | None => True end ∧ attr_is e a v.
Proof.
  unfold matches_selector, matches_compound.
  cbn [existsb sel_name sel_attrs forallb].
  rewrite orb_false_r, andb_true_r, andb_true_iff, test_attr_is.
  assert ((match n with Some x => (name e =? x)%string | None => true end) = true
          ↔ match n with Some x => name e = x | None => True end) as ->; [|done].
  destruct n; [apply String.eqb_eq | done].
Qed.

Lemma matches_Lit (w x : string) : matches false (Lit w) x ↔ x = w.
Proof.
  split.
  - inversion 1; subst. done.
  - intros ->. by constructor.
Qed.

Lemma has_match_Lit (w s : string) : has_match false (Lit w) s ↔ occurs_in w s.
Proof.
  unfold has_match, occurs_in. split.
  - intros (pre & x & post & -> & ->%matches_Lit). eauto.
  - intros (pre & post & ->). exists pre, w, post. by rewrite matches_Lit.
Qed.

Lemma search_None (ic : bool) (r : regex) (s : string) :
  search ic r s = None ↔ ¬ has_match ic r s.
Proof.
  rewrite <- search_is_Some. destruct (search ic r s) as [m|].
  - split; [done|]. intros H. destruct H. eauto.
  - split; [|done]. by intros _ [? ?].
Qed.

Lemma select_icons (kind : string) (stars : Tag) :
  kind ≠ "" →
  length (select [{| sel_name := Some "svg";
                     sel_attrs := [AttrHas "data-test" kind] |}] stars)
  = star_icons kind stars.
Proof.
  intros Hk. unfold star_icons, select, tags_below. f_equal.
  apply filter_ext. intros e.
  unfold matches_selector, matches_compound. cbn [existsb sel_name sel_attrs forallb].
  rewrite orb_false_r, andb_true_r. f_equal. unfold test_attr.
  destruct (get e "data-test"); [|done].
  apply nonempty_true in Hk. by rewrite Hk.
Qed.

End select_facts.

(** A mark followed by a line feed is taken by the selectors that compare
    with [=], and a comment is a string for [find] and none for
    [get_text]. *)
Example line_feed_and_comment :
  extract_product_data line_feed_soup = Ok [line_feed_record]
  ∧ texts_below (tag_of line_feed_card) = ["Villain"; "was $12.99"; "$9.99"]
  ∧ get_text_strip (tag_of line_feed_card) = "Villain$9.99"
  ∧ extract_star_rating (Some comment_fragment) = "4.0/5"
  ∧ extract_review_count (Some comment_fragment) = "4"
  ∧ extract_inventory_count (Some comment_fragment) = "4"
  ∧ get_text_strip comment_fragment = "".
Proof. by vm_compute. Qed.

(** ** The rating extractor *)



(** C4, amended.  When the first tag of the fragment (in document order)
    whose accessibility label mentions "out of 5 stars" carries the label
    "4.5 out of 5 stars", the rating is exactly "4.5/5": the label strategy
    wins before the others are tried. *)
Theorem extract_star_rating_first_label
        (container : Tag) (before : list Tag) (e : Tag) (after : list Tag) :
  tags_below container = (before ++ e :: after)%list →
  (∀ e' label, e' ∈ before → get e' "aria-label" = Some label →
               ¬ occurs_in "out of 5 stars" label) →
  get e "aria-label" = Some "4.5 out of 5 stars" →
  extract_star_rating (Some container) = "4.5/5".
Proof.
  intros Htags Hbefore Hlabel. unfold extract_star_rating.
  set (sel1 := [{| sel_name := None;
                   sel_attrs := [AttrHas "aria-label" "out of 5 stars"] |}]).
  assert (select_one sel1 container = Some e) as ->.
  { apply select_one_Some. exists before, after. split; [done|]. split.
    - apply matches_attr_has; [done|]. split; [done|].
      exists "4.5 out of 5 stars". split; [done|]. by exists "4.5 ", "".
    - intros y Hy. destruct (matches_selector sel1 y) eqn:Hm; [|done].
      apply matches_attr_has in Hm as (_ & x & Hget & Hocc); [|done].
      by destruct (Hbefore y x). }
  simpl. rewrite Hlabel. simpl. by vm_compute.
Qed.

Lemma extract_star_rating_first_label_witness :
  extract_star_rating (Some rated_fragment) = "4.5/5".
Proof.
  apply (extract_star_rating_first_label rated_fragment
           [{| name := "a"; attrs := [("aria-label", "Hero Figure X")];
               contents := [NavigableString "Hero"] |}]
           {| name := "span"; attrs := [("aria-label", "4.5 out of 5 stars")];
              contents := [] |} []).
  - reflexivity.
  - intros e' label He' Hget Hocc.
    apply list_elem_of_singleton in He'. subst e'.
    injection Hget as <-. apply contains_true in Hocc. discriminate Hocc.
  - reflexivity.
Defined.

(** C4 as stated fails: this fragment contains a tag whose label is
    "4.5 out of 5 stars", and its rating is "3.0/5", from the label that
    comes first. *)
Lemma extract_star_rating_two_labels :
  (∃ e, e ∈ tags_below two_labels_fragment
        ∧ get e "aria-label" = Some "4.5 out of 5 stars")
  ∧ extract_star_rating (Some two_labels_fragment) = "3.0/5"
  ∧ extract_star_rating (Some two_labels_fragment) ≠ "4.5/5".
Proof.
  split; [|split].
  - exists {| name := "span"; attrs := [("aria-label", "4.5 out of 5 stars")];
              contents := [] |}.
    split; [|done]. simpl. apply list_elem_of_In. simpl. tauto.
  - by vm_compute.
  - by vm_compute.
Qed.

(** ** The inventory extractor *)

Section inventory_facts.
Import pystr.

Lemma matches_Seq ic (r1 r2 : regex) (s : string) :
  matches ic (Seq r1 r2) s
  ↔ ∃ s1 s2, s = s1 +:+ s2 ∧ matches ic r1 s1 ∧ matches ic r2 s2.
Proof.
  split.
  - inversion 1; subst. eauto.
  - intros (s1 & s2 & -> & H1 & H2). by constructor.
Qed.

Lemma matches_Alt ic (r1 r2 : regex) (s : string) :
  matches ic (Alt r1 r2) s ↔ matches ic r1 s ∨ matches ic r2 s.
Proof.
  split.
  - inversion 1; subst; eauto.
  - intros [H|H]; [by apply M_AltL | by apply M_AltR].
Qed.

Lemma matches_Lit_nocase (w s : string) :
  matches true (Lit w) s ↔ lower s = lower w.
Proof.
  split.
  - inversion 1; subst. done.
  - intros H. by constructor.
Qed.

Lemma matches_Plus ic (p : ascii → bool) (s : string) :
  matches ic (Plus p) s ↔ s ≠ "" ∧ all_chars p s = true.
Proof.
  unfold Plus. rewrite matches_Seq. split.
  - intros (s1 & s2 & -> & H1 & H2). inversion H1; subst. inversion H2; subst.
    simpl. split; [done|]. by rewrite H0, H3.
  - intros [Hne Hall]. destruct s as [|c s]; [done|]. simpl in Hall.
    apply andb_true_iff in Hall as [Hc Hs].
    exists (String c ""), s. split; [done|]. split; by constructor.
Qed.

Lemma lower_app (a b : string) : lower (a +:+ b) = lower a +:+ lower b.
Proof. apply map_chars_app. Qed.

Lemma lower_char_digit (c d : ascii) :
  is_digit d = true → lower_char c = d → c = d.
Proof.
  unfold lower_char. destruct (is_upper c) eqn:Hu; [|done].
  intros Hd <-. exfalso. revert Hu Hd. unfold is_upper, is_digit, code.
  rewrite !andb_true_iff, !Z.leb_le. intros [H1 H2].
  rewrite N_ascii_embedding; lia.
Qed.

Lemma lower_digits (n x : string) :
  all_chars is_digit n = true → lower x = n → x = n.
Proof.
  unfold lower. revert x. induction n as [|d n IH]; intros [|c x]; simpl; try done.
  intros [Hd Hn]%andb_true_iff [= Hc Hx].
  f_equal; [by apply (lower_char_digit c d) | by apply IH].
Qed.

Lemma lower_digits_id (n : string) :
  all_chars is_digit n = true → lower n = n.
Proof.
  unfold lower. induction n as [|d n IH]; simpl; [done|].
  intros [Hd Hn]%andb_true_iff. rewrite (IH Hn).
  f_equal. unfold lower_char.
  destruct (is_upper d) eqn:Hu; [|done]. exfalso. revert Hu Hd.
  unfold is_upper, is_digit. rewrite !andb_true_iff, !Z.leb_le. lia.
Qed.

Lemma map_chars_eq_app f (w a b : string) :
  map_chars f w = a +:+ b →
  ∃ w1 w2, w = w1 +:+ w2 ∧ map_chars f w1 = a ∧ map_chars f w2 = b.
Proof.
  revert w. induction a as [|x a IH]; intros w; simpl.
  - intros H. by exists "", w.
  - destruct w as [|c w]; simpl; [done|]. intros [= Hc Hw].
    destruct (IH _ Hw) as (w1 & w2 & -> & H1 & H2).
    exists (String c w1), w2. simpl. by rewrite Hc, H1.
Qed.

(** The pattern of the extractor matches exactly the listed phrases. *)
Lemma matches_inventory (w : string) :
  matches true inventory_pattern w ↔ inventory_phrase w.
Proof.
  unfold inventory_pattern, inventory_phrase.
  rewrite !matches_Alt, !matches_Seq. split.
  - intros [H|[H|[H|H]]].
    + destruct H as (s1 & s2 & -> & H1 & H2).
      apply matches_Seq in H2 as (n & s3 & -> & Hn & H3).
      apply matches_Lit_nocase in H1, H3. apply matches_Plus in Hn as [Hne Hn].
      right. exists n. split; [done|]. split; [done|]. left.
      by rewrite !lower_app, H1, H3, (lower_digits_id n Hn).
    + destruct H as (n & s3 & -> & Hn & H3).
      apply matches_Lit_nocase in H3. apply matches_Plus in Hn as [Hne Hn].
      right. exists n. split; [done|]. split; [done|]. right. left.
      by rewrite !lower_app, H3, (lower_digits_id n Hn).
    + destruct H as (s1 & s2 & -> & H1 & H2).
      apply matches_Seq in H2 as (n & s3 & -> & Hn & H3).
      apply matches_Lit_nocase in H1, H3. apply matches_Plus in Hn as [Hne Hn].
      right. exists n. split; [done|]. split; [done|]. right. right.
      by rewrite !lower_app, H1, H3, (lower_digits_id n Hn).
    + apply matches_Lit_nocase in H. by left.
  - intros [H|(n & Hne & Hn & [H|[H|H]])].
    + right. right. right. by apply matches_Lit_nocase.
    + left. apply map_chars_eq_app in H as (w1 & w23 & -> & H1 & H23).
      apply map_chars_eq_app in H23 as (w2 & w3 & -> & H2 & H3).
      apply (lower_digits n w2 Hn) in H2 as ->.
      exists w1, (n +:+ w3). split; [done|].
      split; [by apply matches_Lit_nocase|].
      apply matches_Seq. exists n, w3. split; [done|].
      split; [by apply matches_Plus | by apply matches_Lit_nocase].
    + right. left. apply map_chars_eq_app in H as (w2 & w3 & -> & H2 & H3).
      apply (lower_digits n w2 Hn) in H2 as ->.
      exists n, w3. split; [done|].
      split; [by apply matches_Plus | by apply matches_Lit_nocase].
    + right. right. left. apply map_chars_eq_app in H as (w1 & w23 & -> & H1 & H23).
      apply map_chars_eq_app in H23 as (w2 & w3 & -> & H2 & H3).
      apply (lower_digits n w2 Hn) in H2 as ->.
      exists w1, (n +:+ w3). split; [done|].
      split; [by apply matches_Lit_nocase|].
      apply matches_Seq. exists n, w3. split; [done|].
      split; [by apply matches_Plus | by apply matches_Lit_nocase].
Qed.

Lemma found_inventory (t : string) :
  found true inventory_pattern t = true ↔ mentions_inventory t.
Proof.
  rewrite found_true. unfold has_match, mentions_inventory.
  split; intros (pre & w & post & Ht & Hw); exists pre, w, post;
    (split; [done|]); by apply matches_inventory.
Qed.

Lemma mentions_inventory_nonempty (t : string) :
  mentions_inventory t → nonempty t = true.
Proof.
  intros (pre & w & post & -> & Hw). apply nonempty_true. intros H.
  apply str_app_eq_nil in H as [_ H]. apply str_app_eq_nil in H as [-> _].
  destruct Hw as [H|(n & Hne & _ & [H|[H|H]])]; try discriminate H.
  destruct n; [done | discriminate H].
Qed.

End inventory_facts.

(** C8, amended.  The inventory extractor looks, string by string, for
    the phrases "only N left", "N left", "only N in stock" and "low stock"
    without regard to case.  When no string holds a phrase the result is
    "N/A"; otherwise the first string that holds one decides: the result
    is the first run of digits of that string, wherever it stands in it,
    when the string has a digit, and the literal "Low Stock" when it has
    none. *)
Theorem extract_inventory_count_spec (container : Tag) :
  ((∀ t, t ∈ texts_below container → ¬ mentions_inventory t) →
   extract_inventory_count (Some container) = "N/A")
  ∧ ∀ before t after,
      texts_below container = (before ++ t :: after)%list →
      (∀ t', t' ∈ before → ¬ mentions_inventory t') →
      mentions_inventory t →
      (all_chars not_digit t = true
       ∧ extract_inventory_count (Some container) = "Low Stock")
      ∨ (∃ pre n post,
            t = pre +:+ n +:+ post ∧ all_chars not_digit pre = true
            ∧ digit_run n post
            ∧ extract_inventory_count (Some container) = n).
Proof.
  unfold extract_inventory_count. split.
  - intros Hnone.
    assert (find_string (found true inventory_pattern) container = None) as ->;
      [|done].
    apply find_string_None. intros t Ht.
    destruct (found true inventory_pattern t) eqn:F; [|done].
    apply found_inventory in F. by destruct (Hnone t).
  - intros before t after Htexts Hbefore Ht.
    assert (find_string (found true inventory_pattern) container = Some t) as ->.
    { apply find_string_Some. exists before, after. split; [done|].
      split; [by apply found_inventory|]. intros y Hy.
      destruct (found true inventory_pattern y) eqn:F; [|done].
      apply found_inventory in F. by destruct (Hbefore y). }
    simpl. rewrite (mentions_inventory_nonempty t Ht).
    destruct (search false digits_pattern t) as [m|] eqn:E.
    + right. apply search_digits_Some in E as (pre & n & post & H1 & H2 & H3 & H4).
      exists pre, n, post. done.
    + left. by apply search_digits_None in E.
Qed.

Lemma extract_inventory_count_spec_witness :
  extract_inventory_count (Some (tag_of hero_card)) = "N/A"
  ∧ ((all_chars not_digit "Hurry, Only 3 Left!" = true
      ∧ extract_inventory_count (Some few_left_fragment) = "Low Stock")
     ∨ (∃ pre n post,
           "Hurry, Only 3 Left!" = pre +:+ n +:+ post
           ∧ all_chars not_digit pre = true
           ∧ digit_run n post
           ∧ extract_inventory_count (Some few_left_fragment) = n)).
Proof.
  split.
  - apply (proj1 (extract_inventory_count_spec (tag_of hero_card))).
    intros t Ht Hm. apply found_inventory in Hm. vm_compute in Ht.
    repeat (apply elem_of_cons in Ht as [->|Ht]; [by vm_compute in Hm|]).
    by apply elem_of_nil in Ht.
  - apply (proj2 (extract_inventory_count_spec few_left_fragment)
             ["Hero Figure X"] "Hurry, Only 3 Left!" []).
    + reflexivity.
    + intros t' Ht' (pre & w & post & Hw & Hp).
      apply elem_of_cons in Ht' as [->|Ht']; [|by apply elem_of_nil in Ht'].
      assert (found true inventory_pattern "Hero Figure X" = true) as Hf.
      { apply found_inventory. by exists pre, w, post. }
      by vm_compute in Hf.
    + exists "Hurry, ", "Only 3 Left", "!". split; [reflexivity|].
      right. exists "3". split; [done|]. split; [done|]. by left.
Defined.

(** C8 as stated fails.  The number returned is the first one of the
    string, not the one of the phrase: "Pack of 5 - Low Stock" holds the
    phrase without a number and gives "5", not "Low Stock", and
    "2 pack: only 3 left" gives "2", not the captured 3.  And the phrase is
    looked for in one string at a time, not in the text of the fragment: a
    notice that is split over strings gives "N/A". *)
Lemma extract_inventory_count_other_number :
  (texts_below pack_low_stock_fragment = ["Pack of 5 - Low Stock"]
   ∧ inventory_phrase "Low Stock"
   ∧ extract_inventory_count (Some pack_low_stock_fragment) = "5")
  ∧ (texts_below two_pack_fragment = ["2 pack: only 3 left"]
     ∧ inventory_phrase "only 3 left"
     ∧ extract_inventory_count (Some two_pack_fragment) = "2")
  ∧ (texts_below split_notice_fragment = ["Only "; "3"; " left"]
     ∧ inventory_phrase ("Only " +:+ "3" +:+ " left")
     ∧ extract_inventory_count (Some split_notice_fragment) = "N/A").
Proof.
  split; [|split].
  - split; [done|]. split; [by left | by vm_compute].
  - split; [done|]. split; [|by vm_compute].
    right. exists "3". split; [done|]. split; [done|]. by left.
  - split; [done|]. split; [|by vm_compute].
    right. exists "3". split; [done|]. split; [done|]. by left.
Qed.

(** The extractor on a missing fragment and on the two stock notices. *)
Example extract_inventory_count_examples :
  extract_inventory_count None = "N/A"
  ∧ extract_inventory_count (Some few_left_fragment) = "3"
  ∧ extract_inventory_count (Some low_stock_fragment) = "Low Stock".
Proof. by vm_compute. Qed.

(** ** The loop of [extract_product_data] *)

Section extraction_facts.
Import pystr.

(** One iteration, by the identity of the card. *)
Lemma process_container_eq (st : extraction) (c : Tag) :
  process_container st c =
  match card_identity c with
  | None => Ok st
  | Some ValueError => ValueError
  | Some (Ok u) =>
      if decide (u ∈ seen_urls st) then Ok st
      else Ok {| products := products st ++ option_list (card_record c u);
                 seen_urls := {[ u ]} ∪ seen_urls st |}
  end.
Proof.
  unfold process_container, card_identity, card_record.
  destruct (title_link c) as [link|]; simpl; [|done].
  destruct (get link "href") as [href|]; simpl; [|done].
  destruct (clean_url_of href) as [u|]; simpl; [|done].
  destruct (decide (u ∈ seen_urls st)); [done|].
  destruct (nonempty (get_text_strip link)); simpl.
  - destruct (price_elem c); simpl; [done|]. by rewrite app_nil_r.
  - by rewrite app_nil_r.
Qed.

Lemma process_containers_app (st : extraction) (a b : list Tag) :
  process_containers st (a ++ b) =
  st1 ← process_containers st a; process_containers st1 b.
Proof.
  revert st. induction a as [|c a IH]; intros st; simpl; [done|].
  destruct (process_container st c) as [st1|]; simpl; [apply IH | done].
Qed.

Lemma card_record_url (c : Tag) (u : string) (p : product) :
  card_record c u = Some p → url p = u.
Proof.
  unfold card_record. destruct (title_link c) as [link|]; simpl; [|done].
  destruct (nonempty _); [|done].
  destruct (price_elem c); simpl; [|done]. by intros [= <-].
Qed.

Lemma by_url_app (u : string) (a b : list product) :
  by_url u (a ++ b) = by_url u a ++ by_url u b.
Proof. apply List.filter_app. Qed.

Lemma by_url_record_same (c : Tag) (u : string) :
  by_url u (option_list (card_record c u)) = option_list (card_record c u).
Proof.
  destruct (card_record c u) as [p|] eqn:E; simpl; [|done].
  apply card_record_url in E. unfold by_url. simpl.
  by rewrite (proj2 (String.eqb_eq _ _) E).
Qed.

Lemma by_url_record_other (c : Tag) (u v : string) :
  v ≠ u → by_url u (option_list (card_record c v)) = [].
Proof.
  intros Hne. destruct (card_record c v) as [p|] eqn:E; simpl; [|done].
  apply card_record_url in E. unfold by_url. simpl.
  destruct (String.eqb_spec (url p) u); [congruence | done].
Qed.

(** Once an identity is in the seen-set, no card adds a record for it. *)
Lemma process_containers_seen (u : string) (cs : list Tag) :
  ∀ st st', u ∈ seen_urls st → process_containers st cs = Ok st' →
            u ∈ seen_urls st' ∧ by_url u (products st') = by_url u (products st).
Proof.
  induction cs as [|c cs IH]; intros st st' Hu; simpl.
  - by intros [= <-].
  - rewrite process_container_eq.
    destruct (card_identity c) as [[v|]|]; simpl; [| done | by apply IH].
    destruct (decide (v ∈ seen_urls st)) as [Hv|Hv]; simpl; [by apply IH|].
    intros H. apply IH in H; [|simpl; set_solver].
    destruct H as [H1 H2]. simpl in H2.
    split; [done|]. rewrite H2, by_url_app, by_url_record_other, app_nil_r; [done|].
    intros ->. done.
Qed.

(** Cards of other identities leave the records of [u] as they are. *)
Lemma process_containers_others (u : string) (cs : list Tag) :
  ∀ st st', (∀ c, c ∈ cs → card_identity c ≠ Some (Ok u)) →
            u ∉ seen_urls st →
            process_containers st cs = Ok st' →
            (u ∉ seen_urls st') ∧ by_url u (products st') = by_url u (products st).
Proof.
  induction cs as [|c cs IH]; intros st st' Hcs Hu; simpl.
  - by intros [= <-].
  - assert (∀ c', c' ∈ cs → card_identity c' ≠ Some (Ok u)) as Hcs'.
    { intros c' Hc'. apply Hcs. by right. }
    assert (card_identity c ≠ Some (Ok u)) as Hc by (apply Hcs; by left).
    rewrite process_container_eq.
    destruct (card_identity c) as [[v|]|]; simpl; [| done | by apply IH].
    assert (v ≠ u) as Hvu by congruence.
    destruct (decide (v ∈ seen_urls st)) as [Hv|Hv]; simpl; [by apply IH|].
    intros H. apply IH in H; [| done | simpl; set_solver].
    destruct H as [H1 H2]. simpl in H2.
    split; [done|]. by rewrite H2, by_url_app, by_url_record_other, app_nil_r.
Qed.

(** The records of an identity come from the first card that bears it. *)
Lemma process_containers_first (u : string) (before : list Tag) (first : Tag)
      (after : list Tag) (st st' : extraction) :
  (∀ c, c ∈ before → card_identity c ≠ Some (Ok u)) →
  card_identity first = Some (Ok u) →
  u ∉ seen_urls st →
  process_containers st (before ++ first :: after) = Ok st' →
  by_url u (products st')
  = by_url u (products st) ++ option_list (card_record first u).
Proof.
  intros Hbefore Hfirst Hu. rewrite process_containers_app.
  destruct (process_containers st before) as [st1|] eqn:E1; simpl; [|done].
  destruct (process_containers_others u before st st1 Hbefore Hu E1) as [Hu1 H1].
  rewrite process_container_eq, Hfirst.
  destruct (decide (u ∈ seen_urls st1)) as [|_]; [done|]. simpl.
  intros H. apply (process_containers_seen u) in H; [|simpl; set_solver].
  destruct H as [_ H]. simpl in H.
  by rewrite H, by_url_app, H1, by_url_record_same.
Qed.

(** Every record of the loop comes from one of the cards. *)
Lemma process_containers_emitted (cs : list Tag) :
  ∀ st st' p, process_containers st cs = Ok st' → p ∈ products st' →
              p ∈ products st ∨ ∃ c, c ∈ cs ∧ emitted_from c p.
Proof.
  induction cs as [|c cs IH]; intros st st' p; simpl.
  - intros [= <-]. by left.
  - rewrite process_container_eq.
    destruct (card_identity c) as [[v|]|] eqn:Hc; simpl; [| done |].
    + destruct (decide (v ∈ seen_urls st)) as [Hv|Hv]; simpl.
      * intros H Hp. destruct (IH _ _ _ H Hp) as [?|(c' & Hc' & He)]; [by left|].
        right. exists c'. split; [by right | done].
      * intros H Hp. destruct (IH _ _ _ H Hp) as [Hp'|(c' & Hc' & He)]; simpl in *.
        -- apply elem_of_app in Hp' as [?|Hp']; [by left|]. right. exists c.
           split; [by left|]. exists v. split; [done|].
           destruct (card_record c v); simpl in Hp'.
           ++ apply list_elem_of_singleton in Hp'. by subst.
           ++ by apply elem_of_nil in Hp'.
        -- right. exists c'. split; [by right | done].
    + intros H Hp. destruct (IH _ _ _ H Hp) as [?|(c' & Hc' & He)]; [by left|].
      right. exists c'. split; [by right | done].
Qed.

Lemma extract_product_data_emitted (soup : Tag) (ps : list product) (p : product) :
  extract_product_data soup = Ok ps → p ∈ ps →
  ∃ c, c ∈ product_containers soup ∧ emitted_from c p.
Proof.
  unfold extract_product_data.
  destruct (process_containers _ _) as [st|] eqn:E; simpl; [|done].
  intros [= <-] Hp.
  destruct (process_containers_emitted _ _ _ _ E Hp) as [H|H]; [|done].
  by apply elem_of_nil in H.
Qed.

(** The records of the loop have identities of the seen-set, each once. *)
Lemma process_containers_NoDup (cs : list Tag) :
  ∀ st st', process_containers st cs = Ok st' →
            (∀ p, p ∈ products st → url p ∈ seen_urls st) →
            NoDup (map url (products st)) →
            NoDup (map url (products st')).
Proof.
  induction cs as [|c cs IH]; intros st st'; simpl.
  - by intros [= <-].
  - rewrite process_container_eq.
    destruct (card_identity c) as [[v|]|]; simpl; [| done | by apply IH].
    destruct (decide (v ∈ seen_urls st)) as [Hv|Hv]; simpl; [by apply IH|].
    intros H Hseen Hnd. apply IH in H; [done | |]; simpl.
    + intros p [Hp|Hp]%elem_of_app; [set_solver|].
      destruct (card_record c v) as [q|] eqn:E; simpl in Hp.
      * apply list_elem_of_singleton in Hp as ->.
        apply card_record_url in E. set_solver.
      * by apply elem_of_nil in Hp.
    + rewrite map_app. apply NoDup_app. split; [done|]. split.
      * intros x Hx Hx'. destruct (card_record c v) as [q|] eqn:E; simpl in Hx'.
        -- apply list_elem_of_singleton in Hx' as ->.
           apply card_record_url in E. rewrite E in Hx.
           apply list_elem_of_fmap in Hx as (p & Hp1 & Hp2).
           apply Hseen in Hp2. congruence.
        -- by apply elem_of_nil in Hx'.
      * destruct (card_record c v); simpl; [|constructor].
        apply NoDup_singleton.
Qed.

Lemma extract_product_data_NoDup (soup : Tag) (ps : list product) :
  extract_product_data soup = Ok ps → NoDup (map url ps).
Proof.
  unfold extract_product_data.
  destruct (process_containers _ _) as [st|] eqn:E; simpl; [|done].
  intros [= <-]. apply (process_containers_NoDup _ _ _ E); simpl.
  - intros p Hp. by apply elem_of_nil in Hp.
  - constructor.
Qed.

End extraction_facts.

(** ** The assembled records *)

Lemma is_sold_by_target_values (container : option Tag) :
  is_sold_by_target container = "Yes" ∨ is_sold_by_target container = "No".
Proof.
  unfold is_sold_by_target. destruct container as [c|]; [|by right].
  destruct (truthy _); [by left|].
  destruct (select_one _ c); [by left|].
  destruct (truthy _); [by left | by right].
Qed.

Lemma card_record_assemble (c : Tag) (u : string) (p : product) :
  card_record c u = Some p →
  ∃ link pe, title_link c = Some link ∧ get_text_strip link ≠ ""
             ∧ price_elem c = Some pe ∧ p = assemble c link u pe.
Proof.
  unfold card_record. destruct (title_link c) as [link|]; simpl; [|done].
  destruct (pystr.nonempty _) eqn:Ht; [|done].
  destruct (price_elem c) as [pe|]; simpl; [|done]. intros [= <-].
  exists link, pe. by apply nonempty_true in Ht.
Qed.

(** C7.  In every record the assembler produces, [sold_by_target] is "Yes"
    or "No", [seller_name] is "Target" exactly when [sold_by_target] is
    "Yes", and it is "N/A" otherwise. *)
Theorem seller_name_iff_sold_by_target
        (soup : Tag) (ps : list product) (p : product) :
  extract_product_data soup = Ok ps → p ∈ ps →
  (sold_by_target p = "Yes" ∨ sold_by_target p = "No")
  ∧ (seller_name p = "Target" ↔ sold_by_target p = "Yes")
  ∧ (sold_by_target p ≠ "Yes" → seller_name p = "N/A").
Proof.
  intros Hps Hp.
  destruct (extract_product_data_emitted soup ps p Hps Hp) as (c & _ & u & _ & Hrec).
  apply card_record_assemble in Hrec as (link & pe & _ & _ & _ & ->).
  unfold assemble. cbv zeta. cbn [sold_by_target seller_name].
  destruct (is_sold_by_target_values (Some c)) as [-> | ->]; simpl.
  - split; [by left|]. done.
  - split; [by right|]. split; [|done]. split; discriminate.
Qed.

Lemma seller_name_iff_sold_by_target_witness :
  (sold_by_target hero_record = "Yes" ∨ sold_by_target hero_record = "No")
  ∧ (seller_name hero_record = "Target" ↔ sold_by_target hero_record = "Yes")
  ∧ (sold_by_target hero_record ≠ "Yes" → seller_name hero_record = "N/A").
Proof.
  apply (seller_name_iff_sold_by_target hero_soup [hero_record] hero_record).
  - by vm_compute.
  - by left.
Defined.

(** ** Mandatory price (C3) *)

Lemma price_elem_None (container : Tag) :
  (∀ e, e ∈ tags_below container → ¬ is_price e) →
  price_elem container = None.
Proof.
  intros H. apply select_one_None. intros e He.
  destruct (matches_selector _ e) eqn:Hm; [|done].
  apply matches_attr_is in Hm as [_ Hm]. by destruct (H e He).
Qed.

(** C3.  A fragment with a resolvable identity and a title that is not
    empty, and with no current-price marker below it (no tag whose
    [data-test] attribute has the value "current-price" as the selector of
    line 101 takes it), makes the loop step return normally with the list
    of products unchanged; and no record is ever assembled from it. *)
Theorem missing_price_no_record
        (st : extraction) (container link : Tag) (href clean_url : string) :
  title_link container = Some link →
  get link "href" = Some href →
  clean_url_of href = Ok clean_url →
  get_text_strip link ≠ "" →
  (∀ e, e ∈ tags_below container → ¬ is_price e) →
  (∃ seen, process_container st container
           = Ok {| products := products st; seen_urls := seen |})
  ∧ ∀ p, ¬ emitted_from container p.
Proof.
  intros Hlink Hhref Hurl Htitle Hprice. apply price_elem_None in Hprice.
  assert (∀ u, card_record container u = None) as Hrec.
  { intros u. unfold card_record. rewrite Hlink. simpl.
    destruct (pystr.nonempty _); [|done]. by rewrite Hprice. }
  split.
  - rewrite process_container_eq. unfold card_identity.
    rewrite Hlink. simpl. rewrite Hhref. simpl. rewrite Hurl.
    destruct (decide _); [destruct st; eauto|].
    rewrite Hrec. simpl. rewrite app_nil_r. eauto.
  - intros p (u & _ & Hp). by rewrite Hrec in Hp.
Qed.

Lemma missing_price_no_record_witness :
  (∃ seen, process_container {| products := []; seen_urls := ∅ |}
                             (tag_of no_price_card)
           = Ok {| products := []; seen_urls := seen |})
  ∧ ∀ p, ¬ emitted_from (tag_of no_price_card) p.
Proof.
  apply (missing_price_no_record
           {| products := []; seen_urls := ∅ |} (tag_of no_price_card)
           {| name := "a";
              attrs := [("href", "/p/hero-figure-x/-/A-12345");
                        ("data-test", "product-title")];
              contents := [NavigableString "Hero Figure X"] |}
           "/p/hero-figure-x/-/A-12345"
           "https://www.target.com/p/hero-figure-x/-/A-12345").
  - reflexivity.
  - reflexivity.
  - by vm_compute.
  - by vm_compute.
  - intros e He [Hv|Hv]; vm_compute in He;
      repeat (apply elem_of_cons in He as [->|He]; [discriminate Hv|]);
      by apply elem_of_nil in He.
Defined.

(** The document of that card yields no record and no error. *)
Example missing_price_document : extract_product_data no_price_soup = Ok [].
Proof. by vm_compute. Qed.

(** ** Duplicates within a document (C2, C10) *)

Lemma card_record_dropped (c link : Tag) (u : string) :
  title_link c = Some link →
  get_text_strip link = "" ∨ price_elem c = None →
  card_record c u = None.
Proof.
  intros Hlink Hdrop. unfold card_record. rewrite Hlink. simpl.
  destruct Hdrop as [-> | ->]; [done|]. by destruct (pystr.nonempty _).
Qed.

Lemma extract_product_data_by_url
      (soup : Tag) (before : list Tag) (first : Tag) (after : list Tag)
      (u : string) (ps : list product) :
  product_containers soup = before ++ first :: after →
  (∀ c, c ∈ before → card_identity c ≠ Some (Ok u)) →
  card_identity first = Some (Ok u) →
  extract_product_data soup = Ok ps →
  by_url u ps = option_list (card_record first u).
Proof.
  intros Hcs Hbefore Hfirst. unfold extract_product_data. rewrite Hcs.
  destruct (process_containers _ _) as [st|] eqn:E; simpl; [|done].
  intros [= <-].
  apply (process_containers_first u) in E; [done | done | done |].
  simpl. set_solver.
Qed.

(** C10.  The identity of a card enters the seen-set before its title and
    price are looked at.  So when the first card that bears an identity is
    dropped for an empty title or a missing price, the step leaves the
    identity in the seen-set without a record, and the document yields no
    record at all for that identity, whatever cards follow; the last part
    exhibits a document whose later card for the identity is complete and
    which yields no record. *)
Theorem seen_before_validation :
  (∀ (st : extraction) (first link : Tag) (u : string),
      card_identity first = Some (Ok u) →
      u ∉ seen_urls st →
      title_link first = Some link →
      get_text_strip link = "" ∨ price_elem first = None →
      process_container st first
      = Ok {| products := products st; seen_urls := {[ u ]} ∪ seen_urls st |})
  ∧ (∀ (soup : Tag) (before : list Tag) (first link : Tag) (after : list Tag)
       (u : string) (ps : list product),
        product_containers soup = before ++ first :: after →
        (∀ c, c ∈ before → card_identity c ≠ Some (Ok u)) →
        card_identity first = Some (Ok u) →
        title_link first = Some link →
        get_text_strip link = "" ∨ price_elem first = None →
        extract_product_data soup = Ok ps →
        ∀ p, p ∈ ps → url p ≠ u)
  ∧ (∃ (soup first later : Tag) (u : string) (p : product),
        product_containers soup = [first; later]
        ∧ card_identity first = Some (Ok u)
        ∧ card_identity later = Some (Ok u)
        ∧ card_record later u = Some p
        ∧ extract_product_data soup = Ok []).
Proof.
  split; [|split].
  - intros st first link u Hid Hu Hlink Hdrop.
    rewrite process_container_eq, Hid.
    destruct (decide _); [done|].
    by rewrite (card_record_dropped first link u Hlink Hdrop), app_nil_r.
  - intros soup before first link after u ps Hcs Hbefore Hid Hlink Hdrop Hps p Hp Hu.
    pose proof (extract_product_data_by_url soup before first after u ps
                  Hcs Hbefore Hid Hps) as H.
    rewrite (card_record_dropped first link u Hlink Hdrop) in H. simpl in H.
    assert (p ∈ by_url u ps) as Hin.
    { apply list_elem_of_In, filter_In. split; [by apply list_elem_of_In|].
      by apply String.eqb_eq. }
    rewrite H in Hin. by apply elem_of_nil in Hin.
  - exists blank_then_valid_soup, (tag_of blank_title_card), (tag_of hero_card),
           "https://www.target.com/p/hero-figure-x/-/A-12345", hero_record.
    by vm_compute.
Qed.

Lemma seen_before_validation_witness :
  process_container {| products := []; seen_urls := ∅ |} (tag_of blank_title_card)
  = Ok {| products := [];
          seen_urls := {[ "https://www.target.com/p/hero-figure-x/-/A-12345" ]} ∪ ∅ |}
  ∧ ∀ p, p ∈ [] → url p ≠ "https://www.target.com/p/hero-figure-x/-/A-12345".
Proof.
  split.
  - apply (proj1 seen_before_validation
             {| products := []; seen_urls := ∅ |} (tag_of blank_title_card)
             {| name := "a";
                attrs := [("href", "/p/hero-figure-x/-/A-12345");
                          ("data-test", "product-title")];
                contents := [NavigableString "   "] |}
             "https://www.target.com/p/hero-figure-x/-/A-12345").
    + by vm_compute.
    + apply not_elem_of_empty.
    + reflexivity.
    + left. by vm_compute.
  - apply (proj1 (proj2 seen_before_validation)
             blank_then_valid_soup [] (tag_of blank_title_card)
             {| name := "a";
                attrs := [("href", "/p/hero-figure-x/-/A-12345");
                          ("data-test", "product-title")];
                contents := [NavigableString "   "] |}
             [tag_of hero_card]
             "https://www.target.com/p/hero-figure-x/-/A-12345" []).
    + reflexivity.
    + intros c Hc. by apply elem_of_nil in Hc.
    + by vm_compute.
    + reflexivity.
    + left. by vm_compute.
    + by vm_compute.
Defined.

(** C2, amended.  The records of a document have pairwise distinct
    identities, and the records of an identity are decided by the first
    card that bears it: exactly one record, assembled from that card, when
    the card has a title that is not empty and a price marker, and none
    when it is dropped for an empty title or a missing price.  Later cards
    of that identity add nothing. *)
Theorem first_seen_wins (soup : Tag) (ps : list product) :
  extract_product_data soup = Ok ps →
  NoDup (map url ps)
  ∧ ∀ (before : list Tag) (first link : Tag) (after : list Tag) (u : string),
      product_containers soup = before ++ first :: after →
      (∀ c, c ∈ before → card_identity c ≠ Some (Ok u)) →
      card_identity first = Some (Ok u) →
      title_link first = Some link →
      (∀ pe, get_text_strip link ≠ "" → price_elem first = Some pe →
             by_url u ps = [assemble first link u pe])
      ∧ (get_text_strip link = "" ∨ price_elem first = None → by_url u ps = []).
Proof.
  intros Hps. split; [by apply (extract_product_data_NoDup soup)|].
  intros before first link after u Hcs Hbefore Hid Hlink.
  pose proof (extract_product_data_by_url soup before first after u ps
                Hcs Hbefore Hid Hps) as H.
  split.
  - intros pe Htitle Hprice. rewrite H. unfold card_record.
    rewrite Hlink. simpl. apply nonempty_true in Htitle. rewrite Htitle, Hprice.
    done.
  - intros Hdrop. by rewrite H, (card_record_dropped first link u Hlink Hdrop).
Qed.

Lemma first_seen_wins_witness :
  NoDup (map url [hero_record])
  ∧ ∀ (before : list Tag) (first link : Tag) (after : list Tag) (u : string),
      product_containers hero_twice_soup = before ++ first :: after →
      (∀ c, c ∈ before → card_identity c ≠ Some (Ok u)) →
      card_identity first = Some (Ok u) →
      title_link first = Some link →
      (∀ pe, get_text_strip link ≠ "" → price_elem first = Some pe →
             by_url u [hero_record] = [assemble first link u pe])
      ∧ (get_text_strip link = "" ∨ price_elem first = None
         → by_url u [hero_record] = []).
Proof.
  apply (first_seen_wins hero_twice_soup [hero_record]). by vm_compute.
Defined.

(** C2 as stated fails: in this document two cards resolve to the same
    identity and the document yields no record for it, because the first
    of them has a blank title. *)
Lemma first_fragment_dropped_no_record :
  product_containers blank_then_valid_soup
  = [tag_of blank_title_card; tag_of hero_card]
  ∧ card_identity (tag_of blank_title_card)
    = Some (Ok "https://www.target.com/p/hero-figure-x/-/A-12345")
  ∧ card_identity (tag_of hero_card)
    = Some (Ok "https://www.target.com/p/hero-figure-x/-/A-12345")
  ∧ extract_product_data blank_then_valid_soup = Ok [].
Proof. by vm_compute. Qed.

(** ** The value of a rating (C9) *)

Section rating_facts.
Import pystr.
Variable ic : bool.




End rating_facts.















(** ** The dedup layer (C1) *)

Section dedupe_facts.
Implicit Types (known : gset string) (rs : list product).

Lemma dedupe_app known (a b : list product) :
  dedupe known (a ++ b)
  = let '(n1, k1) := dedupe known a in
    let '(n2, k2) := dedupe k1 b in (n1 ++ n2, k2).
Proof.
  revert known. induction a as [|r a IH]; intros known; simpl.
  - by destruct (dedupe known b).
  - destruct (decide (url r ∈ known)); [apply IH|].
    rewrite IH. destruct (dedupe ({[url r]} ∪ known) a) as [n1 k1].
    by destruct (dedupe k1 b).
Qed.

(** Everything known already: nothing is novel and the set stays. *)
Lemma dedupe_known known rs :
  (∀ p, p ∈ rs → url p ∈ known) → dedupe known rs = ([], known).
Proof.
  induction rs as [|r rs IH]; intros H; simpl; [done|].
  destruct (decide (url r ∈ known)) as [|Hn].
  - apply IH. intros p Hp. apply H. by right.
  - destruct Hn. apply H. by left.
Qed.

(** What the record-by-record dedup returns. *)
Lemma dedupe_spec rs :
  ∀ known novel known',
    dedupe known rs = (novel, known') →
    known' = known ∪ list_to_set (map url novel)
    ∧ (∀ p, p ∈ novel → (url p ∉ known) ∧ p ∈ rs)
    ∧ NoDup (map url novel)
    ∧ (∀ p, p ∈ rs → url p ∈ known')
    ∧ ∀ u, length (by_url u novel)
           = if decide ((u ∉ known) ∧ u ∈ map url rs) then 1%nat else 0%nat.
Proof.
  induction rs as [|r rs IH]; intros known novel known'; simpl.
  - intros [= <- <-]. simpl. split; [set_solver|].
    split; [intros p Hp; by apply elem_of_nil in Hp|].
    split; [constructor|]. split; [intros p Hp; by apply elem_of_nil in Hp|].
    intros u. destruct (decide _) as [[_ Hu]|]; [|done].
    by apply elem_of_nil in Hu.
  - destruct (decide (url r ∈ known)) as [Hr|Hr].
    + intros H. destruct (IH _ _ _ H) as (H1 & H2 & H3 & H4 & H5).
      split; [done|]. split.
      { intros p Hp. destruct (H2 p Hp). split; [done | by right]. }
      split; [done|]. split.
      { intros p [->|Hp]%elem_of_cons; [set_solver | by apply H4]. }
      intros u. rewrite H5.
      destruct (decide _) as [[Ha Hb]|Hn], (decide _) as [[Hc Hd]|Hm];
        try done.
      * destruct Hm. split; [done | by right].
      * destruct Hn. split; [done|].
        apply elem_of_cons in Hd as [->|Hd]; done.
    + destruct (dedupe ({[url r]} ∪ known) rs) as [n k] eqn:E.
      intros [= <- <-]. destruct (IH _ _ _ E) as (H1 & H2 & H3 & H4 & H5).
      split; [set_solver|]. split.
      { intros p [->|Hp]%elem_of_cons; [split; [done | by left]|].
        destruct (H2 p Hp). split; [set_solver | by right]. }
      split.
      { simpl. constructor; [|done]. intros Hin.
        apply list_elem_of_fmap in Hin as (p & Hp1 & Hp2).
        destruct (H2 p Hp2) as [Hp3 _]. set_solver. }
      split.
      { intros p [->|Hp]%elem_of_cons; [set_solver | by apply H4]. }
      intros u. unfold by_url. simpl. fold (by_url u n).
      destruct (String.eqb_spec (url r) u) as [Hu|Hu]; simpl; rewrite H5.
      * subst u. destruct (decide _) as [[Ha _]|_]; [set_solver|].
        destruct (decide _) as [|Hn]; [done|]. destruct Hn.
        split; [done | by left].
      * destruct (decide _) as [[Ha Hb]|Hn], (decide _) as [[Hc Hd]|Hm];
          try done.
        -- destruct Hm. split; [set_solver | by right].
        -- destruct Hn. split; [set_solver|].
           apply elem_of_cons in Hd as [?|Hd]; [congruence | done].
Qed.

(** Filtering a whole page against the set and then adding the kept
    identities is the record-by-record dedup, when the page has no
    identity twice. *)
Lemma dedupe_batch rs :
  ∀ known,
    NoDup (map url rs) →
    dedupe known rs
    = (List.filter (λ p, bool_decide (url p ∉ known)) rs,
       known ∪ list_to_set
                 (map url (List.filter (λ p, bool_decide (url p ∉ known)) rs))).
Proof.
  induction rs as [|r rs IH]; intros known Hnd; simpl.
  - f_equal. set_solver.
  - apply NoDup_cons in Hnd as [Hr Hnd].
    destruct (decide (url r ∈ known)) as [Hk|Hk].
    + rewrite bool_decide_eq_false_2 by (intros ?; done). by apply IH.
    + rewrite bool_decide_eq_true_2 by done. rewrite (IH _ Hnd).
      assert (List.filter (λ p, bool_decide (url p ∉ {[url r]} ∪ known)) rs
              = List.filter (λ p, bool_decide (url p ∉ known)) rs) as ->.
      { apply List.filter_ext_in. intros p Hp. apply bool_decide_ext.
        assert (url p ≠ url r); [|set_solver].
        intros Heq. apply Hr. rewrite <- Heq.
        apply list_elem_of_fmap. exists p. split; [done|].
        by apply list_elem_of_In. }
      f_equal. simpl. set_solver.
Qed.

Lemma page_records_NoDup (pg : page) : NoDup (map url (page_records pg)).
Proof.
  destruct pg as [| |soup]; simpl; try constructor.
  destruct (extract_product_data soup) as [ps|] eqn:E; [|constructor].
  by apply (extract_product_data_NoDup soup).
Qed.

Lemma scrape_page_dedupe (st : scrape) (pg : page) :
  scrape_page st pg
  = let '(novel, known') := dedupe (existing_urls st) (page_records pg) in
    {| existing_urls := known';
       all_products := all_products st ++ novel;
       new_products_count := new_products_count st + length novel |}.
Proof.
  rewrite (dedupe_batch _ _ (page_records_NoDup pg)).
  destruct st as [k a n].
  destruct pg as [| |soup]; simpl.
  - f_equal; [set_solver | by rewrite app_nil_r | lia].
  - f_equal; [set_solver | by rewrite app_nil_r | lia].
  - destruct (extract_product_data soup) as [ps|]; simpl; [done|].
    f_equal; [set_solver | by rewrite app_nil_r | lia].
Qed.

Lemma scrape_fold (pages : list page) :
  ∀ st, fold_left scrape_page pages st
        = let '(novel, known') :=
            dedupe (existing_urls st) (concat (map page_records pages)) in
          {| existing_urls := known';
             all_products := all_products st ++ novel;
             new_products_count := new_products_count st + length novel |}.
Proof.
  induction pages as [|pg pages IH]; intros st; simpl.
  - destruct st; simpl. f_equal; [by rewrite app_nil_r | lia].
  - rewrite IH, scrape_page_dedupe, dedupe_app.
    destruct (dedupe (existing_urls st) (page_records pg)) as [n1 k1]. simpl.
    destruct (dedupe k1 (concat (map page_records pages))) as [n2 k2].
    f_equal; [by rewrite app_assoc | rewrite length_app; lia].
Qed.

End dedupe_facts.

(** C1.  A run over a sequence of pages, started from the known
    identities, is the record-by-record dedup of the records of the pages
    in order: a record is emitted only when its identity is absent from the
    set, an emitted identity is in the set for everything that follows, so
    every identity is emitted at most once in the run, and exactly once
    when it is new and some page holds it (so two documents holding the
    same new identity give one record for it).  The final set is the
    initial one plus the emitted identities, and running again with that
    set on the same records yields no novel record; the count returned is
    the number of emitted records. *)
Theorem dedup_run (existing : gset string) (pages : list page) :
  let st := scrape_pages existing pages in
  let records := concat (map page_records pages) in
  (all_products st, existing_urls st) = dedupe existing records
  ∧ (∀ p, p ∈ all_products st → (url p ∉ existing) ∧ p ∈ records)
  ∧ NoDup (map url (all_products st))
  ∧ existing_urls st = existing ∪ list_to_set (map url (all_products st))
  ∧ (∀ u, length (by_url u (all_products st))
          = if decide ((u ∉ existing) ∧ u ∈ map url records) then 1%nat else 0%nat)
  ∧ dedupe (existing_urls st) records = ([], existing_urls st)
  ∧ scrape_all_pages (existing_urls st) pages = ([], 0%nat)
  ∧ scrape_all_pages existing pages = (all_products st, length (all_products st)).
Proof.
  intros st records.
  assert (st = let '(novel, known') := dedupe existing records in
               {| existing_urls := known'; all_products := novel;
                  new_products_count := length novel |}) as Hst.
  { unfold st, scrape_pages. rewrite scrape_fold. simpl. fold records.
    by destruct (dedupe existing records). }
  destruct (dedupe existing records) as [novel known'] eqn:E.
  destruct (dedupe_spec _ _ _ _ E) as (H1 & H2 & H3 & H4 & H5).
  assert (dedupe known' records = ([], known')) as Hagain
      by (by apply dedupe_known).
  rewrite Hst. simpl. repeat split; try done.
  - by apply H2.
  - by apply H2.
  - unfold scrape_all_pages, scrape_pages. rewrite scrape_fold. simpl.
    fold records. by rewrite Hagain.
  - unfold scrape_all_pages. fold st. by rewrite Hst.
Qed.

(** Two documents with the same card, no identity known: one record; and
    a second run with the updated set yields none. *)
Example dedup_run_two_documents :
  scrape_all_pages ∅ [Html hero_soup; NotFound; Html hero_soup]
  = ([hero_record], 1%nat)
  ∧ scrape_all_pages {[ url hero_record ]} [Html hero_soup; NotFound; Html hero_soup]
    = ([], 0%nat).
Proof. split; by vm_compute. Qed.

(** ** Identity normalization (C6) *)

#[local] Arguments Ascii.eqb _ _ : simpl never.
#[local] Arguments urllib_parse.mem _ _ : simpl never.

Section more_string_facts.
Import pystr.

Lemma all_chars_impl (p q : ascii → bool) (s : string) :
  (∀ c, p c = true → q c = true) → all_chars p s = true → all_chars q s = true.
Proof.
  intros H. induction s as [|c s IH]; simpl; [done|].
  intros [Hc Hs]%andb_true_iff. by rewrite (H c Hc), (IH Hs).
Qed.

Lemma all_chars_remove (p q : ascii → bool) (s : string) :
  all_chars q s = true → all_chars q (remove_chars p s) = true.
Proof.
  induction s as [|c s IH]; simpl; [done|].
  intros [Hc Hs]%andb_true_iff. destruct (p c); simpl; [by apply IH|].
  by rewrite Hc, (IH Hs).
Qed.

Lemma all_chars_lstrip (p q : ascii → bool) (s : string) :
  all_chars q s = true → all_chars q (lstrip p s) = true.
Proof.
  induction s as [|c s IH]; simpl; [done|].
  intros [Hc Hs]%andb_true_iff. destruct (p c); simpl; [by apply IH|].
  by rewrite Hc, Hs.
Qed.

Lemma remove_chars_app (p : ascii → bool) (a b : string) :
  remove_chars p (a +:+ b) = remove_chars p a +:+ remove_chars p b.
Proof.
  induction a as [|c a IH]; simpl; [done|]. rewrite IH. by destruct (p c).
Qed.

Lemma remove_chars_id (p : ascii → bool) (s : string) :
  all_chars (λ c, negb (p c)) s = true → remove_chars p s = s.
Proof.
  induction s as [|c s IH]; simpl; [done|].
  intros [Hc Hs]%andb_true_iff. apply negb_true_iff in Hc.
  by rewrite Hc, (IH Hs).
Qed.

Lemma remove_chars_clean (p : ascii → bool) (s : string) :
  all_chars (λ c, negb (p c)) (remove_chars p s) = true.
Proof.
  induction s as [|c s IH]; simpl; [done|].
  destruct (p c) eqn:Hc; simpl; [done|]. by rewrite Hc, IH.
Qed.

Lemma lstrip_id (p : ascii → bool) (c : ascii) (s : string) :
  p c = false → lstrip p (String c s) = String c s.
Proof. intros H. simpl. by rewrite H. Qed.

Lemma break_parts (p q : ascii → bool) (s a b : string) :
  break p s = (a, b) → all_chars q s = true →
  all_chars q a = true ∧ all_chars q b = true.
Proof.
  intros (-> & _ & _)%break_spec. rewrite all_chars_app.
  by intros ?%andb_true_iff.
Qed.

Lemma break_app_found (p : ascii → bool) (x a b s : string) (c : ascii) :
  break p x = (a, String c b) → break p (x +:+ s) = (a, String c b +:+ s).
Proof.
  intros (-> & Ha & Hc)%break_spec. rewrite str_app_assoc.
  by apply break_unique.
Qed.

Lemma break_none (p : ascii → bool) (x : string) :
  all_chars (λ c, negb (p c)) x = true → break p x = (x, "").
Proof.
  intros H. rewrite <- (str_app_nil_r x) at 1. by apply break_unique.
Qed.

Lemma break_app_none (p : ascii → bool) (x s : string) :
  all_chars (λ c, negb (p c)) x = true →
  break p (x +:+ s) = (x +:+ fst (break p s), snd (break p s)).
Proof.
  intros Hx. destruct (break p s) as [a b] eqn:E. simpl.
  apply break_spec in E as (-> & Ha & Hb).
  rewrite <- str_app_assoc. apply break_unique; [|done].
  by rewrite all_chars_app, Hx, Ha.
Qed.

Lemma break_empty_snd (p : ascii → bool) (x a : string) :
  break p x = (a, "") → a = x ∧ all_chars (λ c, negb (p c)) x = true.
Proof.
  intros (-> & Ha & _)%break_spec. by rewrite str_app_nil_r.
Qed.

Lemma strip_prefix_app (w x r s : string) :
  strip_prefix w x = Some r → strip_prefix w (x +:+ s) = Some (r +:+ s).
Proof.
  intros ->%strip_prefix_Some. apply strip_prefix_Some. by rewrite str_app_assoc.
Qed.

Lemma startswith_false (w s : string) :
  startswith w s = false ↔ strip_prefix w s = None.
Proof. unfold startswith. by destruct (strip_prefix w s). Qed.

Lemma has_char_false (c : ascii) (s : string) :
  has_char c s = false ↔ all_chars (λ d, negb (Ascii.eqb d c)) s = true.
Proof.
  unfold has_char, char_in. rewrite negb_false_iff. done.
Qed.

Lemma has_char_app (c : ascii) (a b : string) :
  has_char c (a +:+ b) = has_char c a || has_char c b.
Proof.
  unfold has_char, char_in. rewrite all_chars_app. by destruct (all_chars _ a).
Qed.

End more_string_facts.

(** Facts about single characters, checked on all of them. *)
Ltac by_chars c :=
  revert c; intros [[] [] [] [] [] [] [] []]; vm_compute; done.

Section urlsplit_facts.
Import pystr urllib_parse.

Lemma mark_not_c0 (c : ascii) :
  char_in "?#" c = true → c0_control_or_space c = false.
Proof. by_chars c. Qed.

Lemma mark_not_unsafe (c : ascii) :
  char_in "?#" c = true → unsafe_url_byte c = false.
Proof. by_chars c. Qed.

Lemma mark_is_delim (c : ascii) :
  char_in "?#" c = true → char_in "/?#" c = true.
Proof. by_chars c. Qed.

Lemma mark_not_colon (c : ascii) :
  char_in "?#" c = true → Ascii.eqb ":" c = false.
Proof. by_chars c. Qed.

Lemma mark_not_slash (c : ascii) :
  char_in "?#" c = true → Ascii.eqb "/" c = false.
Proof. by_chars c. Qed.

Lemma mark_not_scheme_char (c : ascii) :
  char_in "?#" c = true → char_in scheme_chars c = false.
Proof. by_chars c. Qed.

Lemma mark_cases (c : ascii) :
  char_in "?#" c = true → c = "?"%char ∨ c = "#"%char.
Proof.
  revert c; intros [[] [] [] [] [] [] [] []]; vm_compute; try done; auto.
Qed.

Lemma not_mark_cases (c : ascii) :
  negb (char_in "?#" c) = true →
  Ascii.eqb "#" c = false ∧ Ascii.eqb "?" c = false.
Proof. by_chars c. Qed.

Lemma delim_cases (c : ascii) :
  char_in "/?#" c = true → c = "/"%char ∨ char_in "?#" c = true.
Proof.
  revert c; intros [[] [] [] [] [] [] [] []]; vm_compute; try done; auto.
Qed.

Lemma scheme_char_facts (c : ascii) :
  char_in scheme_chars c = true →
  Ascii.eqb ":" c = false ∧ unsafe_url_byte c = false
  ∧ c0_control_or_space c = false ∧ char_in "/?#" c = false
  ∧ char_in scheme_chars (lower_char c) = true
  ∧ lower_char (lower_char c) = lower_char c.
Proof. by_chars c. Qed.

Lemma alpha_lower (c : ascii) :
  is_ascii_alpha c = true → is_ascii_alpha (lower_char c) = true.
Proof. by_chars c. Qed.

Lemma url_tail_remove (s : string) :
  url_tail s → url_tail (remove_chars unsafe_url_byte s).
Proof.
  destruct s as [|c s]; simpl; [done|]. intros Hc.
  by rewrite (mark_not_unsafe c Hc).
Qed.

Lemma lstrip_app_tail (x s : string) :
  url_tail s →
  lstrip c0_control_or_space (x +:+ s) = lstrip c0_control_or_space x +:+ s.
Proof.
  intros Hs. induction x as [|c x IH]; simpl.
  - destruct s as [|c s]; [done|]. simpl in *. by rewrite (mark_not_c0 c Hs).
  - by destruct (c0_control_or_space c).
Qed.

Lemma no_marks_app (a b : string) : no_marks (a +:+ b) ↔ no_marks a ∧ no_marks b.
Proof. unfold no_marks. by rewrite all_chars_app, andb_true_iff. Qed.

(** The scheme of a URL does not depend on its tail. *)
Lemma split_scheme_tail (x s : string) :
  no_marks x → url_tail s →
  split_scheme (x +:+ s)
  = match split_scheme x with
    | Some (sc, rest) => Some (sc, rest +:+ s)
    | None => None
    end.
Proof.
  intros Hx Hs. unfold split_scheme.
  destruct (break (Ascii.eqb ":") x) as [pre rest] eqn:E.
  destruct rest as [|c rest].
  - apply break_empty_snd in E as [-> Hno].
    rewrite (break_app_none _ x s Hno).
    destruct (break (Ascii.eqb ":") s) as [a b] eqn:E2. simpl.
    assert ((match x with "" => None | String _ _ => @None (string * string) end)
            = None) as -> by (by destruct x).
    destruct b as [|c b]; [by destruct (x +:+ a)|].
    destruct s as [|d s]; [done|]. simpl in Hs. cbn [break] in E2.
    rewrite (mark_not_colon d Hs) in E2.
    destruct (break (Ascii.eqb ":") s) as [a' b'] eqn:E3.
    injection E2 as Ha Hb. subst a b'.
    assert (all_chars (char_in scheme_chars) (x +:+ String d a') = false) as Hf.
    { rewrite all_chars_app. simpl. rewrite (mark_not_scheme_char d Hs).
      apply andb_false_r. }
    destruct (x +:+ String d a') as [|e y] eqn:E4; [done|].
    rewrite Hf. by rewrite andb_false_r.
  - rewrite (break_app_found _ x pre rest s c E).
    destruct pre as [|e pre]; [done|]. simpl.
    by destruct (is_ascii_alpha e && _).
Qed.

Lemma split_scheme_Some (x sc rest : string) :
  split_scheme x = Some (sc, rest) →
  ∃ pre, x = pre +:+ ":" +:+ rest ∧ sc = lower pre ∧ scheme_like sc
         ∧ all_chars (char_in scheme_chars) pre = true.
Proof.
  unfold split_scheme.
  destruct (break (Ascii.eqb ":") x) as [pre r] eqn:E.
  apply break_spec in E as (-> & Hpre & Hr).
  destruct pre as [|c pre]; [done|]. destruct r as [|d r]; [done|].
  destruct (is_ascii_alpha c && _) eqn:Hs; [|done].
  apply andb_true_iff in Hs as [Hc Hall]. intros [= <- <-].
  apply Ascii.eqb_eq in Hr. subst d.
  exists (String c pre). split; [done|]. split; [done|]. split; [|done].
  unfold lower. simpl. split; [by apply alpha_lower|]. split.
  - change (all_chars (char_in scheme_chars)
              (map_chars lower_char (String c pre)) = true).
    clear -Hall. induction (String c pre) as [|e y IH]; simpl in *; [done|].
    apply andb_true_iff in Hall as [He Hy].
    destruct (scheme_char_facts e He) as (_ & _ & _ & _ & -> & _). by apply IH.
  - change (map_chars lower_char (map_chars lower_char (String c pre))
            = map_chars lower_char (String c pre)).
    clear -Hall. induction (String c pre) as [|e y IH]; simpl in *; [done|].
    apply andb_true_iff in Hall as [He Hy].
    destruct (scheme_char_facts e He) as (_ & _ & _ & _ & _ & ->). by rewrite IH.
Qed.

(** The netloc of a URL does not depend on its tail. *)
Lemma split_netloc_tail (x s : string) :
  no_marks x → url_tail s →
  split_netloc (x +:+ s) = (fst (split_netloc x), snd (split_netloc x) +:+ s).
Proof.
  intros Hx Hs. unfold split_netloc.
  destruct (strip_prefix "//" x) as [rest|] eqn:E.
  - rewrite (strip_prefix_app _ _ _ s E).
    destruct (break (char_in "/?#") rest) as [a b] eqn:E2. simpl.
    destruct b as [|c b].
    + apply break_empty_snd in E2 as [-> Hno].
      rewrite (break_app_none _ rest s Hno).
      destruct s as [|d s]; simpl; [by rewrite str_app_nil_r|].
      simpl in Hs. rewrite (mark_is_delim d Hs). simpl. by rewrite str_app_nil_r.
    + by rewrite (break_app_found _ rest a b s c E2).
  - destruct (strip_prefix "//" (x +:+ s)) as [r|] eqn:E'; [|done]. exfalso.
    apply strip_prefix_Some in E'.
    destruct x as [|c [|d x]]; simpl in E'.
    + subst s. by vm_compute in Hs.
    + injection E' as -> ->. by vm_compute in Hs.
    + injection E' as -> -> _. by vm_compute in E.
Qed.

(** The path of a URL is what precedes its tail. *)
Lemma split_path_tail (z s : string) :
  no_marks z → url_tail s →
  fst (split_once "?" (fst (split_once "#" (z +:+ s)))) = z.
Proof.
  intros Hz Hs. unfold split_once.
  assert (all_chars (λ c, negb (Ascii.eqb "#" c)) z = true) as Hz1.
  { revert Hz. apply all_chars_impl. intros c Hc.
    by rewrite (proj1 (not_mark_cases c Hc)). }
  assert (all_chars (λ c, negb (Ascii.eqb "?" c)) z = true) as Hz2.
  { revert Hz. apply all_chars_impl. intros c Hc.
    by rewrite (proj2 (not_mark_cases c Hc)). }
  rewrite (break_app_none _ z s Hz1).
  destruct s as [|c s]; simpl.
  - by rewrite str_app_nil_r, (break_none _ z Hz2).
  - simpl in Hs. destruct (mark_cases c Hs) as [-> | ->]; simpl.
    + destruct (break (Ascii.eqb "#") s) as [a b]. simpl.
      assert (break (Ascii.eqb "?") (z +:+ String "?" a) = (z, String "?" a)) as ->;
        [|done].
      by apply break_unique.
    + by rewrite str_app_nil_r, (break_none _ z Hz2).
Qed.

(** [urlsplit] in two steps: the scheme, then the rest. *)
Lemma urlsplit_eq (url d : string) :
  urlsplit url d =
  let x := remove_chars unsafe_url_byte (lstrip c0_control_or_space url) in
  let d' := remove_chars unsafe_url_byte
              (rstrip c0_control_or_space (lstrip c0_control_or_space d)) in
  match split_scheme x with
  | Some (sc, rest) => split_rest sc rest
  | None => split_rest d' x
  end.
Proof.
  unfold urlsplit, split_rest. cbv zeta.
  destruct (split_scheme _) as [[sc rest]|]; simpl;
    destruct (split_netloc _) as [nl rest']; simpl;
    destruct (netloc_ok nl); simpl; try done;
    destruct (split_once "#" rest') as [u f]; simpl;
    by destruct (split_once "?" u).
Qed.

End urlsplit_facts.

Section urlparse_facts.
Import pystr urllib_parse.

Lemma no_marks_remove (x : string) :
  no_marks x → no_marks (remove_chars unsafe_url_byte x).
Proof. apply all_chars_remove. Qed.

Lemma no_marks_lstrip (x : string) :
  no_marks x → no_marks (lstrip c0_control_or_space x).
Proof. apply all_chars_lstrip. Qed.

Lemma split_scheme_no_marks (x sc rest : string) :
  no_marks x → split_scheme x = Some (sc, rest) → no_marks rest.
Proof.
  intros Hx (pre & -> & _)%split_scheme_Some.
  apply no_marks_app in Hx as [_ Hx]. by apply no_marks_app in Hx as [_ Hx].
Qed.

Lemma split_netloc_spec (x nl rest : string) :
  split_netloc x = (nl, rest) →
  no_delims nl
  ∧ (x = nl +:+ rest ∧ nl = "" ∨ x = "//" +:+ nl +:+ rest)
  ∧ (nl ≠ "" → match rest with
                | "" => True
                | String c _ => char_in "/?#" c = true
                end).
Proof.
  unfold split_netloc. destruct (strip_prefix "//" x) as [r|] eqn:E.
  - apply strip_prefix_Some in E as ->.
    intros (-> & Hnl & Hrest)%break_spec. split; [done|]. split; [by right|].
    done.
  - intros [= <- <-]. split; [done|]. split; [by left | done].
Qed.

Lemma split_netloc_no_marks (x : string) :
  no_marks x → no_marks (snd (split_netloc x)).
Proof.
  destruct (split_netloc x) as [nl rest] eqn:E. simpl.
  apply split_netloc_spec in E as (_ & [[-> _]| ->] & _).
  - by intros [_ ?]%no_marks_app.
  - intros [_ H]%no_marks_app. by apply no_marks_app in H as [_ ?].
Qed.

Lemma split_rest_tail (sc y s : string) :
  no_marks y → url_tail s →
  split_core (split_rest sc (y +:+ s)) = split_core (split_rest sc y).
Proof.
  intros Hy Hs. unfold split_rest. cbv zeta.
  rewrite (split_netloc_tail y s Hy Hs). simpl.
  destruct (netloc_ok _); simpl; [|done].
  rewrite (split_path_tail _ s (split_netloc_no_marks y Hy) Hs).
  rewrite <- (str_app_nil_r (snd (split_netloc y))) at 2.
  by rewrite (split_path_tail _ "" (split_netloc_no_marks y Hy) I).
Qed.

(** The parts of a split URL before its query do not depend on its tail. *)
Lemma urlsplit_tail (p s d : string) :
  no_marks p → url_tail s →
  split_core (urlsplit (p +:+ s) d) = split_core (urlsplit p d).
Proof.
  intros Hp Hs. rewrite !urlsplit_eq. cbv zeta.
  rewrite (lstrip_app_tail p s Hs), remove_chars_app.
  set (x := remove_chars unsafe_url_byte (lstrip c0_control_or_space p)).
  set (s' := remove_chars unsafe_url_byte s).
  assert (no_marks x) as Hx by (by apply no_marks_remove, no_marks_lstrip).
  assert (url_tail s') as Hs' by (by apply url_tail_remove).
  rewrite (split_scheme_tail x s' Hx Hs').
  destruct (split_scheme x) as [[sc rest]|] eqn:E.
  - apply split_rest_tail; [|done]. by apply (split_scheme_no_marks x sc rest).
  - by apply split_rest_tail.
Qed.

Lemma split_once_spec (c : ascii) (x : string) :
  ∃ tl, x = fst (split_once c x) +:+ tl
        ∧ all_chars (λ d, negb (Ascii.eqb c d)) (fst (split_once c x)) = true
        ∧ match tl with
          | "" => snd (split_once c x) = ""
          | String d tl' => d = c ∧ snd (split_once c x) = tl'
          end.
Proof.
  unfold split_once. destruct (break (Ascii.eqb c) x) as [a b] eqn:E. simpl.
  apply break_spec in E as (-> & Ha & Hb). exists b. split; [done|].
  split; [done|]. destruct b as [|d b]; [done|].
  apply Ascii.eqb_eq in Hb. by subst d.
Qed.

(** The path is what precedes the query and the fragment. *)
Lemma path_of_rest (rest : string) :
  ∃ tl, rest = fst (split_once "?" (fst (split_once "#" rest))) +:+ tl
        ∧ no_marks (fst (split_once "?" (fst (split_once "#" rest))))
        ∧ url_tail tl.
Proof.
  destruct (split_once_spec "#" rest) as (t1 & H1 & Ha & Ht1).
  set (a := fst (split_once "#" rest)) in *.
  destruct (split_once_spec "?" a) as (t2 & H2 & Hb & Ht2).
  set (b := fst (split_once "?" a)) in *.
  exists (t2 +:+ t1). split; [by rewrite <- str_app_assoc, <- H2|]. split.
  - rewrite H2, all_chars_app in Ha. apply andb_true_iff in Ha as [Ha _].
    unfold no_marks. clear -Ha Hb. induction b as [|c b IH]; simpl in *; [done|].
    apply andb_true_iff in Ha as [Ha1 Ha2]. apply andb_true_iff in Hb as [Hb1 Hb2].
    rewrite (IH Ha2 Hb2), andb_true_r.
    apply negb_true_iff in Ha1, Hb1. apply Ascii.eqb_neq in Ha1, Hb1.
    destruct (char_in "?#" c) eqn:Hc; [|done].
    destruct (mark_cases c Hc); congruence.
  - destruct t2 as [|d t2]; simpl.
    + destruct t1 as [|d t1]; [done|]. simpl. destruct Ht1 as [-> _]. done.
    + destruct Ht2 as [-> _]. done.
Qed.

Lemma no_unsafe_app (a b : string) : no_unsafe (a +:+ b) ↔ no_unsafe a ∧ no_unsafe b.
Proof. unfold no_unsafe. by rewrite all_chars_app, andb_true_iff. Qed.

Lemma starts_with_slash (x : string) :
  startswith "/" x = true ↔ ∃ x', x = String "/" x'.
Proof.
  rewrite startswith_true. split; intros [r ->]; by exists r.
Qed.

Lemma split_rest_inv (sc url : string) (r : SplitResult) :
  no_unsafe url → split_rest sc url = Ok r →
  s_scheme r = sc
  ∧ netloc_ok (s_netloc r) = true ∧ no_delims (s_netloc r)
  ∧ no_unsafe (s_netloc r)
  ∧ no_marks (s_path r) ∧ no_unsafe (s_path r)
  ∧ (s_netloc r ≠ "" → s_path r = "" ∨ startswith "/" (s_path r) = true).
Proof.
  intros Hu. unfold split_rest. cbv zeta.
  destruct (split_netloc url) as [nl rest] eqn:E. simpl.
  destruct (netloc_ok nl) eqn:Hok; simpl; [|done]. intros [= <-]. simpl.
  apply split_netloc_spec in E as (Hnl & Hurl & Hrest).
  destruct (path_of_rest rest) as (tl & Htl & Hpath & Htail).
  set (pa := fst (split_once "?" (fst (split_once "#" rest)))) in *.
  assert (no_unsafe nl ∧ no_unsafe rest) as [Hnu Hru].
  { destruct Hurl as [[-> _]| ->].
    - by apply no_unsafe_app in Hu.
    - apply no_unsafe_app in Hu as [_ Hu]. by apply no_unsafe_app in Hu. }
  split; [done|]. split; [done|]. split; [done|]. split; [done|].
  split; [done|]. split.
  { rewrite Htl in Hru. by apply no_unsafe_app in Hru as [? _]. }
  intros Hne. specialize (Hrest Hne).
  destruct pa as [|c pa']; [by left|]. right.
  rewrite Htl in Hrest. simpl in Hrest.
  destruct (delim_cases c Hrest) as [->|Hc]; [done|].
  exfalso. unfold no_marks in Hpath. simpl in Hpath. by rewrite Hc in Hpath.
Qed.

Lemma rbreak_slash_None (x : string) :
  rbreak_slash x = None ↔ has_char "/" x = false.
Proof.
  rewrite has_char_false.
  induction x as [|c x IH]; simpl; [done|].
  destruct (rbreak_slash x) as [[a b]|].
  - split; [done|]. intros [_ H]%andb_true_iff.
    by apply IH in H.
  - destruct (Ascii.eqb_spec c "/") as [->|Hc].
    + split; [done|]. by intros [? _]%andb_true_iff.
    + split; [|done]. intros _. apply andb_true_iff. split; [done | by apply IH].
Qed.

Lemma rbreak_slash_Some (x dir last : string) :
  rbreak_slash x = Some (dir, last) ↔
  ∃ seg, x = dir +:+ last ∧ last = String "/" seg ∧ has_char "/" seg = false.
Proof.
  revert dir last. induction x as [|c x IH]; intros dir last; simpl.
  - split; [done|]. intros (seg & H & -> & _). by destruct dir.
  - destruct (rbreak_slash x) as [[a b]|] eqn:E.
    + split.
      * intros [= <- <-]. destruct (proj1 (IH a b) eq_refl) as (seg & -> & -> & Hs).
        by exists seg.
      * intros (seg & H & -> & Hs). destruct dir as [|d dir]; simpl in H.
        -- injection H as -> ->. apply rbreak_slash_None in Hs. congruence.
        -- injection H as -> ->.
           assert (Some (a, b) = Some (dir, String "/" seg)) as [= -> ->]; [|done].
           apply IH. by exists seg.
    + apply rbreak_slash_None in E. split.
      * destruct (Ascii.eqb_spec c "/") as [->|Hc]; [|done].
        intros [= <- <-]. by exists x.
      * intros (seg & H & -> & Hs). destruct dir as [|d dir]; simpl in H.
        -- injection H as -> ->. by rewrite Ascii.eqb_refl.
        -- injection H as -> ->. rewrite has_char_app in E. simpl in E.
           apply orb_false_iff in E as [_ E]. by vm_compute in E.
Qed.

Lemma last_part_suffix (a b : string) :
  last_part (a +:+ String "/" b) = last_part (String "/" b).
Proof.
  unfold last_part.
  destruct (rbreak_slash (String "/" b)) as [[dir last]|] eqn:E.
  - apply rbreak_slash_Some in E as (seg & Hx & -> & Hs).
    assert (rbreak_slash (a +:+ String "/" b) = Some (a +:+ dir, String "/" seg))
      as ->; [|done].
    apply rbreak_slash_Some. exists seg. by rewrite Hx, str_app_assoc.
  - apply rbreak_slash_None in E. by vm_compute in E.
Qed.

Lemma last_part_no_slash (x : string) : has_char "/" x = false → last_part x = x.
Proof. intros H%rbreak_slash_None. unfold last_part. by rewrite H. Qed.

(** What [_splitparams] keeps has no parameters left. *)
Lemma splitparams_spec (x : string) :
  ∃ tl, x = fst (_splitparams x) +:+ tl ∧ no_params (fst (_splitparams x)).
Proof.
  unfold _splitparams, no_params.
  destruct (rbreak_slash x) as [[dir last]|] eqn:E.
  - apply rbreak_slash_Some in E as (seg & -> & -> & Hs).
    destruct (break (Ascii.eqb ";") (String "/" seg)) as [a b] eqn:E2.
    pose proof E2 as (Heq & Ha & Hb)%break_spec.
    destruct b as [|c b]; simpl.
    + exists "". rewrite str_app_nil_r. split; [done|].
      rewrite last_part_suffix.
      assert (last_part (String "/" seg) = String "/" seg) as ->.
      { unfold last_part.
        assert (rbreak_slash (String "/" seg) = Some ("", String "/" seg)) as ->;
          [|done].
        apply rbreak_slash_Some. by exists seg. }
      rewrite str_app_nil_r in Heq. rewrite Heq.
      apply has_char_false. revert Ha. apply all_chars_impl.
      intros d Hd. by rewrite Ascii.eqb_sym.
    + exists (String c b). rewrite str_app_assoc, <- Heq. split; [done|].
      destruct a as [|d a].
      { simpl in Heq. injection Heq as <- _. by vm_compute in Hb. }
      simpl in Heq. injection Heq as <- Heq.
      rewrite last_part_suffix.
      assert (has_char "/" a = false) as Hsa.
      { rewrite Heq, has_char_app in Hs. by apply orb_false_iff in Hs as [? _]. }
      assert (last_part (String "/" a) = String "/" a) as ->.
      { unfold last_part.
        assert (rbreak_slash (String "/" a) = Some ("", String "/" a)) as ->;
          [|done].
        apply rbreak_slash_Some. by exists a. }
      apply has_char_false. revert Ha. apply all_chars_impl.
      intros e He. by rewrite Ascii.eqb_sym.
  - apply rbreak_slash_None in E. destruct (split_once_spec ";" x) as (tl & H1 & H2 & _).
    exists tl. split; [done|].
    rewrite last_part_no_slash.
    + apply has_char_false. revert H2. apply all_chars_impl.
      intros e He. by rewrite Ascii.eqb_sym.
    + rewrite H1, has_char_app in E. by apply orb_false_iff in E as [? _].
Qed.

(** A path without parameters is left whole. *)
Lemma splitparams_id (x : string) : no_params x → _splitparams x = (x, "").
Proof.
  unfold _splitparams, no_params, last_part.
  destruct (rbreak_slash x) as [[dir last]|] eqn:E.
  - intros H. apply has_char_false in H.
    rewrite (break_none (Ascii.eqb ";") last); [done|].
    revert H. apply all_chars_impl. intros e He. by rewrite Ascii.eqb_sym.
  - intros H. apply has_char_false in H. unfold split_once.
    rewrite (break_none (Ascii.eqb ";") x); [done|].
    revert H. apply all_chars_impl. intros e He. by rewrite Ascii.eqb_sym.
Qed.

Lemma urlparse_eq (url d : string) :
  urlparse url d =
  match urlsplit url d with
  | Ok r => Ok (with_params r)
  | ValueError => ValueError
  end.
Proof.
  unfold urlparse, with_params. destruct (urlsplit url d) as [r|]; simpl; [|done].
  destruct (mem _ _ && has_char _ _); [|done]. by destruct (_splitparams _).
Qed.

Lemma last_part_sub (x : string) : ∃ d, x = d +:+ last_part x.
Proof.
  unfold last_part. destruct (rbreak_slash x) as [[dir last]|] eqn:E.
  - apply rbreak_slash_Some in E as (seg & -> & _). by exists dir.
  - by exists "".
Qed.

Lemma with_params_spec (r : SplitResult) :
  scheme (with_params r) = s_scheme r
  ∧ netloc (with_params r) = s_netloc r
  ∧ query (with_params r) = s_query r
  ∧ fragment (with_params r) = s_fragment r
  ∧ (s_path r = path (with_params r) ∧ params (with_params r) = ""
     ∨ s_path r = path (with_params r) +:+ ";" +:+ params (with_params r))
  ∧ (mem (s_scheme r) uses_params = true → no_params (path (with_params r))).
Proof.
  unfold with_params.
  destruct (mem (s_scheme r) uses_params) eqn:Hm; simpl.
  - destruct (has_char ";" (s_path r)) eqn:Hc.
    + destruct (splitparams_spec (s_path r)) as (tl & Htl & Hnp).
      destruct (_splitparams (s_path r)) as [a b] eqn:E. simpl in *.
      repeat split; try done.
      revert E. unfold _splitparams.
      destruct (rbreak_slash (s_path r)) as [[dir last]|] eqn:E2.
      * apply rbreak_slash_Some in E2 as (seg & Hp & _).
        destruct (break (Ascii.eqb ";") last) as [a' b'] eqn:E3.
        apply break_spec in E3 as (-> & _ & Hb').
        destruct b' as [|c b']; intros [= <- <-]; [by left|].
        apply Ascii.eqb_eq in Hb'. subst c. right.
        by rewrite Hp, str_app_assoc.
      * unfold split_once. destruct (break (Ascii.eqb ";") (s_path r)) as [a' b'] eqn:E3.
        apply break_spec in E3 as (Hp & _ & Hb').
        destruct b' as [|c b']; intros [= <- <-].
        -- left. by rewrite Hp, str_app_nil_r.
        -- apply Ascii.eqb_eq in Hb'. subst c. by right.
    + simpl. repeat split; try done; [by left|]. intros _. unfold no_params.
      destruct (last_part_sub (s_path r)) as (d & Hd).
      rewrite Hd, has_char_app in Hc. by apply orb_false_iff in Hc as [_ ?].
  - simpl. repeat split; try done. by left.
Qed.

Lemma prefix_starts_with_slash (x a tl : string) :
  x = a +:+ tl → x = "" ∨ startswith "/" x = true →
  a = "" ∨ startswith "/" a = true.
Proof.
  intros -> [H|H].
  - apply str_app_eq_nil in H as [-> _]. by left.
  - destruct a as [|c a]; [by left|]. right.
    apply starts_with_slash in H as (x' & H). simpl in H. injection H as -> _.
    apply starts_with_slash. by exists a.
Qed.

(** The scheme [urlsplit] returns: one it found, or the default. *)
Lemma urlsplit_scheme (url d : string) (r : SplitResult) :
  urlsplit url d = Ok r →
  scheme_like (s_scheme r)
  ∨ s_scheme r = remove_chars unsafe_url_byte
                   (rstrip c0_control_or_space (lstrip c0_control_or_space d)).
Proof.
  rewrite urlsplit_eq. cbv zeta.
  destruct (split_scheme _) as [[sc rest]|] eqn:E.
  - apply split_scheme_Some in E as (pre & Hx & -> & Hsl & _).
    unfold split_rest. cbv zeta. destruct (negb _); [done|].
    intros [= <-]. by left.
  - unfold split_rest. cbv zeta. destruct (negb _); [done|].
    intros [= <-]. by right.
Qed.

Lemma urlparse_inv (url d : string) (p : ParseResult) :
  urlparse url d = Ok p →
  parsed_ok p
  ∧ (scheme_like (scheme p)
     ∨ scheme p = remove_chars unsafe_url_byte
                    (rstrip c0_control_or_space (lstrip c0_control_or_space d))).
Proof.
  rewrite urlparse_eq. destruct (urlsplit url d) as [r|] eqn:E; [|done].
  intros [= <-].
  destruct (with_params_spec r) as (Hsc & Hnl & _ & _ & Hpath & Hnp).
  split; [|rewrite Hsc; by apply (urlsplit_scheme url d)].
  assert (∃ sc x, no_unsafe x ∧ split_rest sc x = Ok r) as (sc & x & Hx & Hr).
  { rewrite urlsplit_eq in E. cbv zeta in E.
    set (y := remove_chars unsafe_url_byte _) in E.
    assert (no_unsafe y) as Hy by apply remove_chars_clean.
    destruct (split_scheme y) as [[sc rest]|] eqn:E2.
    - exists sc, rest. split; [|done].
      apply split_scheme_Some in E2 as (pre & Hpre & _).
      rewrite Hpre in Hy. apply no_unsafe_app in Hy as [_ Hy].
      by apply no_unsafe_app in Hy as [_ Hy].
    - by eexists _, y. }
  destruct (split_rest_inv sc x r Hx Hr) as (_ & H1 & H2 & H3 & H4 & H5 & H6).
  unfold parsed_ok. rewrite Hsc, Hnl.
  assert (∃ tl, s_path r = path (with_params r) +:+ tl
                ∧ no_marks (params (with_params r))) as (tl & Htl & Hpm).
  { destruct Hpath as [[Hp ->]|Hp].
    - exists "". by rewrite str_app_nil_r.
    - eexists. split; [exact Hp|]. rewrite Hp in H4.
      apply no_marks_app in H4 as [_ H4]. by apply no_marks_app in H4 as [_ H4]. }
  rewrite Htl in H4, H5. apply no_marks_app in H4 as [H4 _].
  apply no_unsafe_app in H5 as [H5 _].
  repeat split; try done.
  intros Hne. apply (prefix_starts_with_slash (s_path r) _ tl Htl).
  destruct (H6 Hne) as [->|?]; [by left | by right].
Qed.

(** The scheme, netloc, path and parameters of a URL do not depend on its
    tail. *)
Lemma urlparse_tail (p s d : string) :
  no_marks p → url_tail s →
  parse_core (urlparse (p +:+ s) d) = parse_core (urlparse p d).
Proof.
  intros Hp Hs. rewrite !urlparse_eq.
  pose proof (urlsplit_tail p s d Hp Hs) as H.
  destruct (urlsplit (p +:+ s) d) as [r1|], (urlsplit p d) as [r2|];
    simpl in *; try done.
  injection H as H1 H2 H3. unfold with_params. rewrite H1, H2, H3.
  destruct (mem _ _ && has_char _ _); [|done]. by destruct (_splitparams _).
Qed.

Lemma alpha_not_c0 (c : ascii) :
  is_ascii_alpha c = true → c0_control_or_space c = false.
Proof. by_chars c. Qed.

Lemma scheme_like_facts (sc : string) :
  scheme_like sc →
  sc ≠ "" ∧ lower sc = sc
  ∧ all_chars (char_in scheme_chars) sc = true
  ∧ all_chars (λ c, negb (Ascii.eqb ":" c)) sc = true
  ∧ no_unsafe sc ∧ no_marks sc
  ∧ ∀ rest, lstrip c0_control_or_space (sc +:+ rest) = sc +:+ rest.
Proof.
  destruct sc as [|c sc]; [done|]. intros (Hc & Hall & Hlow).
  split; [done|]. split; [done|]. split; [done|].
  split; [|split; [|split]].
  - revert Hall. apply all_chars_impl. intros d Hd.
    by destruct (scheme_char_facts d Hd) as (-> & _).
  - revert Hall. apply all_chars_impl. intros d Hd.
    by destruct (scheme_char_facts d Hd) as (_ & -> & _).
  - revert Hall. apply all_chars_impl. intros d Hd.
    destruct (scheme_char_facts d Hd) as (_ & _ & _ & H & _).
    destruct (char_in "?#" d) eqn:E; [|done].
    by rewrite (mark_is_delim d E) in H.
  - intros rest. simpl. by rewrite (alpha_not_c0 c Hc).
Qed.

Lemma split_scheme_found (sc rest : string) :
  scheme_like sc → split_scheme (sc +:+ String ":" rest) = Some (sc, rest).
Proof.
  intros Hsc. pose proof Hsc as (Hne & Hlow & Hall & Hcol & _)%scheme_like_facts.
  unfold split_scheme.
  rewrite (break_unique (Ascii.eqb ":") sc (String ":" rest) Hcol eq_refl).
  destruct sc as [|c sc]; [done|]. simpl.
  destruct Hsc as (Hc & _ & _). rewrite Hc. simpl in Hall. rewrite Hall. simpl.
  by rewrite Hlow.
Qed.

Lemma split_once_none (c : ascii) (x : string) :
  all_chars (λ d, negb (Ascii.eqb c d)) x = true → split_once c x = (x, "").
Proof. intros H. unfold split_once. by rewrite (break_none _ x H). Qed.

Lemma no_marks_split (x : string) :
  no_marks x →
  split_once "#" x = (x, "") ∧ split_once "?" x = (x, "").
Proof.
  intros Hx. split; apply split_once_none; revert Hx; apply all_chars_impl;
    intros c Hc; destruct (not_mark_cases c Hc) as [H1 H2].
  - by rewrite H1.
  - by rewrite H2.
Qed.

Lemma delim_not_mark_is_slash (c : ascii) :
  char_in "/?#" c = true → negb (char_in "?#" c) = true → c = "/"%char.
Proof.
  intros H1 H2. destruct (delim_cases c H1) as [->|H]; [done|]. by rewrite H in H2.
Qed.

(** What follows the netloc when an identity is read again: nothing, or a
    path from its first slash on. *)
Lemma break_path (pa : string) :
  no_marks pa →
  ∃ a pa', break (char_in "/?#") pa = (a, pa') ∧ pa = a +:+ pa'
           ∧ no_delims a ∧ no_marks pa'
           ∧ (pa' = "" ∨ ∃ b, pa' = String "/" b)
           ∧ last_part pa' = (if nonempty pa' then last_part pa else "")
           ∧ (pa = "" ∨ startswith "/" pa = true → a = "" ∧ pa' = pa).
Proof.
  intros Hpa. destruct (break (char_in "/?#") pa) as [a pa'] eqn:E.
  exists a, pa'. split; [done|].
  pose proof E as (-> & Ha & Hb)%break_spec.
  apply no_marks_app in Hpa as [Hpa1 Hpa2].
  split; [done|]. split; [done|]. split; [done|].
  assert (pa' = "" ∨ ∃ b, pa' = String "/" b) as Hshape.
  { destruct pa' as [|c b]; [by left|]. right. exists b.
    unfold no_marks in Hpa2. simpl in Hpa2.
    apply andb_true_iff in Hpa2 as [Hc _].
    by rewrite (delim_not_mark_is_slash c Hb Hc). }
  split; [done|]. split.
  - destruct Hshape as [->|(b & ->)]; [done|]. simpl. by rewrite last_part_suffix.
  - intros [H|H].
    + apply str_app_eq_nil in H as [-> ->]. done.
    + destruct a as [|c a]; [done|]. exfalso.
      apply starts_with_slash in H as (x' & H). simpl in H. injection H as -> _.
      unfold no_delims in Ha. simpl in Ha. by vm_compute in Ha.
Qed.

(** Reading an identity [sc://nl+pa] again. *)
Lemma parse_identity (sc nl pa d : string) :
  scheme_like sc → no_delims nl → no_unsafe nl → no_marks pa → no_unsafe pa →
  (mem sc uses_params = true → no_params pa) →
  urlparse (sc +:+ "://" +:+ nl +:+ pa) d
  = if netloc_ok (nl +:+ fst (break (char_in "/?#") pa))
    then Ok {| scheme := sc;
               netloc := nl +:+ fst (break (char_in "/?#") pa);
               path := snd (break (char_in "/?#") pa);
               params := ""; query := ""; fragment := "" |}
    else ValueError.
Proof.
  intros Hsc Hnl Hnlu Hpa Hpau Hnp.
  pose proof Hsc as (Hne & Hlow & Hall & Hcol & Hscu & Hscm & Hstrip)%scheme_like_facts.
  destruct (break_path pa Hpa) as (a & pa' & E & Heq & Ha & Hpa' & Hshape & Hlast & _).
  rewrite E. simpl.
  rewrite urlparse_eq, urlsplit_eq. cbv zeta.
  rewrite Hstrip.
  rewrite remove_chars_id.
  2:{ apply no_unsafe_app. split; [done|]. apply (no_unsafe_app "://").
      split; [done|]. by apply no_unsafe_app. }
  simpl. rewrite (split_scheme_found sc _ Hsc).
  unfold split_rest. cbv zeta.
  assert (split_netloc (String "/" (String "/" (nl +:+ pa))) = (nl +:+ a, pa'))
    as ->.
  { assert (strip_prefix "//" (String "/" (String "/" (nl +:+ pa)))
            = Some (nl +:+ pa)) as Hsp by (by apply strip_prefix_Some).
    unfold split_netloc. rewrite Hsp.
    rewrite (break_app_none _ nl pa Hnl). by rewrite E. }
  simpl. destruct (netloc_ok (nl +:+ a)); simpl; [|done].
  destruct (no_marks_split pa' Hpa') as [H1 H2]. rewrite H1. simpl.
  rewrite H2. simpl. unfold with_params. simpl.
  destruct (mem sc uses_params) eqn:Hm; simpl; [|done].
  destruct (has_char ";" pa') eqn:Hc; [|done].
  rewrite splitparams_id; [done|].
  unfold no_params. rewrite Hlast. destruct (nonempty pa'); [by apply Hnp | done].
Qed.

Lemma base_parsed :
  urlparse base_url ""
  = Ok {| scheme := "https"; netloc := "www.target.com"; path := "";
          params := ""; query := ""; fragment := "" |}.
Proof. by vm_compute. Qed.

(** [urljoin] on the base origin of the scraper. *)
Lemma urljoin_base (h : string) :
  h ≠ "" →
  urljoin base_url h
  = match urlparse h "https" with
    | ValueError => ValueError
    | Ok u =>
        if String.eqb (scheme u) "https"
        then Ok (urlunparse (joined u))
        else Ok h
    end.
Proof.
  intros Hh%nonempty_true. unfold urljoin.
  change (nonempty base_url) with true. rewrite Hh. cbn [negb].
  rewrite base_parsed. simpl.
  destruct (urlparse h "https") as [u|]; simpl; [|done].
  destruct (String.eqb_spec (scheme u) "https") as [Hs|Hs]; simpl; [|done].
  unfold joined. rewrite Hs.
  change (mem "https" uses_relative) with true.
  change (mem "https" uses_netloc) with true. simpl.
  destruct (nonempty (netloc u)); simpl.
  - destruct u; simpl in *. by subst.
  - destruct (negb (nonempty (path u)) && negb (nonempty (params u))); [done|].
    done.
Qed.

Lemma clean_url_of_eq (h : string) :
  h ≠ "" →
  clean_url_of h
  = match urlparse h "https" with
    | ValueError => ValueError
    | Ok u =>
        match urlparse (if String.eqb (scheme u) "https"
                        then urlunparse (joined u) else h) "" with
        | Ok p => Ok (identity_of p)
        | ValueError => ValueError
        end
    end.
Proof.
  intros Hh. unfold clean_url_of. rewrite (urljoin_base h Hh).
  destruct (urlparse h "https") as [u|]; simpl; [|done].
  destruct (String.eqb (scheme u) "https"); simpl;
    by destruct (urlparse _ "").
Qed.

(** Normalizing an identity again: it is read back as it was written,
    unless its netloc is refused. *)
Lemma renormalize (p : ParseResult) :
  parsed_ok p → scheme_like (scheme p) →
  (scheme p = "https" → netloc p ≠ "") →
  (clean_url_of (identity_of p) = Ok (identity_of p)
   ∨ clean_url_of (identity_of p) = ValueError)
  ∧ (netloc p ≠ "" ∨ path p = "" ∨ startswith "/" (path p) = true →
     clean_url_of (identity_of p) = Ok (identity_of p)).
Proof.
  intros (Hok & Hnl & Hnlu & Hpa & Hpau & _ & Hslash & Hnp) Hsc Hhttps.
  unfold identity_of.
  set (sc := scheme p) in *. set (nl := netloc p) in *. set (pa := path p) in *.
  destruct (break_path pa Hpa) as (a & pa' & E & Heq & Ha & Hpa' & Hshape & _ & Hid).
  assert (sc +:+ "://" +:+ nl +:+ pa ≠ "") as Hne.
  { destruct sc; [done | discriminate]. }
  assert (sc +:+ "://" +:+ (nl +:+ a) +:+ pa' = sc +:+ "://" +:+ nl +:+ pa) as Hu.
  { by rewrite Heq, (str_app_assoc nl a pa'). }
  rewrite (clean_url_of_eq _ Hne).
  rewrite !(parse_identity sc nl pa _ Hsc Hnl Hnlu Hpa Hpau Hnp).
  rewrite E. simpl.
  assert (netloc_ok (nl +:+ a) = true →
          match
            urlparse
              (if String.eqb sc "https"
               then urlunparse
                      (joined {| scheme := sc; netloc := nl +:+ a; path := pa';
                                 params := ""; query := ""; fragment := "" |})
               else sc +:+ "://" +:+ nl +:+ pa) ""
          with
          | Ok p0 => Ok (identity_of p0)
          | ValueError => ValueError
          end = Ok (sc +:+ "://" +:+ nl +:+ pa)) as Hmain.
  { intros Hok'.
    assert ((if String.eqb sc "https"
             then urlunparse
                    (joined {| scheme := sc; netloc := nl +:+ a; path := pa';
                               params := ""; query := ""; fragment := "" |})
             else sc +:+ "://" +:+ nl +:+ pa) = sc +:+ "://" +:+ nl +:+ pa) as ->.
    { destruct (String.eqb_spec sc "https") as [Hs|Hs]; [|done].
      assert (nonempty (nl +:+ a) = true) as Hnn.
      { apply nonempty_true. intros [H _]%str_app_eq_nil. by apply Hhttps. }
      unfold joined. simpl. rewrite Hnn.
      unfold urlunparse, urlunsplit. simpl. rewrite Hnn. simpl.
      assert (nonempty sc = true) as -> by (rewrite Hs; done).
      assert ((if nonempty pa' && negb (startswith "/" pa')
               then String "/" pa' else pa') = pa') as ->.
      { destruct Hshape as [->|(b & ->)]; [done|].
        rewrite (proj2 (starts_with_slash (String "/" b))); [done | by exists b]. }
      by rewrite Heq, (str_app_assoc nl a pa'). }
    rewrite (parse_identity sc nl pa _ Hsc Hnl Hnlu Hpa Hpau Hnp).
    rewrite E. simpl. rewrite Hok'. unfold identity_of. simpl.
    by rewrite Heq, (str_app_assoc nl a pa'). }
  split.
  - destruct (netloc_ok (nl +:+ a)) eqn:Hok'; [left; by apply Hmain | by right].
  - intros Hcase.
    assert (netloc_ok (nl +:+ a) = true) as Hok'.
    { assert (a = "") as ->.
      { destruct (decide (nl = "")) as [Hn|Hn].
        - destruct Hcase as [?|Hcase]; [done|]. by apply Hid.
        - by apply Hid, Hslash. }
      by rewrite str_app_nil_r. }
    rewrite Hok'. by apply Hmain.
Qed.

Lemma delim_not_unsafe (c : ascii) :
  char_in "/?#" c = true → unsafe_url_byte c = false.
Proof. by_chars c. Qed.

Lemma after_netloc_app (a b : string) :
  after_netloc a → after_netloc b → after_netloc (a +:+ b).
Proof. by destruct a. Qed.

Lemma url_tail_after_netloc (t : string) : url_tail t → after_netloc t.
Proof. destruct t as [|c t]; [done|]. apply mark_is_delim. Qed.

Lemma unparse_tail_url_tail (q f : string) : url_tail (unparse_tail q f).
Proof.
  unfold unparse_tail. destruct (nonempty q); [done|].
  by destruct (nonempty f).
Qed.

(** A URL written by [urlunparse] with the scheme https and a netloc. *)
Lemma urlunparse_shape (r : ParseResult) :
  scheme r = "https" → netloc r ≠ "" →
  ∃ rest, urlunparse r = "https://" +:+ netloc r +:+ rest ∧ after_netloc rest.
Proof.
  intros Hs Hn%nonempty_true. unfold urlunparse, urlunsplit. simpl.
  rewrite Hs, Hn. simpl.
  set (url := if nonempty (params r) then _ else _).
  set (url' := if nonempty url && negb (startswith "/" url) then _ else _).
  assert (after_netloc url') as Hurl.
  { unfold url'. destruct url as [|c url]; [done|]. simpl.
    destruct (startswith "/" (String c url)) eqn:E; simpl; [|done].
    apply starts_with_slash in E as (x & [= -> _]). done. }
  exists (url' +:+ unparse_tail (query r) (fragment r)). split.
  - unfold unparse_tail.
    destruct (nonempty (query r)), (nonempty (fragment r)); simpl;
      rewrite ?str_app_assoc, ?str_app_nil_r; simpl; done.
  - apply after_netloc_app; [done|].
    apply url_tail_after_netloc, unparse_tail_url_tail.
Qed.

(** Reading such a URL gives back its scheme and its netloc. *)
Lemma parse_head (nl rest d : string) (p : ParseResult) :
  no_delims nl → no_unsafe nl → after_netloc rest →
  urlparse ("https://" +:+ nl +:+ rest) d = Ok p →
  scheme p = "https" ∧ netloc p = nl.
Proof.
  intros Hnl Hnlu Hrest. rewrite urlparse_eq, urlsplit_eq. cbv zeta.
  assert (lstrip c0_control_or_space ("https://" +:+ nl +:+ rest)
          = "https" +:+ String ":" ("//" +:+ nl +:+ rest)) as -> by done.
  rewrite remove_chars_app.
  change (remove_chars unsafe_url_byte "https") with "https".
  change (String ":" ("//" +:+ nl +:+ rest)) with ("://" +:+ nl +:+ rest).
  rewrite (remove_chars_app _ "://"), (remove_chars_app _ nl).
  change (remove_chars unsafe_url_byte "://") with "://".
  rewrite (remove_chars_id _ nl Hnlu).
  set (rest' := remove_chars unsafe_url_byte rest).
  assert (after_netloc rest') as Hrest'.
  { unfold rest'. destruct rest as [|c rest]; [done|]. simpl in *.
    by rewrite (delim_not_unsafe c Hrest). }
  change ("https" +:+ "://" +:+ nl +:+ rest')
    with ("https" +:+ String ":" ("//" +:+ nl +:+ rest')).
  rewrite (split_scheme_found "https"); [|done].
  unfold split_rest. cbv zeta.
  assert (split_netloc ("//" +:+ nl +:+ rest') = (nl, rest')) as ->.
  { assert (strip_prefix "//" ("//" +:+ nl +:+ rest') = Some (nl +:+ rest'))
      as Hsp by (by apply strip_prefix_Some).
    unfold split_netloc. rewrite Hsp. by apply break_unique. }
  simpl. destruct (netloc_ok nl); simpl; [|done]. intros [= <-].
  by destruct (with_params_spec
                 {| s_scheme := "https"; s_netloc := nl;
                    s_path := fst (split_once "?" (fst (split_once "#" rest')));
                    s_query := snd (split_once "?" (fst (split_once "#" rest')));
                    s_fragment := snd (split_once "#" rest') |}) as (-> & -> & _).
Qed.

(** A scheme that is not the default was found in the URL, whatever the
    default. *)
Lemma urlparse_default (h d1 d2 : string) (u p : ParseResult) :
  urlparse h d1 = Ok u → urlparse h d2 = Ok p →
  scheme u ≠ remove_chars unsafe_url_byte
               (rstrip c0_control_or_space (lstrip c0_control_or_space d1)) →
  scheme p = scheme u ∧ scheme_like (scheme u).
Proof.
  rewrite !urlparse_eq, !urlsplit_eq. cbv zeta.
  destruct (split_scheme _) as [[sc rest]|] eqn:E.
  - apply split_scheme_Some in E as (_ & _ & _ & Hsl & _).
    unfold split_rest. cbv zeta. destruct (negb _); [done|].
    intros [= <-] [= <-] _.
    by rewrite !(proj1 (with_params_spec _)).
  - unfold split_rest. cbv zeta. destruct (negb _); [done|].
    intros [= <-] _ Hne. by rewrite (proj1 (with_params_spec _)) in Hne.
Qed.

Lemma joined_facts (u : ParseResult) :
  parsed_ok u →
  scheme (joined u) = scheme u ∧ netloc (joined u) ≠ ""
  ∧ no_delims (netloc (joined u)) ∧ no_unsafe (netloc (joined u)).
Proof.
  intros (_ & Hnl & Hnlu & _). unfold joined.
  destruct (nonempty (netloc u)) eqn:E.
  - by apply nonempty_true in E.
  - by destruct (_ && _).
Qed.

(** What [urljoin] returns has a scheme, and a netloc when the scheme is
    https. *)
Lemma urljoin_parsed (h raw : string) (p : ParseResult) :
  urljoin base_url h = Ok raw → urlparse raw "" = Ok p →
  scheme_like (scheme p) ∧ (scheme p = "https" → netloc p ≠ "").
Proof.
  destruct (decide (h = "")) as [->|Hh].
  - intros [= <-]. rewrite base_parsed. by intros [= <-].
  - rewrite (urljoin_base h Hh).
    destruct (urlparse h "https") as [u|] eqn:Eu; [|done].
    destruct (urlparse_inv h "https" u Eu) as [Hok _].
    destruct (String.eqb_spec (scheme u) "https") as [Hs|Hs].
    + intros [= <-] Hp.
      destruct (joined_facts u Hok) as (Hsj & Hnj & Hdj & Huj).
      destruct (urlunparse_shape (joined u)) as (rest & Hraw & Hrest);
        [congruence | done |].
      rewrite Hraw in Hp.
      destruct (parse_head _ _ _ _ Hdj Huj Hrest Hp) as [-> ->]. done.
    + intros [= <-] Hp.
      destruct (urlparse_default h "https" "" u p Eu Hp Hs) as [-> Hsl]. done.
Qed.

(** Every identity is written from a parsed URL that has a scheme, and a
    netloc when the scheme is https. *)
Lemma clean_url_of_parsed (h u : string) :
  clean_url_of h = Ok u →
  ∃ p, parsed_ok p ∧ scheme_like (scheme p)
       ∧ (scheme p = "https" → netloc p ≠ "") ∧ u = identity_of p.
Proof.
  unfold clean_url_of.
  destruct (urljoin base_url h) as [raw|] eqn:Er; simpl; [|done].
  destruct (urlparse raw "") as [p|] eqn:Ep; simpl; [|done].
  intros [= <-]. exists p.
  destruct (urlparse_inv raw "" p Ep) as [Hok _].
  destruct (urljoin_parsed h raw p Er Ep) as [Hsl Hn]. done.
Qed.

Lemma identity_https (p : ParseResult) :
  scheme_like (scheme p) → startswith "https:" (identity_of p) = true →
  scheme p = "https".
Proof.
  intros (_ & _ & _ & Hcol & _)%scheme_like_facts [r Hr]%startswith_true.
  unfold identity_of in Hr.
  pose proof (break_unique (Ascii.eqb ":") (scheme p)
                (String ":" ("//" +:+ netloc p +:+ path p)) Hcol eq_refl) as H1.
  pose proof (break_unique (Ascii.eqb ":") "https" (String ":" r) eq_refl eq_refl)
    as H2.
  change (scheme p +:+ "://" +:+ netloc p +:+ path p)
    with (scheme p +:+ String ":" ("//" +:+ netloc p +:+ path p)) in Hr.
  change ("https:" +:+ r) with ("https" +:+ String ":" r) in Hr.
  rewrite Hr in H1. congruence.
Qed.

Lemma removelast_Forall {A} (P : A → Prop) (l : list A) :
  Forall P l → Forall P (removelast l).
Proof.
  induction 1 as [|x l Hx Hl IH]; simpl; [constructor|].
  destruct l; [constructor | by constructor].
Qed.

Lemma split_all (q : ascii → bool) (c : ascii) (s : string) :
  all_chars q s = true → Forall (λ x, all_chars q x = true) (split c s).
Proof.
  induction s as [|d s IH]; simpl; [by repeat constructor|].
  intros [Hd Hs]%andb_true_iff. specialize (IH Hs).
  destruct (split c s) as [|x xs]; [by repeat constructor|].
  inversion IH; subst. destruct (Ascii.eqb d c).
  - constructor; [done|]. by constructor.
  - constructor; [|done]. simpl. by rewrite Hd.
Qed.

Lemma join_all (q : ascii → bool) (sep : string) (xs : list string) :
  all_chars q sep = true → Forall (λ x, all_chars q x = true) xs →
  all_chars q (join sep xs) = true.
Proof.
  intros Hsep. induction 1 as [|x xs Hx Hxs IH]; simpl; [done|].
  destruct xs as [|y ys]; [done|].
  by rewrite !all_chars_app, Hx, Hsep, IH.
Qed.

Lemma resolve_all (q : ascii → bool) (segments : list string) :
  Forall (λ x, all_chars q x = true) segments →
  Forall (λ x, all_chars q x = true) (resolve segments).
Proof.
  intros Hs. unfold resolve.
  assert (∀ acc, Forall (λ x, all_chars q x = true) acc →
                 Forall (λ x, all_chars q x = true)
                        (fold_left resolve_segment segments acc)) as Hfold.
  { induction Hs as [|x xs Hx Hxs IH]; intros acc Hacc; simpl; [done|].
    apply IH. unfold resolve_segment.
    destruct (String.eqb x ".."); [by apply removelast_Forall|].
    destruct (String.eqb x "."); [done|].
    apply Forall_app. split; [done | by constructor]. }
  specialize (Hfold [] (List.Forall_nil _)).
  destruct (last segments) as [seg|]; [|done].
  destruct (_ || _); [|done].
  apply Forall_app. split; [done | by constructor].
Qed.

Lemma filter_inner_all (q : ascii → bool) (segments : list string) :
  Forall (λ x, all_chars q x = true) segments →
  Forall (λ x, all_chars q x = true) (filter_inner segments).
Proof.
  intros Hs. unfold filter_inner. destruct segments as [|x rest]; [done|].
  inversion Hs; subst. constructor; [done|].
  apply Forall_app. split.
  - apply Forall_forall. intros y Hy.
    apply list_elem_of_In, filter_In in Hy as [Hy _].
    apply removelast_Forall in H2. apply (proj1 (Forall_forall _ _) H2).
    by apply list_elem_of_In.
  - destruct (last rest) as [l|] eqn:E; [|done].
    constructor; [|done]. apply last_Some in E as (l' & ->).
    apply Forall_app in H2 as [_ H2]. by inversion H2.
Qed.

Lemma no_delims_no_marks (x : string) : no_delims x → no_marks x.
Proof.
  apply all_chars_impl. intros c Hc.
  destruct (char_in "?#" c) eqn:E; [|done].
  by rewrite (mark_is_delim c E) in Hc.
Qed.

Lemma joined_no_marks (u : ParseResult) :
  parsed_ok u → no_marks (path (joined u)) ∧ no_marks (params (joined u)).
Proof.
  intros (_ & _ & _ & Hpa & _ & Hpr & _). unfold joined.
  destruct (nonempty (netloc u)); [done|].
  destruct (_ && _); [done|]. cbv zeta. cbn [path params]. split; [|done].
  set (segments := if startswith "/" (path u) then _ else _).
  assert (Forall (λ x, all_chars (λ c, negb (char_in "?#" c)) x = true) segments)
    as Hseg.
  { unfold segments. destruct (startswith "/" (path u)).
    - by apply split_all.
    - apply filter_inner_all. apply Forall_app. split; [by constructor|].
      by apply split_all. }
  destruct (nonempty _) eqn:E; [|done].
  apply join_all; [done|]. by apply resolve_all.
Qed.

Lemma urlunparse_blank (r : ParseResult) :
  urlunparse r
  = urlunparse (blank r) +:+ unparse_tail (query r) (fragment r).
Proof.
  unfold urlunparse, urlunsplit, unparse_tail, blank. simpl.
  set (url := if nonempty (scheme r) then _ else _).
  destruct (nonempty (query r)), (nonempty (fragment r)); simpl;
    by rewrite ?str_app_assoc, ?str_app_nil_r.
Qed.

Lemma blank_no_marks (r : ParseResult) :
  scheme r = "https" → netloc r ≠ "" → no_delims (netloc r) →
  no_marks (path r) → no_marks (params r) →
  no_marks (urlunparse (blank r)).
Proof.
  intros Hs Hn%nonempty_true Hnl%no_delims_no_marks Hpa Hpr.
  unfold urlunparse, urlunsplit, blank. simpl. rewrite Hs, Hn. simpl.
  apply (no_marks_app "https://"). split; [done|].
  apply no_marks_app. split; [done|].
  set (url := if nonempty (params r) then _ else _).
  assert (no_marks url) as Hurl.
  { unfold url. destruct (nonempty (params r)); [|done].
    apply no_marks_app. split; [done|]. by apply (no_marks_app ";"). }
  destruct (_ && _); [|done]. by apply (no_marks_app "/").
Qed.

Lemma blank_joined (u1 u2 : ParseResult) :
  parse_core (Ok u1) = parse_core (Ok u2) →
  blank (joined u1) = blank (joined u2).
Proof.
  intros [= H1 H2 H3 H4]. unfold joined, blank. rewrite H1, H2, H3, H4.
  destruct (nonempty (netloc u2)); simpl; [by rewrite H1, H2, H3, H4|].
  by destruct (_ && _).
Qed.

(** The identity of a parsed URL is decided by its core. *)
Lemma identity_core (r1 r2 : result ParseResult) :
  parse_core r1 = parse_core r2 →
  match r1 with Ok p => Ok (identity_of p) | ValueError => ValueError end
  = match r2 with Ok p => Ok (identity_of p) | ValueError => ValueError end.
Proof.
  destruct r1 as [p1|], r2 as [p2|]; simpl; try done.
  intros [= H1 H2 H3 _]. unfold identity_of. by rewrite H1, H2, H3.
Qed.

(** The identity does not depend on the query and the fragment of the
    link. *)
Lemma clean_url_of_tail (p s : string) :
  no_marks p → url_tail s → clean_url_of (p +:+ s) = clean_url_of p.
Proof.
  intros Hp Hs.
  destruct (decide (s = "")) as [->|Hsne]; [by rewrite str_app_nil_r|].
  assert (p +:+ s ≠ "") as Hne.
  { intros [_ H]%str_app_eq_nil. done. }
  rewrite (clean_url_of_eq _ Hne).
  pose proof (urlparse_tail p s "https" Hp Hs) as Hcore.
  destruct (urlparse (p +:+ s) "https") as [u1|] eqn:E1.
  - destruct (urlparse p "https") as [u2|] eqn:E2; [|done].
    destruct (urlparse_inv _ _ _ E1) as [Hok1 _].
    destruct (urlparse_inv _ _ _ E2) as [Hok2 _].
    pose proof Hcore as [= Hsc Hnl Hpa Hpr].
    assert (match urlparse (if String.eqb (scheme u1) "https"
                            then urlunparse (joined u1) else p +:+ s) "" with
            | Ok p0 => Ok (identity_of p0)
            | ValueError => ValueError
            end
            = match urlparse (if String.eqb (scheme u2) "https"
                              then urlunparse (joined u2) else p) "" with
              | Ok p0 => Ok (identity_of p0)
              | ValueError => ValueError
              end) as Hsame.
    { apply identity_core. rewrite Hsc.
      destruct (String.eqb_spec (scheme u2) "https") as [Hs2|Hs2].
      - rewrite (urlunparse_blank (joined u1)), (urlunparse_blank (joined u2)).
        rewrite (blank_joined u1 u2 Hcore).
        destruct (joined_facts u2 Hok2) as (Hsj & Hnj & Hdj & _).
        destruct (joined_no_marks u2 Hok2) as [Hjp Hjr].
        assert (no_marks (urlunparse (blank (joined u2)))) as Hh.
        { apply blank_no_marks; try done. simpl. congruence. }
        rewrite !(urlparse_tail _ _ "" Hh (unparse_tail_url_tail _ _)). done.
      - by apply urlparse_tail. }
    rewrite Hsame.
    destruct (decide (p = "")) as [->|Hpne]; [|by rewrite (clean_url_of_eq _ Hpne), E2].
    (* the link is nothing but a query or a fragment *)
    vm_compute in E2. injection E2 as <-. by vm_compute.
  - destruct (urlparse p "https") as [u2|] eqn:E2; [done|].
    destruct (decide (p = "")) as [->|Hpne]; [by vm_compute in E2|].
    by rewrite (clean_url_of_eq _ Hpne), E2.
Qed.

(** A link without a scheme of its own is resolved on the scheme of the
    base origin: its identity starts with "https:". *)
Lemma clean_url_of_no_scheme (h u : string) (p : ParseResult) :
  urlparse h "" = Ok p → scheme p = "" →
  clean_url_of h = Ok u → startswith "https:" u = true.
Proof.
  intros Hp Hsc Hu.
  destruct (decide (h = "")) as [->|Hh].
  { vm_compute in Hu. injection Hu as <-. by vm_compute. }
  rewrite (clean_url_of_eq h Hh) in Hu.
  destruct (urlparse h "https") as [u1|] eqn:E1; [|done].
  destruct (urlparse_inv h "https" u1 E1) as [Hok _].
  assert (scheme u1 = "https") as Hs1.
  { destruct (String.eqb_spec (scheme u1) "https") as [Hs|Hs]; [done|].
    destruct (urlparse_default h "https" "" u1 p E1 Hp Hs) as [Heq Hsl].
    rewrite <- Heq, Hsc in Hsl. done. }
  rewrite Hs1 in Hu.
  change (String.eqb "https" "https") with true in Hu. cbv iota in Hu.
  destruct (urlparse (urlunparse (joined u1)) "") as [p0|] eqn:Ep; [|done].
  injection Hu as <-.
  destruct (joined_facts u1 Hok) as (Hsj & Hnj & Hdj & Huj).
  destruct (urlunparse_shape (joined u1)) as (rest & Hraw & Hrest);
    [congruence | done |].
  rewrite Hraw in Ep.
  destruct (parse_head _ _ _ _ Hdj Huj Hrest Ep) as [Hs0 _].
  apply startswith_true. exists ("//" +:+ netloc p0 +:+ path p0).
  unfold identity_of. by rewrite Hs0.
Qed.

End urlparse_facts.

(** C6, amended.  Normalizing an identity again either returns it
    unchanged or raises [ValueError]; it returns it unchanged whenever the
    identity is on the scheme of the base origin (https); and that is the
    case of every link without a scheme of its own: its identity starts
    with "https:" and is returned unchanged.  And two links that differ
    only in what follows the first ['?'] or ['#'] (query string, fragment
    identifier) have the same identity. *)
Theorem normalization_idempotent :
  (∀ h u, clean_url_of h = Ok u →
          clean_url_of u = Ok u ∨ clean_url_of u = ValueError)
  ∧ (∀ h u, clean_url_of h = Ok u → pystr.startswith "https:" u = true →
            clean_url_of u = Ok u)
  ∧ (∀ h u, no_own_scheme h → clean_url_of h = Ok u →
            pystr.startswith "https:" u = true ∧ clean_url_of u = Ok u)
  ∧ (∀ p s1 s2, no_marks p → url_tail s1 → url_tail s2 →
                clean_url_of (p +:+ s1) = clean_url_of (p +:+ s2)).
Proof.
  assert (∀ h u, clean_url_of h = Ok u → pystr.startswith "https:" u = true →
                 clean_url_of u = Ok u) as Hhttps.
  { intros h u (p & Hok & Hsl & Hn & ->)%clean_url_of_parsed Hhttps.
    apply (renormalize p Hok Hsl Hn). left.
    apply Hn. by apply identity_https. }
  split; [|split; [|split]].
  - intros h u (p & Hok & Hsl & Hn & ->)%clean_url_of_parsed.
    apply (renormalize p Hok Hsl Hn).
  - exact Hhttps.
  - intros h u (p & Hp & Hsc) Hu.
    pose proof (clean_url_of_no_scheme h u p Hp Hsc Hu) as Hs.
    split; [done|]. by apply (Hhttps h).
  - intros p s1 s2 Hp H1 H2.
    by rewrite (clean_url_of_tail p s1 Hp H1), (clean_url_of_tail p s2 Hp H2).
Qed.

Lemma normalization_idempotent_witness :
  clean_url_of "https://www.target.com/p/hero-figure-x/-/A-12345"
  = Ok "https://www.target.com/p/hero-figure-x/-/A-12345"
  ∧ (pystr.startswith "https:" "https://www.target.com/p/villain/-/A-2" = true
     ∧ clean_url_of "https://www.target.com/p/villain/-/A-2"
       = Ok "https://www.target.com/p/villain/-/A-2")
  ∧ clean_url_of ("/p/hero-figure-x/-/A-12345" +:+ "?preselect=1")
    = clean_url_of ("/p/hero-figure-x/-/A-12345" +:+ "#reviews").
Proof.
  split; [|split].
  - apply (proj1 (proj2 normalization_idempotent)
             "/p/hero-figure-x/-/A-12345?preselect=1"
             "https://www.target.com/p/hero-figure-x/-/A-12345").
    + by vm_compute.
    + by vm_compute.
  - apply (proj1 (proj2 (proj2 normalization_idempotent))
             "p/villain/-/A-2?x=1"
             "https://www.target.com/p/villain/-/A-2").
    + eexists. split; [by vm_compute | reflexivity].
    + by vm_compute.
  - apply (proj2 (proj2 (proj2 normalization_idempotent))
             "/p/hero-figure-x/-/A-12345" "?preselect=1" "#reviews").
    + by vm_compute.
    + by vm_compute.
    + by vm_compute.
Defined.

(** C6 as stated fails: the link target "x:[/p/" has the identity
    "x://[/p/", and normalizing that identity raises [ValueError] (its
    netloc is then "[", which [urlsplit] refuses). *)
Lemma normalization_not_idempotent :
  clean_url_of "x:[/p/" = Ok "x://[/p/"
  ∧ clean_url_of "x://[/p/" = ValueError
  ∧ pystr.contains "/p/" "x:[/p/" = true.
Proof. by vm_compute. Qed.

(** * Further properties

    What else the code shows: the other extractors, the cards and the
    elements a record is read from, the identities, the order and the
    failures of the extraction, and the store. *)

(** The members of a list that is given in full, one after the other. *)
Ltac each_in H tac :=
  vm_compute in H;
  repeat (apply elem_of_cons in H as [->|H]; [tac|]);
  by apply elem_of_nil in H.

(** ** The seller flag *)

Section sold_by_facts.

Lemma found_nocase_Lit (w t : string) :
  lower w = w → found true (Lit w) t = true ↔ says w t.
Proof.
  intros Hw. rewrite found_true. unfold has_match, says, occurs_in. split.
  - intros (pre & x & post & -> & Hx). apply matches_Lit_nocase in Hx.
    exists (lower pre), (lower post). by rewrite !lower_app, Hx, Hw.
  - intros (a & b & H). apply map_chars_eq_app in H as (pre & xb & -> & <- & H).
    apply map_chars_eq_app in H as (x & post & -> & Hx & <-).
    exists pre, x, post. split; [done|]. apply matches_Lit_nocase.
    by rewrite Hw.
Qed.

Lemma says_nonempty (w t : string) : w ≠ "" → says w t → t ≠ "".
Proof.
  intros Hw (a & b & H) ->. simpl in H. symmetry in H.
  apply str_app_eq_nil in H as [_ H]. apply str_app_eq_nil in H as [H _]. done.
Qed.

Lemma truthy_find_None (f : string → bool) (t : Tag) :
  (∀ x, f x = true → x ≠ "") →
  truthy (find_string f t) = None ↔ ∀ x, x ∈ texts_below t → f x = false.
Proof.
  intros Hf. rewrite <- find_string_None. unfold truthy.
  destruct (find_string f t) as [x|] eqn:E; [|done].
  apply find_string_Some in E as (_ & _ & _ & Hx & _).
  apply Hf, nonempty_true in Hx. by rewrite Hx.
Qed.

Lemma truthy_find_Some (f : string → bool) (t : Tag) (x : string) :
  (∀ x, f x = true → x ≠ "") →
  truthy (find_string f t) = Some x ↔ find_string f t = Some x.
Proof.
  intros Hf. unfold truthy. destruct (find_string f t) as [y|] eqn:E; [|done].
  apply find_string_Some in E as (_ & _ & _ & Hy & _).
  apply Hf, nonempty_true in Hy. by rewrite Hy.
Qed.

Lemma not_all_false {A} (f : A → bool) (l : list A) :
  ¬ (∀ x, x ∈ l → f x = false) ↔ ∃ x, x ∈ l ∧ f x = true.
Proof.
  induction l as [|y l IH].
  - split; [intros H; destruct H; by intros x ?%elem_of_nil
           | by intros (x & ?%elem_of_nil & _)].
  - destruct (f y) eqn:Hy.
    + split; [intros _; exists y; split; [by left | done]|].
      intros _ H. rewrite (H y) in Hy; [done | by left].
    + split.
      * intros H. destruct (proj1 IH) as (x & Hx & Hfx).
        -- intros H'. apply H. intros x [->|Hx]%elem_of_cons; auto.
        -- exists x. split; [by right | done].
      * intros (x & [->|Hx]%elem_of_cons & Hfx) H; [congruence|].
        rewrite (H x) in Hfx; [done | by right].
Qed.

End sold_by_facts.

(** X1.  The seller flag of a card is "Yes" exactly when the card bears
    one of the three marks of a product sold by Target: a string (a text,
    but a comment or the content of a script as well) that says
    "only at target" or "sold by target", whatever the case of its letters,
    or an [svg] whose accessibility label is "Target logo", possibly
    followed by a line feed; it is "No" for every other card. *)
Theorem is_sold_by_target_spec (container : Tag) :
  (target_mark container → is_sold_by_target (Some container) = "Yes")
  ∧ (¬ target_mark container → is_sold_by_target (Some container) = "No").
Proof.
  assert (∀ w, w ≠ "" → lower w = w →
               ∀ x, found true (Lit w) x = true → x ≠ "") as Hne.
  { intros w Hw Hl x Hx. apply (found_nocase_Lit w x Hl) in Hx.
    by apply (says_nonempty w). }
  pose proof (Hne "only at target" ltac:(done) eq_refl) as H1.
  pose proof (Hne "sold by target" ltac:(done) eq_refl) as H3.
  set (logo := [{| sel_name := Some "svg";
                   sel_attrs := [AttrIs "aria-label" "Target logo"] |}]).
  assert ((∃ t, t ∈ texts_below container ∧ says "only at target" t)
          ↔ truthy (find_string (found true (Lit "only at target")) container) ≠ None)
    as E1.
  { rewrite (truthy_find_None _ _ H1), not_all_false.
    split; intros (t & Ht & Hs); exists t; (split; [done|]);
      by apply (found_nocase_Lit "only at target"). }
  assert ((∃ t, t ∈ texts_below container ∧ says "sold by target" t)
          ↔ truthy (find_string (found true (Lit "sold by target")) container) ≠ None)
    as E3.
  { rewrite (truthy_find_None _ _ H3), not_all_false.
    split; intros (t & Ht & Hs); exists t; (split; [done|]);
      by apply (found_nocase_Lit "sold by target"). }
  assert ((∃ e, e ∈ tags_below container ∧ name e = "svg"
                ∧ attr_is e "aria-label" "Target logo")
          ↔ select_one logo container ≠ None) as E2.
  { rewrite select_one_None, not_all_false.
    split; intros (e & He & H); exists e; (split; [done|]);
      by apply (matches_attr_is (Some "svg")). }
  unfold target_mark. rewrite E1, E2, E3.
  change (is_sold_by_target (Some container)) with
    (match truthy (find_string (found true (Lit "only at target")) container) with
     | Some _ => "Yes"
     | None =>
         match select_one logo container with
         | Some _ => "Yes"
         | None =>
             match truthy (find_string (found true (Lit "sold by target")) container) with
             | Some _ => "Yes"
             | None => "No"
             end
         end
     end).
  destruct (truthy (find_string (found true (Lit "only at target")) container));
    [split; [done | intros H; destruct H; by left]|].
  destruct (select_one logo container);
    [split; [done | intros H; destruct H; right; by left]|].
  destruct (truthy (find_string (found true (Lit "sold by target")) container));
    [split; [done | intros H; destruct H; right; by right]|].
  split; [|done]. intros [?|[?|?]]; done.
Qed.

Lemma is_sold_by_target_spec_witness :
  is_sold_by_target (Some (tag_of hero_card)) = "Yes"
  ∧ is_sold_by_target (Some (tag_of line_feed_card)) = "Yes"
  ∧ is_sold_by_target (Some (tag_of no_price_card)) = "No".
Proof.
  split; [|split].
  - apply (proj1 (is_sold_by_target_spec (tag_of hero_card))).
    right. right. exists "Sold by Target". split.
    + vm_compute. repeat (first [by left | right]).
    + by exists "", "".
  - apply (proj1 (is_sold_by_target_spec (tag_of line_feed_card))).
    right. left.
    exists {| name := "svg";
              attrs := [("aria-label", "Target logo" +:+ line_feed)];
              contents := [] |}.
    split; [|split; [done | by right]].
    vm_compute. repeat (first [by left | right]).
  - apply (proj2 (is_sold_by_target_spec (tag_of no_price_card))).
    intros [(t & Ht & Hs)|[(e & He & Hn & _)|(t & Ht & Hs)]].
    + each_in Ht ltac:(by apply contains_true in Hs).
    + each_in He ltac:(done).
    + each_in Ht ltac:(by apply contains_true in Hs).
Defined.

(** ** The review count *)

Section review_facts.

Lemma digit_run_break (d post : string) :
  digit_run d post → break not_digit (d +:+ post) = (d, post).
Proof.
  intros (_ & Hd & Hp). apply break_unique.
  - eapply all_chars_impl; [|exact Hd]. intros c Hc. unfold not_digit.
    by rewrite Hc.
  - destruct post as [|c post]; [done|]. unfold not_digit. by rewrite Hp.
Qed.

(** The first run of digits is found where it stands. *)
Lemma search_digits_run (pre d post : string) :
  all_chars not_digit pre = true → digit_run d post →
  ∃ m, search false digits_pattern (pre +:+ d +:+ post) = Some m ∧ group_1 m = d.
Proof.
  intros Hpre Hrun.
  destruct (search false digits_pattern (pre +:+ d +:+ post)) as [m|] eqn:E.
  - exists m. split; [done|].
    apply search_digits_Some in E as (pre' & d' & post' & Hs & Hpre' & Hrun' & ->).
    assert (break is_digit (pre +:+ d +:+ post) = (pre, d +:+ post)) as B1.
    { apply break_unique; [done|]. destruct Hrun as (Hne & Hd & _).
      destruct d as [|c d]; [done|]. simpl in *. by apply andb_true_iff in Hd as [-> _]. }
    assert (break is_digit (pre' +:+ d' +:+ post') = (pre', d' +:+ post')) as B2.
    { apply break_unique; [done|]. destruct Hrun' as (Hne & Hd & _).
      destruct d' as [|c d']; [done|]. simpl in *. by apply andb_true_iff in Hd as [-> _]. }
    rewrite Hs, B2 in B1. injection B1 as -> Hd.
    apply digit_run_break in Hrun, Hrun'. rewrite Hd, Hrun in Hrun'.
    by injection Hrun' as -> _.
  - apply search_digits_None in E. rewrite !all_chars_app in E.
    apply andb_true_iff in E as [_ E]. apply andb_true_iff in E as [E _].
    destruct Hrun as (Hne & Hd & _). destruct d as [|c d]; [done|].
    simpl in *. apply andb_true_iff in Hd as [Hc _].
    unfold not_digit in E. by rewrite Hc in E.
Qed.

Lemma remove_commas_digits (s : string) :
  all_chars not_digit s = true →
  all_chars not_digit (remove_chars (Ascii.eqb ",") s) = true.
Proof. apply all_chars_remove. Qed.

Lemma grouped_number_run (g post : string) :
  grouped_number g → ends_number post →
  digit_run (remove_chars (Ascii.eqb ",") g) (remove_chars (Ascii.eqb ",") post).
Proof.
  intros [Hc Hg] Hp. split; [|split].
  - destruct g as [|c g]; [done|]. simpl.
    destruct (Ascii.eqb_spec "," c) as [<-|_]; [by vm_compute in Hc | done].
  - clear Hc. induction g as [|c g IH]; [done|]. simpl in *.
    apply andb_true_iff in Hg as [Hc Hg].
    destruct (Ascii.eqb "," c); [by apply IH|]. simpl.
    rewrite orb_false_r in Hc. by rewrite Hc, IH.
  - destruct post as [|c post]; [done|]. destruct Hp as [Hd Hcomma].
    simpl. by rewrite Hcomma.
Qed.

(** The count of a text, read as [reads_count] says. *)
Lemma first_number_or_zero_reads (t n : string) :
  reads_count t n → first_number_or_zero t = n.
Proof.
  unfold first_number_or_zero.
  intros [[Ht ->]|(pre & g & post & -> & Hpre & Hg & Hpost & ->)].
  - apply remove_commas_digits, search_digits_None in Ht. by rewrite Ht.
  - rewrite !remove_chars_app.
    destruct (search_digits_run _ _ _ (remove_commas_digits _ Hpre)
                (grouped_number_run _ _ Hg Hpost)) as (m & -> & Hm).
    done.
Qed.

(** Every text has a count. *)
Lemma reads_count_total (t : string) : ∃ n, reads_count t n.
Proof.
  destruct (all_chars not_digit t) eqn:Ht; [exists "0"; by left|].
  destruct (break is_digit t) as [pre rest] eqn:B1.
  apply break_spec in B1 as (-> & Hpre & Hrest).
  destruct (break (λ c, negb (is_digit c || Ascii.eqb "," c)) rest)
    as [g post] eqn:B2.
  apply break_spec in B2 as (-> & Hg & Hpost).
  exists (remove_chars (Ascii.eqb ",") g). right. exists pre, g, post.
  split; [done|]. split; [done|]. split; [|split; [|done]].
  - split.
    + destruct g as [|c g]; [|done].
      destruct post as [|c post].
      * rewrite all_chars_app in Ht. simpl in Ht. rewrite andb_true_r in Ht.
        unfold not_digit in Ht. congruence.
      * simpl in Hrest. rewrite Hrest in Hpost. done.
    + eapply all_chars_impl; [|exact Hg]. intros c. simpl. by rewrite negb_involutive.
  - destruct post as [|c post]; [done|].
    apply negb_true_iff, orb_false_iff in Hpost. done.
Qed.

Lemma first_number_or_zero_spec (t n : string) :
  first_number_or_zero t = n ↔ reads_count t n.
Proof.
  split; [|apply first_number_or_zero_reads].
  intros <-. destruct (reads_count_total t) as [n Hn].
  by rewrite (first_number_or_zero_reads t n Hn).
Qed.

Lemma reads_count_digits (t n : string) :
  reads_count t n → n ≠ "" ∧ all_chars is_digit n = true.
Proof.
  intros [[_ ->]|(pre & g & post & _ & _ & Hg & _ & ->)]; [done|].
  destruct (grouped_number_run g "" Hg I) as (? & ? & _). done.
Qed.

Lemma found_review (t : string) :
  found false review_pattern t = true
  ↔ occurs_in "review" t ∨ occurs_in "rating" t.
Proof.
  rewrite found_true, <- !has_match_Lit. unfold has_match, review_pattern. split.
  - intros (pre & w & post & Ht & [H|H]%matches_Alt); [left|right]; eauto.
  - intros [(pre & w & post & Ht & H)|(pre & w & post & Ht & H)];
      exists pre, w, post; (split; [done|]); apply matches_Alt; eauto.
Qed.

End review_facts.

(** X2.  The review count is always a numeral: a string of decimal
    digits that is not empty, for every fragment and for a missing one
    (the default is "0", never "N/A"). *)
Theorem extract_review_count_digits (container : option Tag) :
  extract_review_count container ≠ ""
  ∧ all_chars is_digit (extract_review_count container) = true.
Proof.
  assert (∀ t, first_number_or_zero t ≠ ""
               ∧ all_chars is_digit (first_number_or_zero t) = true) as H.
  { intros t. apply (reads_count_digits t). by apply first_number_or_zero_spec. }
  destruct container as [container|]; [|done]. unfold extract_review_count.
  destruct (select_one _ container); [apply H|].
  destruct (truthy _); [apply H | done].
Qed.

(** X3.  When the fragment has a rating-count element (a tag whose
    [data-test] attribute is "rating-count", possibly followed by a line
    feed), the first one decides alone: the count is read from its text as
    [get_text] gives it, without the comments in it; it is "0" when that
    text has no digit, and otherwise its first number with the thousands
    separators taken out ("1,234" gives "1234").  The other strings of the
    fragment are not looked at. *)
Theorem extract_review_count_element
        (container : Tag) (before : list Tag) (e : Tag) (after : list Tag) :
  tags_below container = (before ++ e :: after)%list →
  (∀ e', e' ∈ before → ¬ is_rating_count e') →
  is_rating_count e →
  ∀ n, extract_review_count (Some container) = n
       ↔ reads_count (get_text_strip e) n.
Proof.
  intros Hc Hb He n. rewrite <- first_number_or_zero_spec.
  unfold extract_review_count.
  assert (select_one [{| sel_name := None;
                         sel_attrs := [AttrIs "data-test" "rating-count"] |}]
                     container = Some e) as ->; [|done].
  apply select_one_Some. exists before, after. split; [done|]. split.
  - by apply (matches_attr_is None).
  - intros y Hy. apply not_true_is_false. intros H.
    apply (matches_attr_is None) in H as [_ H]. by apply (Hb y).
Qed.

Lemma extract_review_count_element_witness :
  extract_review_count (Some (tag_of counted_card)) = "1234".
Proof.
  apply (extract_review_count_element
           (tag_of counted_card)
           [ {| name := "a";
                attrs := [("href", "/p/hero-figure-x/-/A-12345");
                          ("data-test", "product-title")];
                contents := [NavigableString "Hero Figure X"] |};
             {| name := "span"; attrs := [("data-test", "current-price")];
                contents := [NavigableString "$19.99"] |} ]
           {| name := "span"; attrs := [("data-test", "rating-count")];
              contents := [SubclassString Comment "9 new";
                           NavigableString "(1,234 ratings)"] |}
           []).
  - reflexivity.
  - intros e' He' [Hv|Hv]; each_in He' ltac:(discriminate Hv).
  - by left.
  - right. exists "(", "1,234", " ratings)". by vm_compute.
Defined.

(** X4.  Without a rating-count element the count is read from the
    first string that holds "review" or "rating" in lower case (a text,
    or as well a comment or the content of a script), in the same way; it
    is "0" when no string holds either word. *)
Theorem extract_review_count_text (container : Tag) :
  (∀ e, e ∈ tags_below container → ¬ is_rating_count e) →
  ((∀ t, t ∈ texts_below container →
         ¬ occurs_in "review" t ∧ ¬ occurs_in "rating" t) →
   extract_review_count (Some container) = "0")
  ∧ ∀ before t after,
      texts_below container = (before ++ t :: after)%list →
      (∀ t', t' ∈ before → ¬ occurs_in "review" t' ∧ ¬ occurs_in "rating" t') →
      occurs_in "review" t ∨ occurs_in "rating" t →
      ∀ n, extract_review_count (Some container) = n ↔ reads_count t n.
Proof.
  intros Hno. unfold extract_review_count.
  assert (select_one [{| sel_name := None;
                         sel_attrs := [AttrIs "data-test" "rating-count"] |}]
                     container = None) as ->.
  { apply select_one_None. intros e He. apply not_true_is_false. intros H.
    apply (matches_attr_is None) in H as [_ H]. by apply (Hno e). }
  assert (∀ x, found false review_pattern x = true → x ≠ "") as Hne.
  { intros x [H|H]%found_review ->; destruct H as (a & b & H); symmetry in H;
      apply str_app_eq_nil in H as [_ H]; by apply str_app_eq_nil in H as [H _]. }
  split.
  - intros Hall.
    assert (truthy (find_string (found false review_pattern) container) = None) as ->;
      [|done].
    apply (truthy_find_None _ _ Hne). intros x Hx. apply not_true_is_false.
    intros [H|H]%found_review; by destruct (Hall x Hx).
  - intros before t after Ht Hb Hr n. rewrite <- first_number_or_zero_spec.
    assert (truthy (find_string (found false review_pattern) container) = Some t) as ->;
      [|done].
    apply (truthy_find_Some _ _ _ Hne), find_string_Some.
    exists before, after. split; [done|]. split; [by apply found_review|].
    intros y Hy. apply not_true_is_false.
    intros [H|H]%found_review; by destruct (Hb y Hy).
Qed.

Lemma extract_review_count_text_witness :
  extract_review_count (Some (tag_of reviewed_card)) = "1024".
Proof.
  assert (∀ e, e ∈ tags_below (tag_of reviewed_card) → ¬ is_rating_count e)
    as Hno.
  { intros e He [Hv|Hv]; each_in He ltac:(discriminate Hv). }
  apply (proj2 (extract_review_count_text (tag_of reviewed_card) Hno)
           ["Hero Figure X"; "$19.99"] "Read all 1,024 reviews" []).
  - reflexivity.
  - intros t Ht.
    each_in Ht ltac:(split; intros Hs; by apply contains_true in Hs).
  - left. by exists "Read all 1,024 ", "s".
  - right. exists "Read all ", "1,024", " reviews". by vm_compute.
Defined.

(** ** Ratings from labels and from star icons *)

Section star_facts.

Lemma one_digit (n : Z) :
  0 ≤ n ≤ 9 →
  n = 0 ∨ n = 1 ∨ n = 2 ∨ n = 3 ∨ n = 4 ∨ n = 5 ∨ n = 6 ∨ n = 7 ∨ n = 8 ∨ n = 9.
Proof. lia. Qed.

Lemma select_one_first_label (container : Tag) (before : list Tag) (e : Tag)
      (after : list Tag) (label : string) :
  tags_below container = (before ++ e :: after)%list →
  (∀ e' label, e' ∈ before → get e' "aria-label" = Some label →
               ¬ occurs_in "out of 5 stars" label) →
  get e "aria-label" = Some label → occurs_in "out of 5 stars" label →
  select_one [{| sel_name := None;
                 sel_attrs := [AttrHas "aria-label" "out of 5 stars"] |}]
             container = Some e.
Proof.
  intros Htags Hbefore Hlabel Hocc.
  apply select_one_Some. exists before, after. split; [done|]. split.
  - apply matches_attr_has; [done|]. split; [done|]. eauto.
  - intros y Hy.
    destruct (matches_selector
                [{| sel_name := None;
                    sel_attrs := [AttrHas "aria-label" "out of 5 stars"] |}] y)
      eqn:Hm; [|done].
    apply matches_attr_has in Hm as (_ & x & Hget & Hocc'); [|done].
    by destruct (Hbefore y x).
Qed.

End star_facts.

(** X5.  A rating label with one decimal is given back digit for digit:
    when the first tag whose accessibility label mentions "out of 5 stars"
    says "a.b out of 5 stars" for digits a and b, the rating is "a.b/5";
    and a label with a whole number "a out of 5 stars" gives "a.0/5". *)
Theorem extract_star_rating_one_decimal
        (container : Tag) (before : list Tag) (e : Tag) (after : list Tag)
        (a b : Z) :
  tags_below container = (before ++ e :: after)%list →
  (∀ e' label, e' ∈ before → get e' "aria-label" = Some label →
               ¬ occurs_in "out of 5 stars" label) →
  0 ≤ a ≤ 9 → 0 ≤ b ≤ 9 →
  (get e "aria-label" = Some (digit a +:+ "." +:+ digit b +:+ " out of 5 stars") →
   extract_star_rating (Some container) = digit a +:+ "." +:+ digit b +:+ "/5")
  ∧ (get e "aria-label" = Some (digit a +:+ " out of 5 stars") →
     extract_star_rating (Some container) = digit a +:+ ".0/5").
Proof.
  intros Htags Hbefore Ha Hb. split; intros Hlabel; unfold extract_star_rating.
  - rewrite (select_one_first_label _ _ _ _ _ Htags Hbefore Hlabel)
      by (by exists (digit a +:+ "." +:+ digit b +:+ " "), "";
          rewrite !str_app_assoc).
    cbn [mbind option_bind]. rewrite Hlabel. cbn [mbind option_bind].
    destruct (one_digit a Ha) as [->|[->|[->|[->|[->|[->|[->|[->|[->| ->]]]]]]]]];
      destruct (one_digit b Hb) as [->|[->|[->|[->|[->|[->|[->|[->|[->| ->]]]]]]]]];
      by vm_compute.
  - rewrite (select_one_first_label _ _ _ _ _ Htags Hbefore Hlabel)
      by (by exists (digit a +:+ " "), ""; rewrite !str_app_assoc).
    cbn [mbind option_bind]. rewrite Hlabel. cbn [mbind option_bind].
    destruct (one_digit a Ha) as [->|[->|[->|[->|[->|[->|[->|[->|[->| ->]]]]]]]]];
      by vm_compute.
Qed.

Lemma extract_star_rating_one_decimal_witness :
  extract_star_rating (Some rated_fragment) = digit 4 +:+ "." +:+ digit 5 +:+ "/5"
  ∧ extract_star_rating (Some (tag_of hero_card)) = digit 4 +:+ ".0/5".
Proof.
  split.
  - apply (proj1 (extract_star_rating_one_decimal
                    rated_fragment
                    [{| name := "a"; attrs := [("aria-label", "Hero Figure X")];
                        contents := [NavigableString "Hero"] |}]
                    {| name := "span"; attrs := [("aria-label", "4.5 out of 5 stars")];
                       contents := [] |} [] 4 5 eq_refl
                    ltac:(intros e' label He' Hget Hocc;
                          each_in He' ltac:(injection Hget as <-;
                                            by apply contains_true in Hocc))
                    ltac:(lia) ltac:(lia))).
    reflexivity.
  - apply (proj2 (extract_star_rating_one_decimal
                    (tag_of hero_card)
                    [{| name := "a";
                        attrs := [("href", "/p/hero-figure-x/-/A-12345?preselect=1");
                                  ("data-test", "product-title")];
                        contents := [NavigableString "Hero Figure X"] |};
                     {| name := "span"; attrs := [("data-test", "current-price")];
                        contents := [NavigableString "$19.99"] |}]
                    {| name := "span"; attrs := [("aria-label", "4 out of 5 stars")];
                       contents := [] |}
                    [{| name := "span"; attrs := [];
                        contents := [NavigableString "128 ratings"] |}]
                    4 0 eq_refl
                    ltac:(intros e' label He' Hget Hocc;
                          each_in He' ltac:(discriminate Hget))
                    ltac:(lia) ltac:(lia))).
    reflexivity.
Defined.

(** X6.  When no accessibility label mentions "out of 5 stars" and the
    fragment has a rating-stars container (a [div] whose [data-test]
    attribute is "rating-stars", possibly followed by a line feed), the
    rating counts the icons of the first such container: the number of
    full-star icons (up to nine here), followed by ".5" when there is a
    half-star icon and by ".0" otherwise.  The strings of the fragment are
    not looked at, and a container without icons gives "0.0/5". *)
Theorem extract_star_rating_stars
        (container : Tag) (before : list Tag) (stars : Tag) (after : list Tag) :
  (∀ e label, e ∈ tags_below container → get e "aria-label" = Some label →
              ¬ occurs_in "out of 5 stars" label) →
  tags_below container = (before ++ stars :: after)%list →
  (∀ e', e' ∈ before → ¬ rating_stars_container e') →
  rating_stars_container stars →
  (star_icons "full-star" stars ≤ 9)%nat →
  extract_star_rating (Some container)
  = digit (Z.of_nat (star_icons "full-star" stars))
    +:+ (if (0 <? star_icons "half-star" stars)%nat then ".5" else ".0") +:+ "/5".
Proof.
  intros Hlabels Htags Hbefore Hstars Hfull. unfold extract_star_rating.
  assert (select_one [{| sel_name := None;
                         sel_attrs := [AttrHas "aria-label" "out of 5 stars"] |}]
                     container = None) as ->.
  { apply select_one_None. intros e He. apply not_true_is_false. intros Hm.
    apply matches_attr_has in Hm as (_ & x & Hget & Hocc); [|done].
    by destruct (Hlabels e x). }
  cbn [mbind option_bind].
  assert (select_one [{| sel_name := Some "div";
                         sel_attrs := [AttrIs "data-test" "rating-stars"] |}]
                     container = Some stars) as ->.
  { apply select_one_Some. exists before, after. split; [done|]. split.
    - by apply matches_attr_is.
    - intros y Hy. apply not_true_is_false. intros Hm.
      apply matches_attr_is in Hm. by destruct (Hbefore y Hy). }
  rewrite (select_icons "full-star" stars) by done.
  pose proof (select_icons "half-star" stars ltac:(done)) as Hhalf.
  assert (match select [{| sel_name := Some "svg";
                           sel_attrs := [AttrHas "data-test" "half-star"] |}] stars with
          | [] => 0
          | _ :: _ => 1
          end = if (0 <? star_icons "half-star" stars)%nat then 1 else 0) as ->.
  { rewrite <- Hhalf. by destruct (select _ stars). }
  set (n := star_icons "full-star" stars) in *.
  destruct (0 <? star_icons "half-star" stars)%nat;
    do 10 (destruct n as [|n]; [by vm_compute|]); lia.
Qed.

Lemma extract_star_rating_stars_witness :
  extract_star_rating (Some (tag_of stars_card)) = digit 3 +:+ ".5" +:+ "/5".
Proof.
  apply (extract_star_rating_stars
           (tag_of stars_card)
           [{| name := "a";
               attrs := [("href", "/p/hero-figure-x/-/A-12345");
                         ("data-test", "product-title")];
               contents := [NavigableString "Hero Figure X"] |};
            {| name := "span"; attrs := [("data-test", "current-price")];
               contents := [NavigableString "$19.99"] |}]
           {| name := "div"; attrs := [("data-test", "rating-stars")];
              contents :=
                [TagNode "svg" [("data-test", "icon-full-star")] [];
                 TagNode "svg" [("data-test", "icon-full-star")] [];
                 TagNode "svg" [("data-test", "icon-full-star")] [];
                 TagNode "svg" [("data-test", "icon-half-star")] [];
                 TagNode "svg" [("data-test", "icon-empty-star")] []] |}
           [{| name := "svg"; attrs := [("data-test", "icon-full-star")]; contents := [] |};
            {| name := "svg"; attrs := [("data-test", "icon-full-star")]; contents := [] |};
            {| name := "svg"; attrs := [("data-test", "icon-full-star")]; contents := [] |};
            {| name := "svg"; attrs := [("data-test", "icon-half-star")]; contents := [] |};
            {| name := "svg"; attrs := [("data-test", "icon-empty-star")]; contents := [] |}]).
  - intros e label He Hget Hocc. each_in He ltac:(discriminate Hget).
  - reflexivity.
  - intros e' He' [Hn _]. each_in He' ltac:(discriminate Hn).
  - split; [reflexivity | by left].
  - vm_compute. lia.
Defined.

(** ** Ratings from a text *)

Section rating_text_facts.

Lemma match_here_rating_other (c : ascii) (s : string) :
  is_digit c = false → match_here false rating_pattern (String c s) = None.
Proof.
  intros Hc. unfold match_here, rating_pattern, numeral_pattern, Plus.
  cbn [match_k]. by rewrite Hc.
Qed.

Lemma search_rating_skip (pre s : string) :
  digit_free pre →
  search false rating_pattern (pre +:+ s) = search false rating_pattern s.
Proof.
  unfold digit_free. induction pre as [|c pre IH]; [done|].
  cbn [all_chars]. intros [Hc Hpre]%andb_true_iff.
  apply negb_true_iff in Hc.
  change (String c pre +:+ s) with (String c (pre +:+ s)).
  cbn [search]. by rewrite (match_here_rating_other c _ Hc), IH.
Qed.

Lemma match_k_out_of {A} (post : string) (g : option string)
      (k : string → option string → option A) :
  match_k false out_of_pattern (" out of 5" +:+ post) g k = k post g.
Proof. vm_compute. by destruct (k post g). Qed.

Lemma match_here_rating_decimal (a b : ascii) (post : string) :
  is_digit a = true → is_digit b = true →
  ∃ m, match_here false rating_pattern
         (String a (String "." (String b (" out of 5" +:+ post)))) = Some m
       ∧ group_1 m = String a (String "." (String b "")).
Proof.
  intros Ha Hb. unfold match_here, rating_pattern, numeral_pattern, Plus.
  cbn [match_k star_k]. rewrite Ha.
  change (is_digit ".") with false. cbn [lit_k].
  change ("." =? ".")%char with true. cbv iota. rewrite Hb.
  change (" out of 5" +:+ post) with (String " " ("out of 5" +:+ post)).
  cbn [star_k]. change (is_digit " ") with false. cbv iota.
  change (String " " ("out of 5" +:+ post)) with (" out of 5" +:+ post).
  rewrite match_k_out_of. eexists. split; [done|].
  unfold group_1. cbn [group1].
  apply (consumed_app (String a (String "." (String b ""))) (" out of 5" +:+ post)).
Qed.

Lemma match_here_rating_whole (a : ascii) (post : string) :
  is_digit a = true →
  ∃ m, match_here false rating_pattern (String a (" out of 5" +:+ post)) = Some m
       ∧ group_1 m = String a "".
Proof.
  intros Ha. unfold match_here, rating_pattern, numeral_pattern, Plus.
  cbn [match_k]. rewrite Ha.
  change (" out of 5" +:+ post) with (String " " ("out of 5" +:+ post)).
  cbn [star_k lit_k]. change (is_digit " ") with false. cbv iota.
  change ("." =? " ")%char with false. cbv iota.
  change (String " " ("out of 5" +:+ post)) with (" out of 5" +:+ post).
  rewrite match_k_out_of. eexists. split; [done|].
  unfold group_1. cbn [group1].
  apply (consumed_app (String a "") (" out of 5" +:+ post)).
Qed.

Lemma digit_is_digit (n : Z) : 0 ≤ n ≤ 9 → ∃ c, digit n = String c "" ∧ is_digit c = true.
Proof.
  intros Hn.
  destruct (one_digit n Hn) as [->|[->|[->|[->|[->|[->|[->|[->|[->| ->]]]]]]]]];
    by eexists.
Qed.

Lemma search_rating_decimal (a b : Z) (post : string) :
  0 ≤ a ≤ 9 → 0 ≤ b ≤ 9 →
  ∃ m, search false rating_pattern
         (digit a +:+ "." +:+ digit b +:+ " out of 5" +:+ post) = Some m
       ∧ group_1 m = digit a +:+ "." +:+ digit b.
Proof.
  intros Ha Hb.
  destruct (digit_is_digit a Ha) as (ca & -> & Hca).
  destruct (digit_is_digit b Hb) as (cb & -> & Hcb).
  destruct (match_here_rating_decimal ca cb post Hca Hcb) as (m & Hm & Hg).
  exists m. split; [|done].
  change (String ca "" +:+ "." +:+ String cb "" +:+ " out of 5" +:+ post)
    with (String ca (String "." (String cb (" out of 5" +:+ post)))).
  cbn [search]. by rewrite Hm.
Qed.

Lemma search_rating_whole (a : Z) (post : string) :
  0 ≤ a ≤ 9 →
  ∃ m, search false rating_pattern (digit a +:+ " out of 5" +:+ post) = Some m
       ∧ group_1 m = digit a.
Proof.
  intros Ha.
  destruct (digit_is_digit a Ha) as (ca & -> & Hca).
  destruct (match_here_rating_whole ca post Hca) as (m & Hm & Hg).
  exists m. split; [|done].
  change (String ca "" +:+ " out of 5" +:+ post)
    with (String ca (" out of 5" +:+ post)).
  cbn [search]. by rewrite Hm.
Qed.

End rating_text_facts.

(** X21.  When no accessibility label mentions "out of 5 stars" and the
    fragment has no rating-stars container (no [div] whose [data-test]
    attribute is "rating-stars", possibly followed by a line feed), the
    first string that contains "out of 5" decides alone, be it a text, a
    comment or the content of a script.  When that string reads
    "a.b out of 5" after a start without digits, for digits a and b, the
    rating is "a.b/5", and "a out of 5" gives "a.0/5"; when no number
    stands before an "out of 5" in it, the rating is "N/A", whatever the
    later strings say. *)
Theorem extract_star_rating_text
        (container : Tag) (before : list string) (t : string) (after : list string) :
  (∀ e label, e ∈ tags_below container → get e "aria-label" = Some label →
              ¬ occurs_in "out of 5 stars" label) →
  (∀ e, e ∈ tags_below container → ¬ rating_stars_container e) →
  texts_below container = (before ++ t :: after)%list →
  (∀ y, y ∈ before → ¬ occurs_in "out of 5" y) →
  occurs_in "out of 5" t →
  (∀ pre a b post,
      digit_free pre → 0 ≤ a ≤ 9 → 0 ≤ b ≤ 9 →
      (t = pre +:+ digit a +:+ "." +:+ digit b +:+ " out of 5" +:+ post →
       extract_star_rating (Some container) = digit a +:+ "." +:+ digit b +:+ "/5")
      ∧ (t = pre +:+ digit a +:+ " out of 5" +:+ post →
         extract_star_rating (Some container) = digit a +:+ ".0/5"))
  ∧ (¬ has_match false rating_pattern t →
     extract_star_rating (Some container) = "N/A").
Proof.
  intros Hlabels Hstars Htexts Hbefore Hocc.
  assert (extract_star_rating (Some container)
          = match search false rating_pattern t with
            | Some m => out_of_five (pyfloat.of_string (group_1 m))
            | None => "N/A"
            end) as ->.
  { unfold extract_star_rating.
    assert (select_one [{| sel_name := None;
                           sel_attrs := [AttrHas "aria-label" "out of 5 stars"] |}]
                       container = None) as ->.
    { apply select_one_None. intros e He. apply not_true_is_false. intros Hm.
      apply matches_attr_has in Hm as (_ & x & Hget & Hocc'); [|done].
      by destruct (Hlabels e x). }
    cbn [mbind option_bind].
    assert (select_one [{| sel_name := Some "div";
                           sel_attrs := [AttrIs "data-test" "rating-stars"] |}]
                       container = None) as ->.
    { apply select_one_None. intros e He. apply not_true_is_false. intros Hm.
      apply matches_attr_is in Hm. by destruct (Hstars e He). }
    assert (find_string (found false out_of_5_pattern) container = Some t) as ->.
    { apply find_string_Some. exists before, after. split; [done|]. split.
      - apply found_true. by apply has_match_Lit.
      - intros y Hy. apply not_true_is_false. intros Hf.
        apply found_true, has_match_Lit in Hf. by destruct (Hbefore y Hy). }
    unfold truthy.
    assert (nonempty t = true) as ->; [|done].
    apply nonempty_true. intros ->. destruct Hocc as (pre & post & H).
    symmetry in H. apply str_app_eq_nil in H as [_ H]. done. }
  split.
  - intros pre a b post Hpre Ha Hb.
    split; intros ->; rewrite (search_rating_skip pre _ Hpre).
    + destruct (search_rating_decimal a b post Ha Hb) as (m & -> & ->).
      destruct (one_digit a Ha) as [->|[->|[->|[->|[->|[->|[->|[->|[->| ->]]]]]]]]];
        destruct (one_digit b Hb) as [->|[->|[->|[->|[->|[->|[->|[->|[->| ->]]]]]]]]];
        by vm_compute.
    + destruct (search_rating_whole a post Ha) as (m & -> & ->).
      destruct (one_digit a Ha) as [->|[->|[->|[->|[->|[->|[->|[->|[->| ->]]]]]]]]];
        by vm_compute.
  - intros Hno. apply search_None in Hno. by rewrite Hno.
Qed.

Lemma extract_star_rating_text_witness :
  extract_star_rating (Some (tag_of text_rated_card))
  = digit 4 +:+ "." +:+ digit 5 +:+ "/5".
Proof.
  refine (proj1 (proj1 (extract_star_rating_text
                          (tag_of text_rated_card)
                          ["Hero Figure X"; "$19.99"]
                          "Rated 4.5 out of 5 by buyers" [] _ _ eq_refl _ _)
                       "Rated " 4 5 " by buyers" eq_refl ltac:(lia) ltac:(lia))
                eq_refl).
  - intros e label He Hget Hocc. each_in He ltac:(discriminate Hget).
  - intros e He [Hn _]. each_in He ltac:(discriminate Hn).
  - intros y Hy Hocc. each_in Hy ltac:(by apply contains_true in Hocc).
  - by exists "Rated 4.5 ", " by buyers".
Defined.

(** ** The external id *)

Section tcin_facts.

Lemma match_here_tcin (s : string) :
  match_here false tcin_pattern s
  = match strip_prefix "/A-" s with
    | Some (String c r) =>
        if is_digit c then
          Some {| group0 := consumed s (snd (break not_digit r));
                  group1 := Some (consumed (String c r) (snd (break not_digit r))) |}
        else None
    | _ => None
    end.
Proof.
  unfold match_here, tcin_pattern. cbn [match_k Plus].
  assert (lit_k false "/A-" s = strip_prefix "/A-" s) as ->.
  { generalize "/A-". intros w. revert s.
    induction w as [|a w IH]; intros [|b s]; simpl; done. }
  destruct (strip_prefix "/A-" s) as [[|c r]|]; try done.
  destruct (is_digit c); [|done].
  by rewrite star_k_total by eauto.
Qed.

Lemma consumed_run (c : ascii) (r : string) :
  is_digit c = true →
  ∃ d post, String c r = d +:+ post ∧ digit_run d post
            ∧ snd (break not_digit r) = post
            ∧ consumed (String c r) post = d.
Proof.
  intros Hc. destruct (break not_digit r) as [a b] eqn:E.
  apply break_spec in E as (-> & Ha & Hb).
  exists (String c a), b. split; [done|]. split; [|split; [done|]].
  - split; [done|]. split.
    + simpl. rewrite Hc. simpl. eapply all_chars_impl; [|exact Ha].
      intros x. unfold not_digit. by rewrite negb_involutive.
    + destruct b as [|x b]; [done|]. by apply negb_true_iff.
  - change (String c (a +:+ b)) with (String c a +:+ b). apply consumed_app.
Qed.

(** [re.search(r'/A-(\d+)', s)]: the digits after the leftmost "/A-"
    that a digit follows. *)
Lemma search_tcin (s : string) :
  match search false tcin_pattern s with
  | Some m =>
      ∃ pre d post,
        s = pre +:+ "/A-" +:+ d +:+ post ∧ digit_run d post ∧ group_1 m = d
        ∧ ∀ pre' c post', s = pre' +:+ "/A-" +:+ String c post' →
                          is_digit c = true →
                          (String.length pre ≤ String.length pre')%nat
  | None =>
      ∀ pre c post, s = pre +:+ "/A-" +:+ String c post → is_digit c = false
  end.
Proof.
  assert (∀ x z c post,
            String x z = "" +:+ "/A-" +:+ String c post →
            strip_prefix "/A-" (String x z) = Some (String c post)) as Hhere.
  { intros x z c post H. by apply strip_prefix_Some. }
  induction s as [|x s IH].
  - simpl. intros pre c post H. symmetry in H.
    apply str_app_eq_nil in H as [_ H]. done.
  - cbn [search]. rewrite match_here_tcin.
    destruct (strip_prefix "/A-" (String x s)) as [[|c r]|] eqn:E;
      [| destruct (is_digit c) eqn:Hc |].
    2:{ apply strip_prefix_Some in E.
        destruct (consumed_run c r Hc) as (d & post & Hd & Hrun & Hb & Hcons).
        exists "", d, post. simpl. rewrite E. simpl. rewrite Hd.
        split; [done|]. split; [done|].
        split; [unfold group_1; simpl; rewrite Hb; apply consumed_app|].
        intros; lia. }
    all: destruct (search false tcin_pattern s) as [m|].
    all: try (destruct IH as (pre & d & post & -> & Hrun & Hm & Hleft);
              exists (String x pre), d, post; split; [done|]; split; [done|];
              split; [done|]; intros pre' c' post' H Hc';
              destruct pre' as [|y pre'];
              [ apply Hhere in H; rewrite H in E; congruence
              | simpl in H; injection H as _ H; simpl;
                specialize (Hleft pre' c' post' H Hc'); lia ]).
    all: intros pre c' post H; destruct pre as [|y pre];
      [ apply Hhere in H; rewrite H in E; congruence
      | simpl in H; injection H as _ H; by apply (IH pre c' post) ].
Qed.

End tcin_facts.

(** X7.  The [tcin] of a record is read off its identity: the full run
    of digits after the leftmost "/A-" that a digit follows, and "N/A"
    when the identity has no "/A-" followed by a digit. *)
Theorem tcin_spec (soup : Tag) (ps : list product) (p : product) :
  extract_product_data soup = Ok ps → p ∈ ps →
  (tcin p = "N/A"
   ∧ ∀ pre c post, url p = pre +:+ "/A-" +:+ String c post → is_digit c = false)
  ∨ ∃ pre d post,
      url p = pre +:+ "/A-" +:+ d +:+ post ∧ digit_run d post ∧ tcin p = d
      ∧ ∀ pre' c post', url p = pre' +:+ "/A-" +:+ String c post' →
                        is_digit c = true →
                        (String.length pre ≤ String.length pre')%nat.
Proof.
  intros Hps Hp.
  destruct (extract_product_data_emitted _ _ _ Hps Hp) as (c & _ & u & _ & Hrec).
  apply card_record_assemble in Hrec as (link & pe & _ & _ & _ & ->).
  cbn [url tcin assemble]. pose proof (search_tcin u) as H.
  destruct (search false tcin_pattern u) as [m|]; [right | left]; done.
Qed.

Lemma tcin_spec_witness :
  (tcin hero_record = "N/A"
   ∧ ∀ pre c post, url hero_record = pre +:+ "/A-" +:+ String c post →
                   is_digit c = false)
  ∨ ∃ pre d post,
      url hero_record = pre +:+ "/A-" +:+ d +:+ post ∧ digit_run d post
      ∧ tcin hero_record = d
      ∧ ∀ pre' c post', url hero_record = pre' +:+ "/A-" +:+ String c post' →
                        is_digit c = true →
                        (String.length pre ≤ String.length pre')%nat.
Proof.
  apply (tcin_spec hero_soup [hero_record] hero_record).
  - by vm_compute.
  - by left.
Defined.

(** ** The text fields *)

Section trim_facts.

Lemma rstrip_first (p : ascii → bool) (c : ascii) (s : string) :
  p c = false → ∃ r, rstrip p (String c s) = String c r.
Proof.
  intros Hc. simpl. destruct (rstrip p s); [rewrite Hc|]; eauto.
Qed.

Lemma rstrip_idem (p : ascii → bool) (s : string) :
  rstrip p (rstrip p s) = rstrip p s.
Proof.
  induction s as [|c s IH]; [done|]. simpl.
  destruct (rstrip p s) as [|d r] eqn:E.
  - destruct (p c) eqn:Hc; simpl; [done | by rewrite Hc].
  - cbn [rstrip]. cbn [rstrip] in IH. by rewrite IH.
Qed.

Lemma lstrip_spec (p : ascii → bool) (s : string) :
  match lstrip p s with
  | "" => True
  | String c _ => p c = false
  end.
Proof.
  induction s as [|c s IH]; [done|]. simpl. destruct (p c) eqn:Hc; [done|].
  simpl. done.
Qed.

Lemma strip_trimmed (s : string) : trimmed (strip s).
Proof.
  unfold trimmed, strip. pose proof (lstrip_spec is_space s) as H.
  destruct (lstrip is_space s) as [|c y]; [done|].
  destruct (rstrip_first is_space c y H) as [r Hr]. rewrite Hr.
  cbn [lstrip]. rewrite H, <- Hr. apply rstrip_idem.
Qed.

Lemma trimmed_parts (s : string) :
  s ≠ "" → trimmed s → lstrip is_space s = s ∧ rstrip is_space s = s.
Proof.
  unfold trimmed, strip. intros Hne H.
  pose proof (lstrip_spec is_space s) as Hl.
  assert (lstrip is_space s = s) as E.
  { destruct s as [|c s]; [done|]. simpl. destruct (is_space c) eqn:Hc; [|done].
    exfalso. simpl in H, Hl. rewrite Hc in H, Hl.
    destruct (lstrip is_space s) as [|d y] eqn:Ey; [done|].
    destruct (rstrip_first is_space d y Hl) as [r Hr]. rewrite Hr in H.
    injection H as -> _. congruence. }
  split; [done|]. by rewrite E in H.
Qed.

Lemma rstrip_app (p : ascii → bool) (a b : string) :
  b ≠ "" → rstrip p b = b → rstrip p (a +:+ b) = a +:+ b.
Proof.
  intros Hne Hb. induction a as [|c a IH]; [done|].
  change (String c a +:+ b) with (String c (a +:+ b)). cbn [rstrip].
  rewrite IH. destruct (a +:+ b) eqn:E; [|done].
  apply str_app_eq_nil in E as [_ ?]. done.
Qed.

Lemma trimmed_app (a b : string) :
  a ≠ "" → b ≠ "" → trimmed a → trimmed b → trimmed (a +:+ b).
Proof.
  intros Ha Hb [La Ra]%trimmed_parts [Lb Rb]%trimmed_parts; try done.
  unfold trimmed, strip.
  assert (lstrip is_space (a +:+ b) = a +:+ b) as ->.
  { pose proof (lstrip_spec is_space a) as H. rewrite La in H.
    destruct a as [|c a]; [done|]. simpl. by rewrite H. }
  by apply rstrip_app.
Qed.

Lemma join_trimmed (xs : list string) :
  Forall (λ x, x ≠ "" ∧ trimmed x) xs →
  trimmed (join "" xs) ∧ (xs ≠ [] → join "" xs ≠ "").
Proof.
  induction 1 as [|x xs [Hx Ht] Hxs [IH1 IH2]]; [done|].
  destruct xs as [|y xs]; [done|].
  change (join "" (x :: y :: xs)) with (x +:+ "" +:+ join "" (y :: xs)).
  change ("" +:+ join "" (y :: xs)) with (join "" (y :: xs)).
  split.
  - apply trimmed_app; auto.
  - intros _ H. by apply str_app_eq_nil in H as [? _].
Qed.

Lemma get_text_strip_trimmed (t : Tag) : trimmed (get_text_strip t).
Proof.
  unfold get_text_strip. apply join_trimmed.
  apply List.Forall_forall. intros x Hx. apply filter_In in Hx as [Hx Hne].
  apply in_map_iff in Hx as (y & <- & _). split.
  - by apply nonempty_true.
  - apply strip_trimmed.
Qed.

End trim_facts.

(** X8.  In every record the title is not empty, and the title, the
    price and the brand come without white space at either end. *)
Theorem record_texts_trimmed (soup : Tag) (ps : list product) (p : product) :
  extract_product_data soup = Ok ps → p ∈ ps →
  title p ≠ "" ∧ trimmed (title p) ∧ trimmed (price p) ∧ trimmed (brand p).
Proof.
  intros Hps Hp.
  destruct (extract_product_data_emitted _ _ _ Hps Hp) as (c & _ & u & _ & Hrec).
  apply card_record_assemble in Hrec as (link & pe & _ & Ht & _ & ->).
  cbn [title price brand assemble]. split; [done|].
  split; [apply get_text_strip_trimmed|]. split; [apply get_text_strip_trimmed|].
  destruct (brand_elem c); [apply get_text_strip_trimmed | by vm_compute].
Qed.

Lemma record_texts_trimmed_witness :
  title hero_record ≠ "" ∧ trimmed (title hero_record)
  ∧ trimmed (price hero_record) ∧ trimmed (brand hero_record).
Proof.
  apply (record_texts_trimmed hero_soup [hero_record] hero_record).
  - by vm_compute.
  - by left.
Defined.

(** ** The cards and the elements a record is read from *)

Section locator_facts.

Lemma matches_card (e : Tag) :
  matches_selector
    [{| sel_name := Some "div"; sel_attrs := [AttrHas "data-test" "product-card"] |};
     {| sel_name := Some "div"; sel_attrs := [AttrHas "data-test" "@web/ProductCard"] |}]
    e = true
  ↔ is_card e.
Proof.
  unfold is_card.
  pose proof (matches_attr_has (Some "div") "data-test" "product-card" e
                ltac:(done)) as H1.
  pose proof (matches_attr_has (Some "div") "data-test" "@web/ProductCard" e
                ltac:(done)) as H2.
  unfold matches_selector in *. cbn [existsb] in *.
  rewrite orb_false_r in *.
  rewrite orb_true_iff, H1, H2. split.
  - intros [[Hn (v & Hv & Ho)]|[Hn (v & Hv & Ho)]]; eauto 6.
  - intros [Hn (v & Hv & [Ho|Ho])]; eauto 6.
Qed.

Lemma matches_title_link (e : Tag) :
  matches_selector
    [{| sel_name := Some "a";
        sel_attrs := [AttrHas "href" "/p/"; AttrIs "data-test" "product-title"] |}]
    e = true
  ↔ is_title_link e.
Proof.
  unfold is_title_link, matches_selector, matches_compound, occurs_in.
  cbn [existsb sel_name sel_attrs forallb].
  rewrite orb_false_r, andb_true_r, !andb_true_iff, String.eqb_eq, test_attr_is.
  cbn [test_attr]. destruct (get e "href") as [h|].
  - cbn [nonempty negb andb]. rewrite contains_true. split.
    + intros (Hn & Hh & Hv). eauto.
    + intros (Hn & (h' & [= <-] & Hh) & Hv). done.
  - split; [by intros (_ & ? & _) | by intros (_ & (? & ? & _) & _)].
Qed.

Lemma matches_price (e : Tag) :
  matches_selector
    [{| sel_name := None; sel_attrs := [AttrIs "data-test" "current-price"] |}] e
  = true
  ↔ is_price e.
Proof. rewrite matches_attr_is. unfold is_price. tauto. Qed.

Lemma matches_brand (e : Tag) :
  matches_selector
    [{| sel_name := None; sel_attrs := [AttrHas "data-test" "brand"] |}] e = true
  ↔ is_brand e.
Proof. rewrite matches_attr_has by done. unfold is_brand. tauto. Qed.

Lemma select_one_first (sel : selector) (P : Tag → Prop) (t e : Tag) :
  (∀ x, matches_selector sel x = true ↔ P x) →
  select_one sel t = Some e ↔ first_tag P t e.
Proof.
  intros HP. rewrite select_one_Some. unfold first_tag.
  split; intros (before & after & Ht & He & Hb); exists before, after;
    (split; [done|]); (split; [by apply HP|]); intros y Hy.
  - rewrite <- HP. rewrite (Hb y Hy). done.
  - apply not_true_is_false. rewrite HP. by apply Hb.
Qed.

Lemma select_one_none (sel : selector) (P : Tag → Prop) (t : Tag) :
  (∀ x, matches_selector sel x = true ↔ P x) →
  select_one sel t = None ↔ ∀ e, e ∈ tags_below t → ¬ P e.
Proof.
  intros HP. rewrite select_one_None. split; intros H e He.
  - rewrite <- HP. by rewrite (H e He).
  - apply not_true_is_false. rewrite HP. by apply H.
Qed.

End locator_facts.

Lemma product_containers_elem (soup c : Tag) :
  c ∈ product_containers soup ↔ c ∈ tags_below soup ∧ is_card c.
Proof.
  unfold product_containers, select. fold (tags_below soup).
  rewrite list_elem_of_In, filter_In, <- list_elem_of_In.
  by rewrite matches_card.
Qed.

(** X22.  The cards of a document are the [div] tags, at any depth, whose
    [data-test] attribute contains "product-card" or "@web/ProductCard",
    letter for letter; they are taken in document order. *)
Theorem product_containers_spec (soup : Tag) :
  (∀ c, c ∈ product_containers soup ↔ c ∈ tags_below soup ∧ is_card c)
  ∧ product_containers soup `sublist_of` tags_below soup.
Proof.
  split; [intros c; apply product_containers_elem|].
  unfold product_containers, select. fold (tags_below soup).
  induction (tags_below soup) as [|e l IH]; [done|]. cbn [List.filter].
  destruct (matches_selector _ e); by constructor.
Qed.

(** X23.  Every record can be traced to one card of the document: its
    identity is resolved from the link target of the first title link of
    the card, its title is the text of that link, its price the text of
    the first current-price element, its brand the text of the first
    element whose [data-test] attribute mentions "brand" and "N/A" when
    the card has none, and its rating, review count, inventory note and
    seller flag are what the extractors give for that same card.  The
    marks "product-title" and "current-price" are taken as the selectors
    take them, also when a line feed follows; the texts are those
    [get_text] gives, without comments. *)
Theorem record_provenance (soup : Tag) (ps : list product) (p : product) :
  extract_product_data soup = Ok ps → p ∈ ps →
  ∃ card link href pe,
    (card ∈ tags_below soup ∧ is_card card)
    ∧ (first_tag is_title_link card link ∧ get link "href" = Some href
       ∧ clean_url_of href = Ok (url p))
    ∧ (title p = get_text_strip link ∧ title p ≠ "")
    ∧ (first_tag is_price card pe ∧ price p = get_text_strip pe)
    ∧ ((∀ e, e ∈ tags_below card → ¬ is_brand e) ∧ brand p = "N/A"
       ∨ ∃ b, first_tag is_brand card b ∧ brand p = get_text_strip b)
    ∧ rating p = extract_star_rating (Some card)
    ∧ reviews p = extract_review_count (Some card)
    ∧ inventory p = extract_inventory_count (Some card)
    ∧ sold_by_target p = is_sold_by_target (Some card).
Proof.
  intros Hps Hp.
  destruct (extract_product_data_emitted soup ps p Hps Hp)
    as (c & Hc & u & Hid & Hrec).
  apply product_containers_elem in Hc.
  apply card_record_assemble in Hrec as (link & pe & Hlink & Htitle & Hpe & ->).
  unfold card_identity in Hid. rewrite Hlink in Hid. cbn [mbind option_bind] in Hid.
  destruct (get link "href") as [href|] eqn:Hhref; [|done].
  cbn [mbind option_bind] in Hid. injection Hid as Hid.
  exists c, link, href, pe. cbn [url title price brand rating reviews inventory
                                 sold_by_target assemble].
  split; [done|]. split.
  { split; [|done]. by apply (select_one_first _ _ _ _ matches_title_link). }
  split; [done|]. split.
  { split; [|done]. by apply (select_one_first _ _ _ _ matches_price). }
  split; [|done].
  destruct (brand_elem c) as [b|] eqn:Hb.
  - right. exists b. split; [|done].
    by apply (select_one_first _ _ _ _ matches_brand).
  - left. split; [|done]. by apply (select_one_none _ _ _ matches_brand).
Qed.

Lemma record_provenance_witness :
  ∃ card link href pe,
    (card ∈ tags_below line_feed_soup ∧ is_card card)
    ∧ (first_tag is_title_link card link ∧ get link "href" = Some href
       ∧ clean_url_of href = Ok (url line_feed_record))
    ∧ (title line_feed_record = get_text_strip link
       ∧ title line_feed_record ≠ "")
    ∧ (first_tag is_price card pe
       ∧ price line_feed_record = get_text_strip pe)
    ∧ ((∀ e, e ∈ tags_below card → ¬ is_brand e)
       ∧ brand line_feed_record = "N/A"
       ∨ ∃ b, first_tag is_brand card b
              ∧ brand line_feed_record = get_text_strip b)
    ∧ rating line_feed_record = extract_star_rating (Some card)
    ∧ reviews line_feed_record = extract_review_count (Some card)
    ∧ inventory line_feed_record = extract_inventory_count (Some card)
    ∧ sold_by_target line_feed_record = is_sold_by_target (Some card).
Proof.
  apply (record_provenance line_feed_soup [line_feed_record] line_feed_record).
  - by vm_compute.
  - by left.
Defined.

(** ** Identities *)

Section identity_facts.
Import urllib_parse.

Lemma clean_url_of_no_marks (h u : string) : clean_url_of h = Ok u → no_marks u.
Proof.
  intros (p & Hok & Hsc & _ & ->)%clean_url_of_parsed.
  destruct Hok as (_ & Hnl & _ & Hpa & _).
  apply scheme_like_facts in Hsc as (_ & _ & _ & _ & _ & Hsc & _).
  unfold identity_of. rewrite !no_marks_app. split; [done|]. split; [done|].
  split; [by apply no_delims_no_marks | done].
Qed.

End identity_facts.

(** X9.  An identity holds no ['?'] and no ['#']: whatever the link
    target, the query string and the fragment identifier are gone from its
    identity, and so from the [url] of every record. *)
Theorem identity_without_query :
  (∀ h u, clean_url_of h = Ok u → has_char "?" u = false ∧ has_char "#" u = false)
  ∧ ∀ soup ps p, extract_product_data soup = Ok ps → p ∈ ps →
                 has_char "?" (url p) = false ∧ has_char "#" (url p) = false.
Proof.
  assert (∀ u, no_marks u → has_char "?" u = false ∧ has_char "#" u = false) as H.
  { intros u Hu. rewrite !has_char_false. split.
    - eapply all_chars_impl; [|exact Hu]. intros c. by_chars c.
    - eapply all_chars_impl; [|exact Hu]. intros c. by_chars c. }
  split.
  - intros h u Hu. by apply H, (clean_url_of_no_marks h).
  - intros soup ps p Hps Hp.
    destruct (extract_product_data_emitted _ _ _ Hps Hp) as (c & _ & u & Hid & Hrec).
    rewrite (card_record_url _ _ _ Hrec). apply H.
    unfold card_identity in Hid.
    destruct (title_link c) as [link|]; [|done]. simpl in Hid.
    destruct (get link "href") as [href|]; [|done]. simpl in Hid.
    injection Hid as Hid. by apply (clean_url_of_no_marks href).
Qed.

Lemma identity_without_query_witness :
  has_char "?" (url hero_record) = false ∧ has_char "#" (url hero_record) = false.
Proof.
  apply (proj1 identity_without_query
           "/p/hero-figure-x/-/A-12345?preselect=1#reviews" (url hero_record)).
  by vm_compute.
Defined.

Section root_path_facts.
Import urllib_parse.

Lemma split_not_nil (c : ascii) (s : string) : split c s ≠ [].
Proof.
  destruct s as [|d s]; [done|]. simpl.
  destruct (split c s); [done|]. by destruct (Ascii.eqb d c).
Qed.

Lemma join_split (c : ascii) (s : string) :
  join (String c "") (split c s) = s.
Proof.
  induction s as [|d s IH]; [done|]. cbn [split].
  pose proof (split_not_nil c s) as Hne.
  destruct (split c s) as [|x xs]; [done|].
  destruct (Ascii.eqb_spec d c) as [->|_].
  - change (join (String c "") ("" :: x :: xs))
      with ("" +:+ String c "" +:+ join (String c "") (x :: xs)).
    by rewrite IH.
  - destruct xs as [|y xs].
    + simpl in *. by rewrite IH.
    + change (join (String c "") (String d x :: y :: xs))
        with (String d (x +:+ String c "" +:+ join (String c "") (y :: xs))).
      by rewrite <- IH.
Qed.

Lemma resolve_plain (segments : list string) :
  Forall (λ seg, seg ≠ "." ∧ seg ≠ "..") segments → resolve segments = segments.
Proof.
  intros H. unfold resolve.
  assert (∀ acc, fold_left resolve_segment segments acc = acc ++ segments) as ->.
  { induction H as [|seg segs [H1 H2] _ IH]; intros acc; simpl.
    - by rewrite app_nil_r.
    - unfold resolve_segment at 2.
      apply String.eqb_neq in H1, H2. rewrite H1, H2, IH.
      by rewrite <- app_assoc. }
  simpl. destruct (last segments) as [seg|] eqn:E; [|done].
  assert (seg ∈ segments) as Hin.
  { apply last_Some in E as [l' ->]. apply elem_of_app. right. by left. }
  rewrite List.Forall_forall in H.
  destruct (H seg) as [H1 H2]; [by apply list_elem_of_In|].
  apply String.eqb_neq in H1, H2. by rewrite H1, H2.
Qed.

Lemma split_scheme_slash (r : string) : split_scheme (String "/" r) = None.
Proof.
  unfold split_scheme. cbn [break].
  destruct (Ascii.eqb ":" "/") eqn:E; [done|].
  destruct (break (Ascii.eqb ":") r) as [a b]. by destruct b.
Qed.

Lemma urlparse_root_path (pa : string) :
  plain_path pa →
  urlparse pa "https"
  = Ok {| scheme := "https"; netloc := ""; path := pa;
          params := ""; query := ""; fragment := "" |}.
Proof.
  intros (Hs & Hss & Hm & Hu & Hp & _).
  apply starts_with_slash in Hs as [r ->].
  rewrite urlparse_eq, urlsplit_eq. cbv zeta.
  rewrite lstrip_id by done. rewrite (remove_chars_id _ _ Hu).
  rewrite split_scheme_slash.
  unfold split_rest, split_netloc.
  apply startswith_false in Hss. rewrite Hss. cbn [fst snd].
  change (negb (netloc_ok "")) with false. cbv iota.
  destruct (no_marks_split _ Hm) as [E1 E2].
  rewrite E1. cbn [fst snd]. rewrite E2. cbn [fst snd].
  unfold with_params. cbn [s_scheme s_netloc s_path s_query s_fragment].
  assert (rstrip c0_control_or_space (lstrip c0_control_or_space "https") = "https")
    as -> by (by vm_compute).
  change (remove_chars unsafe_url_byte "https") with "https".
  destruct (mem "https" uses_params && has_char ";" (String "/" r)); [|done].
  by rewrite (splitparams_id _ Hp).
Qed.

Lemma clean_url_of_plain (pa : string) :
  plain_path pa → clean_url_of pa = Ok (base_url +:+ pa).
Proof.
  intros Hpl. pose proof Hpl as (Hs & Hss & Hm & Hu & Hp & Hseg).
  assert (pa ≠ "") as Hne by (by destruct pa).
  rewrite (clean_url_of_eq pa Hne), (urlparse_root_path pa Hpl).
  cbn [scheme]. change (String.eqb "https" "https") with true. cbv iota.
  assert (joined {| scheme := "https"; netloc := ""; path := pa;
                    params := ""; query := ""; fragment := "" |}
          = {| scheme := "https"; netloc := "www.target.com"; path := pa;
               params := ""; query := ""; fragment := "" |}) as ->.
  { unfold joined. cbn [scheme netloc path params query fragment nonempty].
    apply nonempty_true in Hne. rewrite Hne, Hs. cbn [negb andb].
    rewrite (resolve_plain _ Hseg), (join_split "/" pa), Hne. done. }
  assert (urlunparse {| scheme := "https"; netloc := "www.target.com"; path := pa;
                        params := ""; query := ""; fragment := "" |}
          = "https" +:+ "://" +:+ "www.target.com" +:+ pa) as ->.
  { unfold urlunparse, urlunsplit.
    cbn [scheme netloc path params query fragment nonempty
         s_scheme s_netloc s_path s_query s_fragment orb].
    by rewrite Hs, andb_false_r. }
  rewrite (parse_identity "https" "www.target.com" pa "");
    [| done | done | done | done | done | done].
  apply starts_with_slash in Hs as [r ->]. cbn [break].
  change (char_in "/?#" "/") with true. cbv iota. cbn [fst snd].
  rewrite str_app_nil_r.
  change (netloc_ok "www.target.com") with true. cbv iota.
  done.
Qed.

End root_path_facts.

(** X10.  A link that gives a path from the root of the site, and the
    same link written out with the origin "https://www.target.com", have
    the same identity: the origin followed by the path, whatever query
    string or fragment identifier follows the path. *)
Theorem clean_url_of_root_path (pa tail : string) :
  plain_path pa → url_tail tail →
  clean_url_of (pa +:+ tail) = Ok ("https://www.target.com" +:+ pa)
  ∧ clean_url_of ("https://www.target.com" +:+ pa +:+ tail)
    = Ok ("https://www.target.com" +:+ pa).
Proof.
  intros Hpl Htail. pose proof Hpl as (Hs & Hss & Hm & Hrest).
  pose proof (clean_url_of_plain pa Hpl) as Hpa. split.
  - by rewrite (clean_url_of_tail pa tail Hm Htail).
  - change "https://www.target.com" with base_url.
    rewrite <- str_app_assoc.
    rewrite (clean_url_of_tail _ tail (clean_url_of_no_marks _ _ Hpa) Htail).
    pose proof Hpa as (p & Hok & Hsl & Hn & Hu)%clean_url_of_parsed.
    rewrite Hu. apply (renormalize p Hok Hsl Hn). left.
    apply Hn, identity_https; [done|]. by rewrite <- Hu.
Qed.

Lemma clean_url_of_root_path_witness :
  clean_url_of ("/p/hero-figure-x/-/A-12345" +:+ "?preselect=1")
  = Ok ("https://www.target.com" +:+ "/p/hero-figure-x/-/A-12345")
  ∧ clean_url_of ("https://www.target.com" +:+ "/p/hero-figure-x/-/A-12345"
                  +:+ "?preselect=1")
    = Ok ("https://www.target.com" +:+ "/p/hero-figure-x/-/A-12345").
Proof.
  apply (clean_url_of_root_path "/p/hero-figure-x/-/A-12345" "?preselect=1").
  - repeat split; try (by vm_compute). vm_compute. repeat constructor; done.
  - by vm_compute.
Defined.

(** ** Pages that fail, the order of the records, resumed runs *)

Section failure_facts.

Lemma process_containers_raises (cs : list Tag) :
  ∀ st, process_containers st cs = ValueError
        ↔ ∃ c, c ∈ cs ∧ card_identity c = Some ValueError.
Proof.
  induction cs as [|c cs IH]; intros st.
  - simpl. split; [done | by intros (c & ?%elem_of_nil & _)].
  - cbn [process_containers]. rewrite process_container_eq.
    destruct (card_identity c) as [[u|]|] eqn:Hc.
    + assert (∀ st1 : extraction,
                (x ← Ok st1; process_containers x cs) = process_containers st1 cs)
        as Hbind by done.
      destruct (decide (u ∈ seen_urls st)); rewrite Hbind, IH.
      all: split; [intros (c' & Hc' & H); exists c'; split; [by right | done]|].
      all: intros (c' & [->|Hc']%elem_of_cons & H); [congruence | eauto].
    + split; [|done]. intros _. exists c. split; [by left | done].
    + assert ((x ← Ok st; process_containers x cs) = process_containers st cs)
        as -> by done.
      rewrite IH.
      split; [intros (c' & Hc' & H); exists c'; split; [by right | done]|].
      intros (c' & [->|Hc']%elem_of_cons & H); [congruence | eauto].
Qed.

Lemma scrape_page_skipped (st : scrape) (pg : page) :
  skipped pg = true → scrape_page st pg = st.
Proof.
  destruct pg as [| |soup]; try done. simpl.
  by destruct (extract_product_data soup).
Qed.

Lemma scrape_fold_skipped (pages : list page) :
  ∀ st, fold_left scrape_page pages st
        = fold_left scrape_page (List.filter (λ pg, negb (skipped pg)) pages) st.
Proof.
  induction pages as [|pg pages IH]; intros st; [done|]. simpl.
  destruct (skipped pg) eqn:E; simpl.
  - by rewrite (scrape_page_skipped st pg E).
  - apply IH.
Qed.

End failure_facts.

(** X11.  The extraction of a page raises exactly when one of its cards
    has a title link whose target cannot be normalized.  The page is then
    skipped as a whole, the cards before that one included; and a run is
    the run over the pages that are not skipped (missing, unreadable, or
    raising). *)
Theorem extract_product_data_raises (soup : Tag) :
  (extract_product_data soup = ValueError
   ↔ ∃ c, c ∈ product_containers soup ∧ card_identity c = Some ValueError)
  ∧ (extract_product_data soup = ValueError →
     ∀ st, scrape_page st (Html soup) = st)
  ∧ ∀ existing pages,
      scrape_all_pages existing pages
      = scrape_all_pages existing (List.filter (λ pg, negb (skipped pg)) pages).
Proof.
  split; [|split].
  - rewrite <- (process_containers_raises _ {| products := []; seen_urls := ∅ |}).
    unfold extract_product_data.
    by destruct (process_containers _ (product_containers soup)).
  - intros H st. apply scrape_page_skipped. simpl. by rewrite H.
  - intros existing pages. unfold scrape_all_pages, scrape_pages.
    by rewrite scrape_fold_skipped.
Qed.

Lemma extract_product_data_raises_witness :
  extract_product_data hero_then_broken_soup = ValueError
  ∧ scrape_all_pages ∅ [Html hero_then_broken_soup; Html hero_soup]
    = scrape_all_pages ∅ [Html hero_soup].
Proof.
  split.
  - apply (proj2 (proj1 (extract_product_data_raises hero_then_broken_soup))).
    exists (tag_of broken_card). split.
    + vm_compute. right. by left.
    + by vm_compute.
  - apply (proj2 (proj2 (extract_product_data_raises hero_soup)) ∅
             [Html hero_then_broken_soup; Html hero_soup]).
Defined.

Section order_facts.

Lemma process_containers_order (cs : list Tag) :
  ∀ st st', process_containers st cs = Ok st' →
            ∃ new, products st' = products st ++ new
                   ∧ map url new `sublist_of` card_identities cs.
Proof.
  induction cs as [|c cs IH]; intros st st'.
  - intros [= <-]. exists []. by rewrite app_nil_r.
  - cbn [process_containers]. rewrite process_container_eq.
    unfold card_identities. cbn [omap list_omap].
    destruct (card_identity c) as [[u|]|] eqn:Hc; [| done |].
    + destruct (decide (u ∈ seen_urls st)); intros H.
      * destruct (IH _ _ H) as (new & Hnew & Hsub). exists new.
        split; [done|]. by apply sublist_cons.
      * destruct (IH _ _ H) as (new & Hnew & Hsub). simpl in Hnew.
        exists (option_list (card_record c u) ++ new).
        split; [by rewrite app_assoc|].
        destruct (card_record c u) as [p|] eqn:Hp; simpl.
        -- rewrite (card_record_url _ _ _ Hp). by apply sublist_skip.
        -- by apply sublist_cons.
    + intros H. apply (IH _ _ H).
Qed.

Lemma dedupe_sublist (rs : list product) :
  ∀ known, (dedupe known rs).1 `sublist_of` rs.
Proof.
  induction rs as [|r rs IH]; intros known; simpl; [done|].
  destruct (decide (url r ∈ known)).
  - apply sublist_cons, IH.
  - specialize (IH ({[ url r ]} ∪ known)).
    destruct (dedupe ({[ url r ]} ∪ known) rs) as [novel known'].
    by apply sublist_skip.
Qed.

End order_facts.

(** X12.  The records of a page come in the order of its cards: their
    identities are a subsequence of the identities of the cards.  And the
    records of a run are a subsequence of the records of its pages, page
    after page. *)
Theorem records_in_document_order :
  (∀ soup ps, extract_product_data soup = Ok ps →
              map url ps `sublist_of` card_identities (product_containers soup))
  ∧ ∀ existing pages,
      (scrape_all_pages existing pages).1
      `sublist_of` concat (map page_records pages).
Proof.
  split.
  - intros soup ps. unfold extract_product_data.
    destruct (process_containers _ (product_containers soup)) as [st'|] eqn:E;
      [|done].
    intros [= <-]. apply process_containers_order in E as (new & -> & Hsub).
    done.
  - intros existing pages. unfold scrape_all_pages, scrape_pages. simpl.
    rewrite scrape_fold. simpl.
    pose proof (dedupe_sublist (concat (map page_records pages)) existing) as H.
    by destruct (dedupe existing (concat (map page_records pages))).
Qed.

Lemma records_in_document_order_witness :
  map url [hero_record]
  `sublist_of` card_identities (product_containers hero_twice_soup).
Proof.
  apply (proj1 records_in_document_order hero_twice_soup [hero_record]).
  by vm_compute.
Defined.

(** X13.  A run can be cut in two: the pages of the second part,
    processed with the set of known identities that the first part leaves,
    give the rest of the records, the rest of the count, and the final
    set. *)
Theorem scrape_pages_resume (existing : gset string) (pages1 pages2 : list page) :
  let st1 := scrape_pages existing pages1 in
  let st2 := scrape_pages (existing_urls st1) pages2 in
  scrape_pages existing (pages1 ++ pages2)
  = {| existing_urls := existing_urls st2;
       all_products := all_products st1 ++ all_products st2;
       new_products_count := new_products_count st1 + new_products_count st2 |}.
Proof.
  intros st1 st2. unfold scrape_pages. rewrite fold_left_app. fold (scrape_pages existing pages1).
  fold st1. subst st2. unfold scrape_pages. rewrite !scrape_fold. simpl.
  destruct (dedupe (existing_urls st1) (concat (map page_records pages2)))
    as [novel known']. simpl. done.
Qed.

(** ** The store *)

Section persistence.
Import io csv.

(** The reader in the state [st], with the field [x] begun and the
    fields [acc] read. *)
#[local] Abbreviation mk st x acc := {| state := st; field := x; fields := acc |}.

Section csv_facts.

Lemma records_cons (r : Reader) (line : string) (lines : list string) :
  records r (line :: lines)
  = match parse_chars r line with
    | Raises e => ([], Some e)
    | Returns r' => after_eol (parse_process_eol r') lines
    end.
Proof.
  cbn [records]. unfold parse_line.
  destruct (parse_chars r line) as [r'|e]; done.
Qed.

Lemma scan_records (s : string) :
  ∀ r, scan r false s = records r (readlines s)
       ∧ scan r true s
         = match readlines s with
           | [] => after_eol (parse_process_eol r) []
           | line :: lines =>
               match parse_chars r line with
               | Raises e => ([], Some e)
               | Returns r' => after_eol (parse_process_eol r') lines
               end
           end.
Proof.
  induction s as [|c s IH]; intros r; [done|].
  assert (scan r true (String c s)
          = match readlines (String c s) with
            | [] => after_eol (parse_process_eol r) []
            | line :: lines =>
                match parse_chars r line with
                | Raises e => ([], Some e)
                | Returns r' => after_eol (parse_process_eol r') lines
                end
            end) as H.
  { cbn [scan readlines].
    destruct (ends_line c s) eqn:E.
    - cbn [parse_chars]. destruct (parse_process_char r c) as [r1|e]; [|done].
      simpl. unfold after_eol.
      destruct (bool_decide (state (parse_process_eol r1) = START_RECORD));
        by rewrite (proj1 (IH _)).
    - destruct (parse_process_char r c) as [r1|e] eqn:E1.
      + rewrite (proj2 (IH r1)).
        destruct (readlines s) as [|line lines]; cbn [parse_chars]; rewrite E1; done.
      + destruct (readlines s) as [|line lines]; cbn [parse_chars]; rewrite E1; done. }
  split; [|done].
  change (scan r false (String c s)) with (scan r true (String c s)).
  rewrite H. destruct (readlines (String c s)) as [|line lines] eqn:E.
  - exfalso. cbn [readlines] in E. destruct (ends_line c s); [done|].
    by destruct (readlines s).
  - by rewrite records_cons.
Qed.

Lemma reader_scan (s : string) : reader (readlines s) = scan parse_reset false s.
Proof. symmetry. apply scan_records. Qed.

Lemma fits_app_l (x f : string) : fits (x +:+ f) → fits x.
Proof. unfold fits. rewrite str_app_length. lia. Qed.

Lemma fits_snoc (x : string) (c : ascii) (f : string) :
  fits (x +:+ String c f) → (field_limit <=? Z.of_nat (String.length x)) = false.
Proof.
  unfold fits. rewrite str_app_length. simpl. intros H. apply Z.leb_gt. lia.
Qed.

Lemma str_app_snoc (x : string) (c : ascii) (f : string) :
  (x +:+ String c "") +:+ f = x +:+ String c f.
Proof. by rewrite str_app_assoc. Qed.

Lemma plain_char (c : ascii) :
  negb (needs_quotes c) = true →
  is_newline c = false ∧ Ascii.eqb c QUOTE = false
  ∧ Ascii.eqb c DELIMITER = false ∧ ∀ s, ends_line c s = false.
Proof.
  unfold needs_quotes, is_newline, ends_line.
  destruct (Ascii.eqb c DELIMITER), (Ascii.eqb c QUOTE), (Ascii.eqb c CR),
    (Ascii.eqb c LF); simpl; try done.
Qed.

Lemma scan_nonempty (r : Reader) (b b' : bool) (s : string) :
  s ≠ "" → scan r b s = scan r b' s.
Proof. by destruct s. Qed.

(** The characters of an unquoted field. *)
Lemma scan_plain_chars (f : string) :
  ∀ x acc b s,
    plain f = true → fits (x +:+ f) → s ≠ "" →
    scan (mk IN_FIELD x acc) b (f +:+ s) = scan (mk IN_FIELD (x +:+ f) acc) true s.
Proof.
  induction f as [|c f IH]; intros x acc b s Hp Hfit Hs.
  - rewrite str_app_nil_r. by apply scan_nonempty.
  - unfold plain in Hp. simpl in Hp. apply andb_true_iff in Hp as [Hc Hp].
    destruct (plain_char c Hc) as (Hn & Hq & Hd & He).
    change (String c f +:+ s) with (String c (f +:+ s)). cbn [scan].
    unfold parse_process_char, parse_add_char. cbn [state field fields].
    rewrite Hn, Hd, (fits_snoc _ _ _ Hfit), He.
    rewrite IH; [by rewrite str_app_snoc | done | by rewrite str_app_snoc | done].
Qed.

(** The characters of a quoted field and the quote that closes it. *)
Lemma scan_quoted_chars (f : string) :
  ∀ x acc b s,
    fits (x +:+ f) →
    scan (mk IN_QUOTED_FIELD x acc) b (double_quotes f +:+ String QUOTE s)
    = scan (mk QUOTE_IN_QUOTED_FIELD (x +:+ f) acc) true s.
Proof.
  induction f as [|c f IH]; intros x acc b s Hfit.
  - rewrite str_app_nil_r. done.
  - cbn [double_quotes]. destruct (Ascii.eqb c QUOTE) eqn:Hq.
    + apply Ascii.eqb_eq in Hq as ->.
      change (String QUOTE (String QUOTE (double_quotes f)) +:+ String QUOTE s)
        with (String QUOTE (String QUOTE (double_quotes f +:+ String QUOTE s))).
      cbn [scan]. unfold parse_process_char at 1. cbn [state field fields].
      change (Ascii.eqb QUOTE QUOTE) with true. cbv iota.
      change (ends_line QUOTE (String QUOTE (double_quotes f +:+ String QUOTE s)))
        with false. cbv iota.
      unfold parse_process_char, parse_add_char. cbn [state field fields].
      change (Ascii.eqb QUOTE QUOTE) with true. cbv iota.
      rewrite (fits_snoc _ _ _ Hfit).
      change (ends_line QUOTE (double_quotes f +:+ String QUOTE s)) with false.
      cbv iota. rewrite IH; by rewrite str_app_snoc.
    + change (String c (double_quotes f) +:+ String QUOTE s)
        with (String c (double_quotes f +:+ String QUOTE s)).
      cbn [scan]. unfold parse_process_char, parse_add_char.
      cbn [state field fields]. rewrite Hq, (fits_snoc _ _ _ Hfit).
      assert (double_quotes f +:+ String QUOTE s ≠ "") as Hne.
      { intros H. by apply str_app_eq_nil in H as [_ ?]. }
      destruct (ends_line c _).
      * cbn [parse_process_eol state]. rewrite bool_decide_false by done.
        rewrite IH; by rewrite str_app_snoc.
      * rewrite IH; by rewrite str_app_snoc.
Qed.

(** The line terminator after the last field of a record. *)
Lemma scan_terminator (term : string) (st : ParserState) (x : string)
      (acc : list string) (b : bool) (rest : string) :
  terminator term →
  st = START_FIELD ∨ st = IN_FIELD ∨ st = QUOTE_IN_QUOTED_FIELD →
  scan (mk st x acc) b (term +:+ rest)
  = yield (acc ++ [x]) (scan parse_reset false rest).
Proof.
  intros [->| ->] [->|[->| ->]]; done.
Qed.

(** The line terminator of a record without fields. *)
Lemma scan_empty_record (term : string) (b : bool) (rest : string) :
  terminator term →
  scan parse_reset b (term +:+ rest) = yield [] (scan parse_reset false rest).
Proof. intros [->| ->]; done. Qed.

Lemma join_append_plain (f : string) : plain f = true → join_append f = f.
Proof. unfold join_append, plain. by intros ->. Qed.

Lemma join_append_quoted (f : string) :
  plain f = false →
  join_append f = String QUOTE (double_quotes f +:+ String QUOTE "").
Proof. unfold join_append, plain. by intros ->. Qed.

(** A field of a record and the delimiter after it. *)
Lemma scan_field_delimiter (f : string) (st : ParserState) (acc : list string)
      (b : bool) (s : string) :
  fits f → st = START_RECORD ∨ st = START_FIELD →
  scan (mk st "" acc) b (join_append f +:+ String DELIMITER s)
  = scan (mk START_FIELD "" (acc ++ [f])) true s.
Proof.
  intros Hfit Hst. destruct (plain f) eqn:Hp.
  - rewrite (join_append_plain f Hp). destruct f as [|c f].
    + by destruct Hst as [->| ->].
    + pose proof Hp as Hp'. unfold plain in Hp'. simpl in Hp'.
      apply andb_true_iff in Hp' as [Hc Hf].
      destruct (plain_char c Hc) as (Hn & Hq & Hd & He).
      change (String c f +:+ String DELIMITER s)
        with (String c (f +:+ String DELIMITER s)).
      cbn [scan]. rewrite He.
      assert (parse_process_char (mk st "" acc) c
              = Returns (mk IN_FIELD (String c "") acc)) as ->.
      { unfold parse_process_char, parse_add_char. cbn [state field fields].
        rewrite Hn, Hq, Hd. by destruct Hst as [->| ->]. }
      rewrite scan_plain_chars; [| done | done | done]. done.
  - rewrite (join_append_quoted f Hp).
    change (String QUOTE (double_quotes f +:+ String QUOTE "") +:+ String DELIMITER s)
      with (String QUOTE ((double_quotes f +:+ String QUOTE "") +:+ String DELIMITER s)).
    rewrite str_app_assoc.
    change (String QUOTE "" +:+ String DELIMITER s) with (String QUOTE (String DELIMITER s)).
    cbn [scan].
    assert (parse_process_char (mk st "" acc) QUOTE
            = Returns (mk IN_QUOTED_FIELD "" acc)) as ->.
    { by destruct Hst as [->| ->]. }
    change (ends_line QUOTE _) with false. cbv iota.
    rewrite scan_quoted_chars by done. done.
Qed.

(** The last field of a record and the line terminator. *)
Lemma scan_field_terminator (term f : string) (st : ParserState)
      (acc : list string) (b : bool) (rest : string) :
  terminator term → fits f →
  st = START_FIELD ∨ (st = START_RECORD ∧ f ≠ "") →
  scan (mk st "" acc) b (join_append f +:+ term +:+ rest)
  = yield (acc ++ [f]) (scan parse_reset false rest).
Proof.
  intros Hterm Hfit Hst.
  assert (term +:+ rest ≠ "") as Hne.
  { intros H. apply str_app_eq_nil in H as [H _]. by destruct Hterm as [->| ->]. }
  destruct (plain f) eqn:Hp.
  - rewrite (join_append_plain f Hp). destruct f as [|c f].
    + destruct Hst as [->|[_ ?]]; [|done].
      change ("" +:+ term +:+ rest) with (term +:+ rest).
      apply scan_terminator; auto.
    + pose proof Hp as Hp'. unfold plain in Hp'. simpl in Hp'.
      apply andb_true_iff in Hp' as [Hc Hf].
      destruct (plain_char c Hc) as (Hn & Hq & Hd & He).
      change (String c f +:+ term +:+ rest) with (String c (f +:+ term +:+ rest)).
      cbn [scan]. rewrite He.
      assert (parse_process_char (mk st "" acc) c
              = Returns (mk IN_FIELD (String c "") acc)) as ->.
      { unfold parse_process_char, parse_add_char. cbn [state field fields].
        rewrite Hn, Hq, Hd. by destruct Hst as [->|[-> _]]. }
      rewrite scan_plain_chars; [| done | done | done].
      apply scan_terminator; auto.
  - rewrite (join_append_quoted f Hp).
    change (String QUOTE (double_quotes f +:+ String QUOTE "") +:+ term +:+ rest)
      with (String QUOTE ((double_quotes f +:+ String QUOTE "") +:+ term +:+ rest)).
    rewrite str_app_assoc.
    change (String QUOTE "" +:+ term +:+ rest) with (String QUOTE (term +:+ rest)).
    cbn [scan].
    assert (parse_process_char (mk st "" acc) QUOTE
            = Returns (mk IN_QUOTED_FIELD "" acc)) as ->.
    { by destruct Hst as [->|[-> _]]. }
    change (ends_line QUOTE _) with false. cbv iota.
    rewrite scan_quoted_chars by done.
    apply scan_terminator; auto.
Qed.

(** The fields of a record after the first one. *)
Lemma scan_fields (term : string) (rest : string) (fs : list string) :
  terminator term →
  ∀ f acc b,
    Forall fits (f :: fs) →
    scan (mk START_FIELD "" acc) b
         (join (String DELIMITER "") (map join_append (f :: fs)) +:+ term +:+ rest)
    = yield (acc ++ f :: fs) (scan parse_reset false rest).
Proof.
  intros Hterm. induction fs as [|g fs IH]; intros f acc b Hfit.
  - apply Forall_cons in Hfit as [Hf _]. cbn [map join].
    apply scan_field_terminator; auto.
  - apply Forall_cons in Hfit as [Hf Hfit].
    change (join (String DELIMITER "") (map join_append (f :: g :: fs)))
      with (join_append f +:+ String DELIMITER ""
            +:+ join (String DELIMITER "") (map join_append (g :: fs))).
    rewrite !str_app_assoc.
    change (String DELIMITER "" +:+ ?x) with (String DELIMITER x).
    rewrite scan_field_delimiter by auto.
    rewrite IH by done. by rewrite <- app_assoc.
Qed.

(** A record that was written is read back as it was. *)
Lemma scan_row (term : string) (fs : list string) (rest : string) :
  terminator term → Forall fits fs →
  scan parse_reset false (row_text term fs +:+ rest)
  = yield fs (scan parse_reset false rest).
Proof.
  intros Hterm Hfit. unfold row_text. cbv zeta. rewrite str_app_assoc.
  destruct fs as [|f [|g fs]].
  - rewrite bool_decide_false by (by intros H; apply H). cbn [map join andb].
    change ("" +:+ term +:+ rest) with (term +:+ rest).
    by apply scan_empty_record.
  - cbn [map join]. rewrite bool_decide_true by done. cbn [andb].
    destruct (join_append f) as [|c e] eqn:E.
    + assert (f = "") as ->.
      { unfold join_append in E. destruct (negb _); [done | done]. }
      cbn [nonempty negb].
      change (String QUOTE (String QUOTE "") +:+ term +:+ rest)
        with (String QUOTE (String QUOTE (term +:+ rest))).
      cbn [scan]. change (parse_process_char parse_reset QUOTE)
        with (Returns (mk IN_QUOTED_FIELD "" [])).
      change (ends_line QUOTE _) with false. cbv iota.
      cbn [scan]. change (parse_process_char (mk IN_QUOTED_FIELD "" []) QUOTE)
        with (Returns (mk QUOTE_IN_QUOTED_FIELD "" [])).
      change (ends_line QUOTE _) with false. cbv iota.
      apply (scan_terminator term QUOTE_IN_QUOTED_FIELD "" []); auto.
    + cbn [nonempty negb]. rewrite <- E.
      apply Forall_cons in Hfit as [Hf _].
      apply (scan_field_terminator term f START_RECORD []); [done | done |].
      right. split; [done|]. intros ->. done.
  - rewrite bool_decide_true by done. cbn [andb].
    change (join (String DELIMITER "") (map join_append (f :: g :: fs)))
      with (join_append f +:+ String DELIMITER ""
            +:+ join (String DELIMITER "") (map join_append (g :: fs))).
    assert (nonempty (join_append f +:+ String DELIMITER ""
                      +:+ join (String DELIMITER "") (map join_append (g :: fs)))
            = true) as ->.
    { apply nonempty_true. intros H. apply str_app_eq_nil in H as [_ H]. done. }
    cbn [negb]. apply Forall_cons in Hfit as [Hf Hfit].
    rewrite !str_app_assoc.
    change (String DELIMITER "" +:+ ?x) with (String DELIMITER x).
    rewrite (scan_field_delimiter f START_RECORD []) by auto.
    apply (scan_fields term rest fs Hterm g [f] true Hfit).
Qed.

Lemma writerow_row_text (fs : list string) :
  writerow fs = row_text lineterminator fs.
Proof. done. Qed.

(** A row of the file is read back, whatever follows it. *)
Lemma reader_writerow (fs : list string) (rest : string) :
  Forall fits fs →
  reader (readlines (writerow fs +:+ rest)) = yield fs (reader (readlines rest)).
Proof.
  intros Hfit. rewrite !reader_scan, writerow_row_text.
  apply scan_row; [by left | done].
Qed.

End csv_facts.

Section store_facts.

Lemma str_concat_cons (x : string) (xs : list string) :
  String.concat "" (x :: xs) = x +:+ String.concat "" xs.
Proof. destruct xs; simpl; [by rewrite str_app_nil_r | done]. Qed.

Lemma str_concat_app (xs ys : list string) :
  String.concat "" (xs ++ ys) = String.concat "" xs +:+ String.concat "" ys.
Proof.
  induction xs as [|x xs IH]; [done|].
  change ((x :: xs) ++ ys)%list with (x :: (xs ++ ys))%list.
  by rewrite !str_concat_cons, IH, str_app_assoc.
Qed.

Lemma rows_text_cons (p : product) (ps : list product) :
  rows_text (p :: ps) = writerow (row_of p) +:+ rows_text ps.
Proof. apply str_concat_cons. Qed.

Lemma rows_text_app (ps qs : list product) :
  rows_text (ps ++ qs) = rows_text ps +:+ rows_text qs.
Proof. unfold rows_text. by rewrite map_app, str_concat_app. Qed.

Lemma fieldnames_fit : Forall fits fieldnames.
Proof. repeat constructor; by vm_compute. Qed.

(** The rows of the store are read back as they were written. *)
Lemma reader_rows_text (ps : list product) :
  Forall storable ps →
  reader (readlines (rows_text ps)) = (map row_of ps, None).
Proof.
  induction 1 as [|p ps Hp _ IH]; [done|].
  rewrite rows_text_cons, (reader_writerow _ _ Hp), IH. done.
Qed.

Lemma reader_store (ps : list product) :
  Forall storable ps →
  reader (readlines (writerow fieldnames +:+ rows_text ps))
  = (fieldnames :: map row_of ps, None).
Proof.
  intros Hps. by rewrite (reader_writerow _ _ fieldnames_fit), reader_rows_text.
Qed.

Lemma filter_rows {A} (f : A → list string) (l : list A) :
  (∀ x, f x ≠ []) →
  List.filter (λ row, negb (bool_decide (row = []))) (map f l) = map f l.
Proof.
  intros Hf. induction l as [|x l IH]; [done|]. cbn [map List.filter].
  rewrite bool_decide_false by apply Hf. cbn [negb]. by rewrite IH.
Qed.

Lemma url_of_row (p : product) :
  dict_of_row fieldnames (row_of p) !! "url" = Some (Some (url p)).
Proof. destruct p. by vm_compute. Qed.

Lemma load_fold (ps : list product) :
  ∀ acc : gset (option string),
    foldl (λ acc row,
             existing_products ← acc;
             match row !! "url" with
             | Some v => Returns ({[ v ]} ∪ existing_products)
             | None => Raises KeyError
             end)
          (Returns acc)
          (dict_of_row fieldnames <$> map row_of ps)
    = Returns (acc ∪ list_to_set (map (λ p, Some (url p)) ps)).
Proof.
  induction ps as [|p ps IH]; intros acc.
  - simpl. f_equal. set_solver.
  - cbn [map fmap list_fmap foldl]. rewrite url_of_row.
    change (existing_products ← Returns acc; Returns ({[Some (url p)]} ∪ existing_products))
      with (Returns ({[Some (url p)]} ∪ acc)).
    rewrite (IH ({[Some (url p)]} ∪ acc)). f_equal. set_solver.
Qed.

Lemma load_store (ps : list product) :
  Forall storable ps →
  load_existing_products (Some (writerow fieldnames +:+ rows_text ps))
  = Returns (list_to_set (map (λ p, Some (url p)) ps)).
Proof.
  intros Hps. unfold load_existing_products, DictReader.
  rewrite (reader_store ps Hps), (filter_rows row_of) by done.
  rewrite load_fold.
  simpl. f_equal. set_solver.
Qed.

Lemma load_stored (ps : list product) :
  Forall storable ps →
  load_existing_products (stored ps)
  = Returns (list_to_set (map (λ p, Some (url p)) ps)).
Proof.
  intros Hps. destruct ps as [|p ps]; [done|]. by apply load_store.
Qed.

Lemma save_stored (old new : list product) :
  save_to_csv new (stored old) = stored (old ++ new).
Proof.
  destruct new as [|q new]; [by rewrite app_nil_r|].
  destruct old as [|p old]; [done|].
  unfold save_to_csv, stored. fold (rows_text (q :: new)).
  change ((p :: old) ++ q :: new)%list with (p :: (old ++ q :: new))%list.
  cbv iota. f_equal.
  change (p :: (old ++ q :: new))%list with ((p :: old) ++ q :: new)%list.
  by rewrite rows_text_app, str_app_assoc.
Qed.

Lemma identities_stored (ps : list product) :
  identities (list_to_set (map (λ p, Some (url p)) ps)) = list_to_set (map url ps).
Proof.
  unfold identities. apply set_eq. intros u.
  rewrite elem_of_set_omap, elem_of_list_to_set, list_elem_of_In, in_map_iff. split.
  - intros (x & Hx & Hid).
    apply elem_of_list_to_set, list_elem_of_In, in_map_iff in Hx as (p & <- & Hp).
    simpl in Hid. injection Hid as <-. eauto.
  - intros (p & <- & Hp). exists (Some (url p)). split; [|done].
    apply elem_of_list_to_set, list_elem_of_In, in_map_iff. eauto.
Qed.

End store_facts.

Section universal_facts.

Lemma string_ind2 (P : string → Prop) :
  P "" → (∀ c, P (String c "")) →
  (∀ c d s, P s → P (String d s) → P (String c (String d s))) →
  ∀ s, P s.
Proof.
  intros H0 H1 H2. assert (∀ s, P s ∧ ∀ c, P (String c s)) as H.
  { induction s as [|d s [IH1 IH2]]; [by split|]. split; [apply IH2|].
    intros c. by apply H2. }
  intros s. apply H.
Qed.

Lemma universal_cons (c : ascii) (s : string) :
  Ascii.eqb c CR = false →
  universal_newlines (String c s) = String c (universal_newlines s).
Proof. intros H. cbn [universal_newlines]. by rewrite H. Qed.

Lemma universal_cr_lf (s : string) :
  universal_newlines (String CR (String LF s)) = String LF (universal_newlines s).
Proof. done. Qed.

Lemma universal_cr (d : ascii) (s : string) :
  Ascii.eqb d LF = false →
  universal_newlines (String CR (String d s))
  = String LF (universal_newlines (String d s)).
Proof.
  intros H.
  change (universal_newlines (String CR (String d s)))
    with (String LF (if Ascii.eqb d LF then universal_newlines s
                     else universal_newlines (String d s))).
  by rewrite H.
Qed.

Lemma universal_app (a b : string) :
  no_lf_first b →
  universal_newlines (a +:+ b) = universal_newlines a +:+ universal_newlines b.
Proof.
  intros Hb. induction a as [| c | c d a IH1 IH2] using string_ind2.
  - done.
  - change (String c "" +:+ b) with (String c b).
    destruct (Ascii.eqb_spec c CR) as [->|Hc].
    + destruct b as [|d b]; [done|]. simpl in Hb. by rewrite (universal_cr d b Hb).
    + apply Ascii.eqb_neq in Hc. by rewrite !(universal_cons c _ Hc).
  - change (String c (String d a) +:+ b) with (String c (String d (a +:+ b))).
    change (String d a +:+ b) with (String d (a +:+ b)) in IH2.
    destruct (Ascii.eqb_spec c CR) as [->|Hc].
    + destruct (Ascii.eqb_spec d LF) as [->|Hd].
      * by rewrite !universal_cr_lf, IH1.
      * apply Ascii.eqb_neq in Hd. by rewrite !(universal_cr d _ Hd), IH2.
    + apply Ascii.eqb_neq in Hc. by rewrite !(universal_cons c _ Hc), IH2.
Qed.

Lemma universal_length (s : string) :
  (String.length (universal_newlines s) ≤ String.length s)%nat.
Proof.
  induction s as [| c | c d s IH1 IH2] using string_ind2.
  - done.
  - cbn [universal_newlines]. by destruct (Ascii.eqb c CR).
  - destruct (Ascii.eqb_spec c CR) as [->|Hc].
    + destruct (Ascii.eqb_spec d LF) as [->|Hd].
      * rewrite universal_cr_lf. simpl. lia.
      * apply Ascii.eqb_neq in Hd. rewrite (universal_cr d _ Hd).
        simpl in *. lia.
    + apply Ascii.eqb_neq in Hc. rewrite (universal_cons c _ Hc). simpl in *. lia.
Qed.

Lemma universal_fits (f : string) : fits f → fits (universal_newlines f).
Proof. unfold fits. pose proof (universal_length f). lia. Qed.

Lemma universal_plain_id (f : string) : plain f = true → universal_newlines f = f.
Proof.
  unfold plain. induction f as [|c f IH]; [done|]. cbn [all_chars].
  intros [Hc Hf]%andb_true_iff.
  destruct (Ascii.eqb_spec c CR) as [->|Hn]; [done|].
  apply Ascii.eqb_neq in Hn. by rewrite (universal_cons c _ Hn), IH.
Qed.

Lemma universal_plain (f : string) : plain (universal_newlines f) = plain f.
Proof.
  destruct (plain f) eqn:Hp; [by rewrite universal_plain_id|].
  unfold plain in *. induction f as [| c | c d s IH1 IH2] using string_ind2.
  - done.
  - destruct (Ascii.eqb_spec c CR) as [->|Hn]; [done|].
    apply Ascii.eqb_neq in Hn. by rewrite (universal_cons c _ Hn).
  - destruct (Ascii.eqb_spec c CR) as [->|Hn].
    + destruct (Ascii.eqb_spec d LF) as [->|Hd]; [done|].
      apply Ascii.eqb_neq in Hd. by rewrite (universal_cr d _ Hd).
    + apply Ascii.eqb_neq in Hn. rewrite (universal_cons c _ Hn).
      cbn [all_chars] in Hp |- *.
      destruct (negb (needs_quotes c)); [|done]. cbn [andb] in *. by apply IH2.
Qed.

Lemma double_quotes_cons (c : ascii) (s : string) :
  Ascii.eqb c QUOTE = false →
  double_quotes (String c s) = String c (double_quotes s).
Proof. intros H. cbn [double_quotes]. by rewrite H. Qed.

Lemma double_quotes_quote (s : string) :
  double_quotes (String QUOTE s) = String QUOTE (String QUOTE (double_quotes s)).
Proof. done. Qed.

Lemma universal_double_quotes (f : string) :
  universal_newlines (double_quotes f) = double_quotes (universal_newlines f).
Proof.
  induction f as [| c | c d s IH1 IH2] using string_ind2.
  - done.
  - destruct (Ascii.eqb_spec c QUOTE) as [->|Hq]; [done|].
    destruct (Ascii.eqb_spec c CR) as [->|Hc]; [done|].
    apply Ascii.eqb_neq in Hq, Hc.
    by rewrite (double_quotes_cons c _ Hq), !(universal_cons c _ Hc),
         (double_quotes_cons c _ Hq).
  - destruct (Ascii.eqb_spec c QUOTE) as [->|Hq].
    + rewrite double_quotes_quote.
      rewrite !(universal_cons QUOTE) by done.
      by rewrite double_quotes_quote, IH2.
    + apply Ascii.eqb_neq in Hq. rewrite (double_quotes_cons c _ Hq).
      destruct (Ascii.eqb_spec c CR) as [->|Hc].
      * destruct (Ascii.eqb_spec d LF) as [->|Hd].
        -- rewrite (double_quotes_cons LF) by done.
           rewrite !universal_cr_lf, (double_quotes_cons LF) by done.
           by rewrite IH1.
        -- apply Ascii.eqb_neq in Hd. rewrite (universal_cr d s Hd).
           rewrite (double_quotes_cons LF) by done. rewrite <- IH2.
           destruct (Ascii.eqb_spec d QUOTE) as [->|Hdq].
           ++ rewrite double_quotes_quote. by rewrite universal_cr.
           ++ apply Ascii.eqb_neq in Hdq. rewrite (double_quotes_cons d _ Hdq).
              by rewrite (universal_cr d _ Hd).
      * apply Ascii.eqb_neq in Hc.
        by rewrite !(universal_cons c _ Hc), (double_quotes_cons c _ Hq), IH2.
Qed.

Lemma universal_join_append (f : string) :
  universal_newlines (join_append f) = join_append (universal_newlines f).
Proof.
  unfold join_append. fold (plain f). fold (plain (universal_newlines f)).
  rewrite universal_plain. destruct (plain f) eqn:Hp; cbn [negb].
  - by rewrite universal_plain_id.
  - change (String QUOTE (double_quotes f) +:+ String QUOTE "")
      with (String QUOTE (double_quotes f +:+ String QUOTE "")).
    change (universal_newlines (String QUOTE (double_quotes f +:+ String QUOTE "")))
      with (String QUOTE (universal_newlines (double_quotes f +:+ String QUOTE ""))).
    rewrite universal_app by done. by rewrite universal_double_quotes.
Qed.

Lemma universal_join (fs : list string) :
  universal_newlines (join (String DELIMITER "") (map join_append fs))
  = join (String DELIMITER "") (map join_append (map universal_newlines fs)).
Proof.
  induction fs as [|f fs IH]; [done|]. destruct fs as [|g fs].
  - apply universal_join_append.
  - change (join (String DELIMITER "") (map join_append (f :: g :: fs)))
      with (join_append f +:+ String DELIMITER (join (String DELIMITER "")
                                                  (map join_append (g :: fs)))).
    rewrite universal_app by done. rewrite universal_join_append.
    change (universal_newlines (String DELIMITER ?x))
      with (String DELIMITER (universal_newlines x)).
    by rewrite IH.
Qed.

(** A row of the file as it is read with universal newlines. *)
Lemma universal_writerow (fs : list string) (rest : string) :
  universal_newlines (writerow fs +:+ rest)
  = row_text (String LF "") (map universal_newlines fs) +:+ universal_newlines rest.
Proof.
  unfold writerow, row_text. cbv zeta. rewrite <- universal_join.
  assert (bool_decide (map universal_newlines fs ≠ []) = bool_decide (fs ≠ [])) as ->.
  { by destruct fs. }
  assert (∀ x, nonempty (universal_newlines x) = nonempty x) as ->.
  { intros [|c x]; [done|]. cbn [universal_newlines]. by destruct (Ascii.eqb c CR). }
  set (rec := join (String DELIMITER "") (map join_append fs)).
  assert (∀ x, universal_newlines ((x +:+ lineterminator) +:+ rest)
               = (universal_newlines x +:+ String LF "") +:+ universal_newlines rest)
    as H.
  { intros x. rewrite !str_app_assoc. by rewrite universal_app. }
  destruct (bool_decide (fs ≠ []) && negb (nonempty rec)); apply H.
Qed.

End universal_facts.

Section main_facts.

Lemma reader_universal_rows (ps : list product) :
  Forall storable ps →
  reader (readlines (universal_newlines (rows_text ps)))
  = (map (λ p, map universal_newlines (row_of p)) ps, None).
Proof.
  induction 1 as [|p ps Hp _ IH]; [done|].
  rewrite rows_text_cons, universal_writerow, reader_scan, scan_row.
  - rewrite <- reader_scan, IH. done.
  - by right.
  - apply Forall_fmap. eapply Forall_impl; [exact Hp|]. apply universal_fits.
Qed.

Lemma count_store (ps : list product) :
  Forall storable ps →
  ∃ rows, DictReader (readlines (universal_newlines
                                   (writerow fieldnames +:+ rows_text ps)))
          = (rows, None)
          ∧ length rows = length ps.
Proof.
  intros Hps. unfold DictReader.
  rewrite universal_writerow, reader_scan, scan_row;
    [| by right | apply Forall_fmap; eapply Forall_impl;
                  [exact fieldnames_fit | apply universal_fits]].
  rewrite <- reader_scan, (reader_universal_rows ps Hps).
  cbn [yield fst snd]. eexists. split; [done|].
  rewrite length_fmap, filter_rows by done. apply length_map.
Qed.

Lemma scrape_all_pages_count (existing : gset string) (pages : list page) :
  (scrape_all_pages existing pages).2
  = length (scrape_all_pages existing pages).1.
Proof.
  unfold scrape_all_pages, scrape_pages. rewrite scrape_fold. simpl.
  by destruct (dedupe existing (concat (map page_records pages))).
Qed.

Lemma scrape_all_pages_again (existing : gset string) (pages : list page) :
  scrape_all_pages
    (existing ∪ list_to_set (map url (scrape_all_pages existing pages).1)) pages
  = ([], 0%nat).
Proof.
  unfold scrape_all_pages, scrape_pages. rewrite !scrape_fold. simpl.
  destruct (dedupe existing (concat (map page_records pages)))
    as [novel known'] eqn:E. simpl.
  apply dedupe_spec in E as (-> & _ & _ & Hall & _).
  by rewrite (dedupe_known _ _ Hall).
Qed.

Lemma main_stored (ps : list product) (pages : list page) :
  Forall storable ps →
  Forall storable (scrape_all_pages (list_to_set (map url ps)) pages).1 →
  main (stored ps) pages
  = (stored (ps ++ (scrape_all_pages (list_to_set (map url ps)) pages).1),
     Returns (reported_total
                (length (ps ++ (scrape_all_pages (list_to_set (map url ps)) pages).1)))).
Proof.
  intros Hps Hnew. unfold main.
  rewrite (load_stored ps Hps), identities_stored.
  pose proof (scrape_all_pages_count (list_to_set (map url ps)) pages) as Hn.
  destruct (scrape_all_pages (list_to_set (map url ps)) pages) as [new n].
  simpl in Hn, Hnew. subst n.
  assert ((if (0 <? length new)%nat then save_to_csv new (stored ps) else stored ps)
          = stored (ps ++ new)) as ->.
  { destruct new as [|q new]; [by rewrite app_nil_r|]. apply save_stored. }
  cbn [fst]. f_equal.
  assert (Forall storable (ps ++ new)) as Hall by (by apply Forall_app).
  destruct (ps ++ new) as [|p all] eqn:E; [done|].
  destruct (count_store (p :: all) Hall) as (rows & Hrows & Hlen).
  unfold stored. rewrite Hrows, Hlen. done.
Qed.

Lemma foldl_raises {A B} (f : outcome A → B → outcome A) (e : exn) (l : list B) :
  (∀ x, f (Raises e) x = Raises e) → foldl f (Raises e) l = Raises e.
Proof. intros Hf. induction l as [|x l IH]; [done|]. simpl. by rewrite Hf. Qed.

Lemma dict_of_row_missing (header row : list string) (key : string) :
  key ∉ header → dict_of_row header row !! key = None.
Proof.
  intros Hkey. unfold dict_of_row.
  assert (∀ (keys : list string) (d : gmap string (option string)),
            key ∉ keys → d !! key = None →
            foldl (λ d key, <[key := None]> d) d keys !! key = None) as Hfold.
  { induction keys as [|k keys IH]; intros d Hk Hd; [done|]. simpl.
    apply not_elem_of_cons in Hk as [Hne Hk]. apply IH; [done|].
    by rewrite lookup_insert_ne. }
  apply Hfold.
  - intros H. apply Hkey. revert H. generalize (length row). intros n.
    revert n. induction header as [|h header IH]; intros [|n] H; try done.
    simpl in H. apply elem_of_cons. right. apply (IH ltac:(set_solver) n H).
  - apply not_elem_of_list_to_map. intros H. apply Hkey.
    apply list_elem_of_fmap in H as ([k v] & -> & H). simpl.
    apply (proj1 (elem_of_reverse _ _)) in H. by apply elem_of_zip_l in H.
Qed.

End main_facts.

Section overflow_facts.

#[local] Instance fits_dec (f : string) : Decision (fits f).
Proof. unfold fits. apply _. Defined.

Lemma overflow_step (x : string) (c : ascii) (f : string) :
  fits x → ¬ fits (x +:+ String c f) →
  (field_limit <=? Z.of_nat (String.length x)) = true
  ∨ ((field_limit <=? Z.of_nat (String.length x)) = false
     ∧ fits (x +:+ String c "") ∧ ¬ fits ((x +:+ String c "") +:+ f)).
Proof.
  unfold fits. rewrite !str_app_length. simpl. intros Hx Hf.
  destruct (field_limit <=? Z.of_nat (String.length x)) eqn:E; [by left|].
  right. apply Z.leb_gt in E. split; [done|]. split; lia.
Qed.

(** An unquoted field that grows beyond the limit stops the reader. *)
Lemma scan_plain_overflow (f : string) :
  ∀ x acc b s,
    plain f = true → fits x → ¬ fits (x +:+ f) →
    scan (mk IN_FIELD x acc) b (f +:+ s) = ([], Some csv_Error).
Proof.
  induction f as [|c f IH]; intros x acc b s Hp Hx Hf.
  - by rewrite str_app_nil_r in Hf.
  - unfold plain in Hp. simpl in Hp. apply andb_true_iff in Hp as [Hc Hp].
    destruct (plain_char c Hc) as (Hn & Hq & Hd & He).
    change (String c f +:+ s) with (String c (f +:+ s)). cbn [scan].
    unfold parse_process_char, parse_add_char. cbn [state field fields].
    rewrite Hn, Hd.
    destruct (overflow_step x c f Hx Hf) as [->|(-> & Hx' & Hf')]; [done|].
    rewrite He. by apply IH.
Qed.

(** So does a quoted one. *)
Lemma scan_quoted_overflow (f : string) :
  ∀ x acc b s,
    fits x → ¬ fits (x +:+ f) →
    scan (mk IN_QUOTED_FIELD x acc) b (double_quotes f +:+ String QUOTE s)
    = ([], Some csv_Error).
Proof.
  induction f as [|c f IH]; intros x acc b s Hx Hf.
  - by rewrite str_app_nil_r in Hf.
  - destruct (overflow_step x c f Hx Hf) as [E|(E & Hx' & Hf')].
    + destruct (Ascii.eqb_spec c QUOTE) as [->|Hq].
      * rewrite double_quotes_quote.
        change (String QUOTE (String QUOTE (double_quotes f)) +:+ String QUOTE s)
          with (String QUOTE (String QUOTE (double_quotes f +:+ String QUOTE s))).
        cbn [scan]. unfold parse_process_char at 1. cbn [state field fields].
        change (Ascii.eqb QUOTE QUOTE) with true. cbv iota.
        change (ends_line QUOTE (String QUOTE (double_quotes f +:+ String QUOTE s)))
          with false. cbv iota.
        unfold parse_process_char, parse_add_char. cbn [state field fields].
        change (Ascii.eqb QUOTE QUOTE) with true. cbv iota. by rewrite E.
      * apply Ascii.eqb_neq in Hq. rewrite (double_quotes_cons c _ Hq).
        change (String c (double_quotes f) +:+ String QUOTE s)
          with (String c (double_quotes f +:+ String QUOTE s)).
        cbn [scan]. unfold parse_process_char, parse_add_char.
        cbn [state field fields]. by rewrite Hq, E.
    + destruct (Ascii.eqb_spec c QUOTE) as [->|Hq].
      * rewrite double_quotes_quote.
        change (String QUOTE (String QUOTE (double_quotes f)) +:+ String QUOTE s)
          with (String QUOTE (String QUOTE (double_quotes f +:+ String QUOTE s))).
        cbn [scan]. unfold parse_process_char at 1. cbn [state field fields].
        change (Ascii.eqb QUOTE QUOTE) with true. cbv iota.
        change (ends_line QUOTE (String QUOTE (double_quotes f +:+ String QUOTE s)))
          with false. cbv iota.
        unfold parse_process_char, parse_add_char. cbn [state field fields].
        change (Ascii.eqb QUOTE QUOTE) with true. cbv iota. rewrite E.
        change (ends_line QUOTE (double_quotes f +:+ String QUOTE s)) with false.
        cbv iota. by apply IH.
      * apply Ascii.eqb_neq in Hq. rewrite (double_quotes_cons c _ Hq).
        change (String c (double_quotes f) +:+ String QUOTE s)
          with (String c (double_quotes f +:+ String QUOTE s)).
        cbn [scan]. unfold parse_process_char, parse_add_char.
        cbn [state field fields]. rewrite Hq, E.
        destruct (ends_line c _).
        -- cbn [parse_process_eol state]. rewrite bool_decide_false by done.
           by apply IH.
        -- by apply IH.
Qed.

(** A field beyond the limit stops the reader, wherever it stands. *)
Lemma scan_field_overflow (f : string) (st : ParserState) (acc : list string)
      (b : bool) (s : string) :
  ¬ fits f → st = START_RECORD ∨ st = START_FIELD →
  scan (mk st "" acc) b (join_append f +:+ s) = ([], Some csv_Error).
Proof.
  intros Hf Hst. destruct (plain f) eqn:Hp.
  - rewrite (join_append_plain f Hp). destruct f as [|c f].
    + exfalso. apply Hf. by vm_compute.
    + pose proof Hp as Hp'. unfold plain in Hp'. simpl in Hp'.
      apply andb_true_iff in Hp' as [Hc Hp'].
      destruct (plain_char c Hc) as (Hn & Hq & Hd & He).
      change (String c f +:+ s) with (String c (f +:+ s)).
      cbn [scan]. rewrite He.
      assert (parse_process_char (mk st "" acc) c
              = Returns (mk IN_FIELD (String c "") acc)) as ->.
      { unfold parse_process_char, parse_add_char. cbn [state field fields].
        rewrite Hn, Hq, Hd. by destruct Hst as [->| ->]. }
      apply scan_plain_overflow; [done | by vm_compute | done].
  - rewrite (join_append_quoted f Hp).
    change (String QUOTE (double_quotes f +:+ String QUOTE "") +:+ s)
      with (String QUOTE ((double_quotes f +:+ String QUOTE "") +:+ s)).
    rewrite str_app_assoc.
    change (String QUOTE "" +:+ s) with (String QUOTE s).
    cbn [scan].
    assert (parse_process_char (mk st "" acc) QUOTE
            = Returns (mk IN_QUOTED_FIELD "" acc)) as ->.
    { by destruct Hst as [->| ->]. }
    change (ends_line QUOTE _) with false. cbv iota.
    apply scan_quoted_overflow; [by vm_compute | done].
Qed.

Lemma scan_fields_overflow (fs : list string) :
  ∀ st acc b s,
    Exists (λ f, ¬ fits f) fs → st = START_RECORD ∨ st = START_FIELD →
    scan (mk st "" acc) b (join (String DELIMITER "") (map join_append fs) +:+ s)
    = ([], Some csv_Error).
Proof.
  induction fs as [|f fs IH]; intros st acc b s Hex Hst; [by inversion Hex|].
  destruct (decide (fits f)) as [Hf|Hf].
  - apply Exists_cons in Hex as [?|Hex]; [done|].
    destruct fs as [|g fs]; [by inversion Hex|].
    change (join (String DELIMITER "") (map join_append (f :: g :: fs)))
      with (join_append f +:+ String DELIMITER ""
            +:+ join (String DELIMITER "") (map join_append (g :: fs))).
    rewrite !str_app_assoc.
    change (String DELIMITER "" +:+ ?x) with (String DELIMITER x).
    rewrite scan_field_delimiter by auto. apply IH; auto.
  - destruct fs as [|g fs].
    + cbn [map join]. by apply scan_field_overflow.
    + change (join (String DELIMITER "") (map join_append (f :: g :: fs)))
        with (join_append f +:+ String DELIMITER ""
              +:+ join (String DELIMITER "") (map join_append (g :: fs))).
      rewrite !str_app_assoc. by apply scan_field_overflow.
Qed.

(** A row with a field beyond the limit stops the reader. *)
Lemma reader_writerow_overflow (fs : list string) (rest : string) :
  ¬ Forall fits fs →
  reader (readlines (writerow fs +:+ rest)) = ([], Some csv_Error).
Proof.
  intros Hfs. apply not_Forall_Exists in Hfs; [|apply _].
  rewrite reader_scan. unfold writerow. cbv zeta.
  set (rec := join (String DELIMITER "") (map join_append fs)).
  assert (nonempty rec = true) as ->.
  { apply nonempty_true. intros Hrec.
    assert (scan parse_reset false (rec +:+ "") = ([], Some csv_Error)) as H.
    { apply (scan_fields_overflow fs START_RECORD [] false ""); auto. }
    rewrite Hrec in H. done. }
  rewrite andb_false_r, str_app_assoc.
  apply (scan_fields_overflow fs START_RECORD [] false); auto.
Qed.

Lemma reader_rows_overflow (ps qs : list product) (p : product) :
  Forall storable ps → ¬ storable p →
  reader (readlines (rows_text (ps ++ p :: qs))) = (map row_of ps, Some csv_Error).
Proof.
  intros Hps Hp. induction Hps as [|p' ps Hp' _ IH].
  - change ([] ++ p :: qs)%list with (p :: qs).
    rewrite rows_text_cons. by rewrite reader_writerow_overflow.
  - change ((p' :: ps) ++ p :: qs)%list with (p' :: (ps ++ p :: qs))%list.
    rewrite rows_text_cons, (reader_writerow _ _ Hp'), IH. done.
Qed.

Lemma load_overflow (ps qs : list product) (p : product) :
  Forall storable ps → ¬ storable p →
  load_existing_products (stored (ps ++ p :: qs)) = Raises csv_Error.
Proof.
  intros Hps Hp.
  assert (stored (ps ++ p :: qs)
          = Some (writerow fieldnames +:+ rows_text (ps ++ p :: qs))) as ->.
  { by destruct ps. }
  unfold load_existing_products, DictReader.
  rewrite (reader_writerow _ _ fieldnames_fit), (reader_rows_overflow ps qs p Hps Hp).
  cbn [yield fst snd]. rewrite (filter_rows row_of) by done.
  by rewrite load_fold.
Qed.

Lemma repeat_char_length (c : ascii) (n : N) :
  Z.of_nat (String.length (repeat_char c n)) = Z.of_N n.
Proof.
  unfold repeat_char. induction n as [|n IH] using N.peano_ind; [done|].
  rewrite N.iter_succ. simpl String.length.
  rewrite Nat2Z.inj_succ, IH. lia.
Qed.

Lemma oversized_title_length :
  Z.of_nat (String.length oversized_title) = field_limit + 1.
Proof. exact (repeat_char_length "x" (Z.to_N (field_limit + 1))). Qed.

#[local] Opaque oversized_title.

Lemma oversized_title_too_long : fits oversized_title → False.
Proof.
  unfold fits. rewrite oversized_title_length. unfold field_limit. lia.
Qed.

Lemma oversized_not_storable : ¬ storable oversized_record.
Proof.
  intros H. apply Forall_cons in H as [_ H]. apply Forall_cons in H as [H _].
  exact (oversized_title_too_long H).
Qed.

End overflow_facts.

(** X14.  What [save_to_csv] writes to a new store is read back as it
    was written: the header, then the records one by one and field by
    field, whatever commas, quotes and line breaks the fields hold, as long
    as no field is longer than the field limit of the reader. *)
Theorem saved_records_read_back (ps : list product) :
  Forall storable ps → ps ≠ [] →
  ∃ text, save_to_csv ps None = Some text
          ∧ reader (readlines text) = (fieldnames :: map row_of ps, None).
Proof.
  intros Hps Hne. destruct ps as [|p ps]; [done|].
  eexists. split; [done|]. by apply reader_store.
Qed.

Lemma saved_records_read_back_witness :
  ∃ text, save_to_csv [hero_record; villain_record] None = Some text
          ∧ csv.reader (io.readlines text)
            = (fieldnames :: map row_of [hero_record; villain_record], None).
Proof.
  apply (saved_records_read_back [hero_record; villain_record]).
  - repeat constructor; by vm_compute.
  - done.
Defined.

(** X15.  After records have been saved, in one batch or in two,
    [load_existing_products] returns exactly their identities: every
    saved record is known to the next run. *)
Theorem load_after_save (old new : list product) :
  Forall storable old → Forall storable new →
  load_existing_products (save_to_csv new (save_to_csv old None))
  = Returns (list_to_set (map (λ p, Some (url p)) (old ++ new))).
Proof.
  intros Hold Hnew.
  assert (save_to_csv old None = stored old) as -> by (by destruct old).
  rewrite save_stored. apply load_stored. by apply Forall_app.
Qed.

Lemma load_after_save_witness :
  load_existing_products
    (save_to_csv [villain_record] (save_to_csv [hero_record] None))
  = Returns (list_to_set (map (λ p, Some (url p)) ([hero_record] ++ [villain_record]))).
Proof.
  apply (load_after_save [hero_record] [villain_record]).
  - repeat constructor; by vm_compute.
  - repeat constructor; by vm_compute.
Defined.

(** X16.  Saving two batches one after the other leaves the store that
    saving them at once leaves: the header is written once, with the first
    batch that is not empty, and an empty batch writes nothing, not even a
    file with a header. *)
Theorem save_to_csv_batches (batch1 batch2 : list product) :
  save_to_csv batch2 (save_to_csv batch1 None)
  = save_to_csv (batch1 ++ batch2) None.
Proof.
  assert (∀ ps, save_to_csv ps None = stored ps) as H by (by intros []).
  by rewrite !H, save_stored.
Qed.

(** X17.  A run of [main] on the store of the records [ps] appends the
    records that the pages hold and the store does not, and leaves the
    store of all of them; without any record there is still no file.  The
    total it prints last is one less than the number of records in the
    store: [DictReader] has left the header out, and [main] subtracts one
    for it again. *)
Theorem main_on_store (ps : list product) (pages : list page) :
  let new := (scrape_all_pages (list_to_set (map url ps)) pages).1 in
  Forall storable ps → Forall storable new →
  main (save_to_csv ps None) pages
  = (save_to_csv (ps ++ new) None,
     Returns (reported_total (length (ps ++ new)))).
Proof.
  intros new Hps Hnew.
  assert (∀ ps, save_to_csv ps None = stored ps) as H by (by intros []).
  rewrite !H. by apply main_stored.
Qed.

Lemma main_on_store_witness :
  main (save_to_csv [] None) [Html hero_soup; NotFound; Html hero_soup]
  = (save_to_csv [hero_record] None, Returns (Some 0)).
Proof.
  assert ((scrape_all_pages (list_to_set (map url []))
                            [Html hero_soup; NotFound; Html hero_soup]).1
          = [hero_record]) as E by (vm_compute; reflexivity).
  pose proof (main_on_store [] [Html hero_soup; NotFound; Html hero_soup]) as H.
  cbv zeta in H. rewrite E in H. apply H.
  - constructor.
  - repeat constructor; by vm_compute.
Defined.

(** X18.  Running [main] again on the same pages changes nothing: the
    second run finds every record in the store, leaves the store as it is
    and prints the same total. *)
Theorem main_twice (ps : list product) (pages : list page) :
  let new := (scrape_all_pages (list_to_set (map url ps)) pages).1 in
  Forall storable ps → Forall storable new →
  ∀ file total,
    main (save_to_csv ps None) pages = (file, total) →
    main file pages = (file, total).
Proof.
  intros new Hps Hnew file total.
  assert (∀ ps, save_to_csv ps None = stored ps) as H by (by intros []).
  rewrite H, (main_stored ps pages Hps Hnew). fold new. intros [= <- <-].
  assert (Forall storable (ps ++ new)) as Hall by (by apply Forall_app).
  assert ((scrape_all_pages (list_to_set (map url (ps ++ new))) pages).1 = []) as E.
  { rewrite map_app, list_to_set_app_L. unfold new.
    by rewrite scrape_all_pages_again. }
  rewrite (main_stored (ps ++ new) pages Hall); rewrite E; [|done].
  by rewrite app_nil_r.
Qed.

Lemma main_twice_witness :
  main (save_to_csv [hero_record] None) [Html hero_soup; NotFound; Html hero_soup]
  = (save_to_csv [hero_record] None, Returns (Some 0)).
Proof.
  assert ((scrape_all_pages (list_to_set (map url []))
                            [Html hero_soup; NotFound; Html hero_soup]).1
          = [hero_record]) as E by (vm_compute; reflexivity).
  pose proof (main_twice [] [Html hero_soup; NotFound; Html hero_soup]) as H.
  cbv zeta in H. rewrite E in H. apply H.
  - constructor.
  - repeat constructor; by vm_compute.
  - vm_compute. reflexivity.
Defined.

(** X19.  A store whose header has no [url] column loads as the empty
    set while it holds the header only, and makes
    [load_existing_products] raise [KeyError] as soon as a row follows the
    header, whatever comes after that row. *)
Theorem load_existing_products_missing_column
        (header row : list string) (rest : string) :
  Forall fits header → Forall fits row →
  "url" ∉ header → row ≠ [] →
  load_existing_products (Some (writerow header)) = Returns ∅
  ∧ load_existing_products (Some (writerow header +:+ writerow row +:+ rest))
    = Raises KeyError.
Proof.
  intros Hh Hr Hurl Hrow. split.
  - unfold load_existing_products, DictReader.
    rewrite <- (str_app_nil_r (writerow header)).
    by rewrite (reader_writerow header "" Hh).
  - unfold load_existing_products, DictReader.
    rewrite (reader_writerow header _ Hh), (reader_writerow row _ Hr).
    destruct (reader (readlines rest)) as [rows e]. cbn [yield fst snd].
    cbn [List.filter]. rewrite bool_decide_false by done. cbn [negb].
    cbn [fmap list_fmap foldl]. rewrite (dict_of_row_missing header row "url" Hurl).
    change (existing_products ← Returns ∅; Raises KeyError)
      with (@Raises (gset (option string)) KeyError).
    by rewrite foldl_raises.
Qed.

Lemma load_existing_products_missing_column_witness :
  load_existing_products (Some (csv.writerow ["link"; "name"])) = Returns ∅
  ∧ load_existing_products
      (Some (csv.writerow ["link"; "name"]
             +:+ csv.writerow ["https://www.target.com/p/hero-figure-x/-/A-12345";
                               "Hero Figure X"]
             +:+ ""))
    = Raises KeyError.
Proof.
  apply (load_existing_products_missing_column
           ["link"; "name"]
           ["https://www.target.com/p/hero-figure-x/-/A-12345"; "Hero Figure X"] "").
  - repeat constructor; by vm_compute.
  - repeat constructor; by vm_compute.
  - intros H. by vm_compute in H; repeat (apply elem_of_cons in H as [H|H]; [done|]); apply elem_of_nil in H.
  - done.
Defined.

(** X20.  A record with a field longer than the field limit of the
    reader is written without complaint, and from then on the store cannot
    be loaded: [load_existing_products] raises [csv.Error], and so does
    every later run of [main], which leaves the store as it is. *)
Theorem load_existing_products_overflow
        (ps qs : list product) (p : product) (pages : list page) :
  Forall storable ps → ¬ storable p →
  load_existing_products (save_to_csv (ps ++ p :: qs) None) = Raises csv_Error
  ∧ main (save_to_csv (ps ++ p :: qs) None) pages
    = (save_to_csv (ps ++ p :: qs) None, Raises csv_Error).
Proof.
  intros Hps Hp.
  assert (∀ ps, save_to_csv ps None = stored ps) as H by (by intros []).
  rewrite !H. pose proof (load_overflow ps qs p Hps Hp) as E.
  split; [done|]. unfold main. by rewrite E.
Qed.

Lemma load_existing_products_overflow_witness :
  load_existing_products (save_to_csv ([hero_record] ++ oversized_record :: []) None)
  = Raises csv_Error
  ∧ main (save_to_csv ([hero_record] ++ oversized_record :: []) None) [Html hero_soup]
    = (save_to_csv ([hero_record] ++ oversized_record :: []) None, Raises csv_Error).
Proof.
  apply (load_existing_products_overflow
           [hero_record] [] oversized_record [Html hero_soup]).
  - repeat constructor; by vm_compute.
  - exact oversized_not_storable.
Defined.

Section column_facts.

Lemma reader_written_rows (rows : list (list string)) :
  Forall (Forall fits) rows →
  reader (readlines (written_rows rows)) = (rows, None).
Proof.
  unfold written_rows. induction 1 as [|row rows Hrow _ IH]; [done|].
  cbn [map]. rewrite str_concat_cons, (reader_writerow _ _ Hrow), IH. done.
Qed.

Lemma foldl_insert_other (key : string) (keys : list string) :
  ∀ d : gmap string (option string),
    key ∉ keys → foldl (λ d key, <[key := None]> d) d keys !! key = d !! key.
Proof.
  induction keys as [|k keys IH]; intros d Hk; [done|]. simpl.
  apply not_elem_of_cons in Hk as [Hne Hk]. rewrite IH by done.
  by rewrite lookup_insert_ne.
Qed.

Lemma foldl_insert_same (key : string) (keys : list string) :
  ∀ d : gmap string (option string),
    key ∈ keys ∨ d !! key = Some None →
    foldl (λ d key, <[key := None]> d) d keys !! key = Some None.
Proof.
  induction keys as [|k keys IH]; intros d Hk.
  - destruct Hk as [Hk|Hk]; [by apply elem_of_nil in Hk | done].
  - simpl. apply IH. destruct (decide (k = key)) as [->|Hne].
    + right. by rewrite lookup_insert_eq.
    + destruct Hk as [[->|Hk]%elem_of_cons|Hk]; [done | by left |].
      right. by rewrite lookup_insert_ne.
Qed.

(** The value of a column that the header names once. *)
Lemma dict_of_row_column (header row : list string) (key : string) (i : nat) :
  header !! i = Some key → (∀ j, header !! j = Some key → j = i) →
  dict_of_row header row !! key = Some (row !! i).
Proof.
  intros Hi Honce. unfold dict_of_row.
  destruct (row !! i) as [v|] eqn:Hv.
  - rewrite foldl_insert_other.
    + destruct (list_to_map (reverse (zip header (Some <$> row))) !! key)
        as [x|] eqn:E.
      * apply elem_of_list_to_map_2 in E.
        apply (proj1 (elem_of_reverse _ _)) in E.
        apply list_elem_of_lookup in E as [j Hj].
        apply lookup_zip_with_Some in Hj as (k & y & [= <- <-] & Hk & Hy).
        apply Honce in Hk as ->. rewrite list_lookup_fmap, Hv in Hy.
        by injection Hy as <-.
      * exfalso. apply not_elem_of_list_to_map in E. apply E.
        apply list_elem_of_fmap. exists (key, Some v). split; [done|].
        apply elem_of_reverse. apply list_elem_of_lookup. exists i.
        apply lookup_zip_with_Some. exists key, (Some v).
        split; [done|]. split; [done|]. by rewrite list_lookup_fmap, Hv.
    + intros Hin. apply list_elem_of_lookup in Hin as [j Hj].
      rewrite lookup_drop in Hj. apply Honce in Hj.
      apply lookup_lt_Some in Hv. lia.
  - apply foldl_insert_same. left. apply list_elem_of_lookup.
    exists (i - length row)%nat. rewrite lookup_drop.
    apply lookup_ge_None in Hv.
    by replace (length row + (i - length row))%nat with i by lia.
Qed.

Lemma load_fold_column (header : list string) (i : nat) (rows : list (list string)) :
  header !! i = Some "url" → (∀ j, header !! j = Some "url" → j = i) →
  ∀ acc : gset (option string),
    foldl (λ acc row,
             existing_products ← acc;
             match row !! "url" with
             | Some v => Returns ({[ v ]} ∪ existing_products)
             | None => Raises KeyError
             end)
          (Returns acc)
          (dict_of_row header <$> rows)
    = Returns (acc ∪ list_to_set (map (λ row, row !! i) rows)).
Proof.
  intros Hi Honce. induction rows as [|row rows IH]; intros acc.
  - simpl. f_equal. set_solver.
  - cbn [map fmap list_fmap foldl].
    rewrite (dict_of_row_column header row "url" i Hi Honce).
    change (existing_products ← Returns acc; Returns ({[row !! i]} ∪ existing_products))
      with (Returns ({[row !! i]} ∪ acc)).
    rewrite (IH ({[row !! i]} ∪ acc)). f_equal. set_solver.
Qed.

End column_facts.

(** X24.  [load_existing_products] looks at the [url] column only,
    wherever it stands: for a store with any header that names [url] once,
    at position [i], the loaded set holds field [i] of every row that is
    not empty, and [None] for a row too short to have that field.  The
    other columns and their order do not matter. *)
Theorem load_existing_products_column
        (header : list string) (rows : list (list string)) (i : nat) :
  Forall fits header → Forall (Forall fits) rows →
  header !! i = Some "url" → (∀ j, header !! j = Some "url" → j = i) →
  load_existing_products (Some (csv.writerow header +:+ written_rows rows))
  = Returns (list_to_set
               (map (λ row, row !! i)
                    (List.filter (λ row, negb (bool_decide (row = []))) rows))).
Proof.
  intros Hh Hrows Hi Honce. unfold load_existing_products, csv.DictReader.
  rewrite (reader_writerow _ _ Hh), (reader_written_rows rows Hrows).
  cbn [csv.yield fst snd].
  rewrite (load_fold_column header i) by done.
  simpl. f_equal. set_solver.
Qed.

Lemma load_existing_products_column_witness :
  load_existing_products
    (Some (csv.writerow ["title"; "url"]
           +:+ written_rows [["Hero Figure X";
                              "https://www.target.com/p/hero-figure-x/-/A-12345"];
                             [];
                             ["Villain"]]))
  = Returns (list_to_set
               (map (λ row, row !! 1%nat)
                    (List.filter (λ row, negb (bool_decide (row = [])))
                       [["Hero Figure X";
                         "https://www.target.com/p/hero-figure-x/-/A-12345"];
                        [];
                        ["Villain"]]))).
Proof.
  apply (load_existing_products_column
           ["title"; "url"]
           [["Hero Figure X"; "https://www.target.com/p/hero-figure-x/-/A-12345"];
            []; ["Villain"]] 1).
  - repeat constructor; by vm_compute.
  - repeat constructor; by vm_compute.
  - reflexivity.
  - intros [|[|[|j]]] Hj; try done.
Defined.

(** X25.  [main] only ever appends to a store that exists, be it one
    that this program wrote or not: when the store loads, the store after
    the run is the old text followed by the rows of the new records, and
    when loading it raises, the run raises the same and leaves the store
    as it is. *)
Theorem main_appends (text : string) (pages : list page) :
  (∀ existing,
      load_existing_products (Some text) = Returns existing →
      (main (Some text) pages).1
      = Some (text +:+ rows_text (scrape_all_pages (identities existing) pages).1))
  ∧ (∀ e, load_existing_products (Some text) = Raises e →
          main (Some text) pages = (Some text, Raises e)).
Proof.
  split.
  - intros existing Hload. unfold main. rewrite Hload.
    pose proof (scrape_all_pages_count (identities existing) pages) as Hn.
    destruct (scrape_all_pages (identities existing) pages) as [new n].
    simpl in Hn. subst n. cbn [fst].
    destruct new as [|p new]; [by rewrite str_app_nil_r|]. done.
  - intros e Hload. unfold main. by rewrite Hload.
Qed.

(** X26.  The header is written only when there is no file.  A store
    that exists and is empty gets the rows without a header; the next run
    then takes the first record for the header: with that record alone the
    store loads as the empty set, so the record is not known again, and
    with more rows [load_existing_products] raises [KeyError] (unless a
    field of the first record is the text [url]). *)
Theorem save_to_csv_empty_file (p : product) (ps : list product) :
  Forall storable (p :: ps) → "url" ∉ row_of p →
  save_to_csv (p :: ps) (Some "") = Some (rows_text (p :: ps))
  ∧ load_existing_products (save_to_csv (p :: ps) (Some ""))
    = match ps with
      | [] => Returns ∅
      | _ :: _ => Raises KeyError
      end.
Proof.
  intros Hps Hurl. split; [done|].
  change (save_to_csv (p :: ps) (Some "")) with (Some (rows_text (p :: ps))).
  unfold load_existing_products, csv.DictReader.
  rewrite (reader_rows_text _ Hps). cbn [map].
  rewrite (filter_rows row_of) by done.
  destruct ps as [|q ps]; [done|].
  cbn [map fmap list_fmap foldl].
  rewrite (dict_of_row_missing (row_of p) (row_of q) "url" Hurl).
  change (existing_products ← Returns ∅; Raises KeyError)
    with (@Raises (gset (option string)) KeyError).
  by rewrite foldl_raises.
Qed.

Lemma save_to_csv_empty_file_witness :
  save_to_csv [hero_record; villain_record] (Some "")
  = Some (rows_text [hero_record; villain_record])
  ∧ load_existing_products (save_to_csv [hero_record; villain_record] (Some ""))
    = Raises KeyError.
Proof.
  apply (save_to_csv_empty_file hero_record [villain_record]).
  - repeat constructor; by vm_compute.
  - intros H. vm_compute in H.
    repeat (apply elem_of_cons in H as [H|H]; [done|]). by apply elem_of_nil in H.
Defined.

End persistence.
